(** * gpmodel: a shallow embedding of the Gaussian process model

    The Python class [GPModel] of [gpmodel.py] is embedded function by
    function.  Floating point numbers are idealised as real numbers, numpy
    arrays and matrices are row-major lists of rows, pandas objects are
    ordered lists of labelled rows, Python exceptions are an error value,
    and mutation of the model object and of its kernel is explicit state
    passing.  Code the model calls but does not define (numpy's [linalg],
    scipy, scikit-learn, the kernel and the mean function) is taken through
    interfaces; what a theorem assumes of them is a named contract. *)

From Stdlib Require Import Reals Lra Lia List String.
From stdpp Require Import gmap strings list.
Import ListNotations.
Open Scope R_scope.

(* ================================================================== *)
(** * Exceptions and the two monads *)

Inductive exn : Type :=
  | AttributeError | ValueError | IndexError | KeyError
  | NameError | TypeError | RuntimeError | LinAlgError | IOError.

Inductive result (A : Type) : Type :=
  | Ok (a : A)
  | Raise (e : exn).
Arguments Ok {A} a.
Arguments Raise {A} e.

Definition bind {A B} (c : result A) (k : A -> result B) : result B :=
  match c with
  | Ok a => k a
  | Raise e => Raise e
  end.

Notation "x <- c ;; k" := (bind c (fun x => k))
  (at level 100, c at next level, right associativity).

(** Reading an attribute that was never assigned raises [AttributeError]. *)
Definition attr {A} (o : option A) : result A :=
  match o with
  | Some a => Ok a
  | None => Raise AttributeError
  end.

Fixpoint mapM {A B} (f : A -> result B) (l : list A) : result (list B) :=
  match l with
  | [] => Ok []
  | a :: l' => b <- f a ;; bs <- mapM f l' ;; Ok (b :: bs)
  end.

(* ================================================================== *)
(** * Arrays *)

Definition vector := list R.
Definition matrix := list (list R).

Definition nrows (A : matrix) : nat := length A.
Definition ncols (A : matrix) : nat := length (hd [] A).
Definition get (A : matrix) (i j : nat) : R := nth j (nth i A []) 0.

(** [wf n m A]: [A] has shape [(n, m)]. *)
Definition wf (n m : nat) (A : matrix) : Prop :=
  length A = n /\ Forall (fun r => length r = m) A.

Fixpoint Rsum (n : nat) (f : nat -> R) : R :=
  match n with
  | O => 0
  | S n' => Rsum n' f + f n'
  end.

Definition vsum (l : vector) : R := fold_right Rplus 0 l.

Definition mk (n m : nat) (f : nat -> nat -> R) : matrix :=
  map (fun i => map (f i) (seq 0 m)) (seq 0 n).

(** [A.T] *)
Definition transpose (A : matrix) : matrix :=
  mk (ncols A) (nrows A) (fun j i => get A i j).

Definition mmul (A B : matrix) : matrix :=
  mk (nrows A) (ncols B)
     (fun i j => Rsum (ncols A) (fun k => get A i k * get B k j)).

(** [np.dot(A, B)] on two-dimensional operands. *)
Definition dot (A B : matrix) : result matrix :=
  if Nat.eqb (ncols A) (nrows B) then Ok (mmul A B) else Raise ValueError.

(** [np.matrix(l)] of a one-dimensional [l] is the row [1 x n]. *)
Definition np_matrix (l : vector) : matrix := [l].
Definition col (l : vector) : matrix := map (fun x => [x]) l.

(** [M.item()] *)
Definition item (A : matrix) : result R :=
  match A with
  | [[x]] => Ok x
  | _ => Raise ValueError
  end.

Definition mmap (f : R -> R) (A : matrix) : matrix := map (map f) A.

Definition eye (n : nat) : matrix :=
  mk n n (fun i j => if Nat.eqb i j then 1 else 0).

(** [np.diag] of a one-dimensional argument, and of a square one. *)
Definition diag_of (v : vector) : matrix :=
  mk (length v) (length v) (fun i j => if Nat.eqb i j then nth i v 0 else 0).
Definition diagonal (A : matrix) : vector :=
  map (fun i => get A i i) (seq 0 (Nat.min (nrows A) (ncols A))).

(** Broadcasting of a binary operation over two-dimensional operands: an
    axis of length one is stretched, other lengths must agree. *)
Definition bdim (a b : nat) : option nat :=
  if Nat.eqb a b then Some a
  else if Nat.eqb a 1 then Some b
  else if Nat.eqb b 1 then Some a
  else None.
Definition bget (A : matrix) (i j : nat) : R :=
  get A (if Nat.eqb (nrows A) 1 then 0%nat else i)
        (if Nat.eqb (ncols A) 1 then 0%nat else j).
Definition broadcast (op : R -> R -> R) (A B : matrix) : result matrix :=
  match bdim (nrows A) (nrows B), bdim (ncols A) (ncols B) with
  | Some n, Some m => Ok (mk n m (fun i j => op (bget A i j) (bget B i j)))
  | _, _ => Raise ValueError
  end.

Definition madd (A B : matrix) : result matrix := broadcast Rplus A B.
Definition msub (A B : matrix) : result matrix := broadcast Rminus A B.
Definition mdiv (A B : matrix) : result matrix := broadcast Rdiv A B.

Definition lower_triangular (L : matrix) : Prop :=
  forall i j, (i < j)%nat -> get L i j = 0.
Definition upper_triangular (U : matrix) : Prop :=
  forall i j, (j < i)%nat -> get U i j = 0.
Definition nonzero_diag (n : nat) (A : matrix) : Prop :=
  forall i, (i < n)%nat -> get A i i <> 0.

(* ================================================================== *)
(** * pandas objects *)

Definition ident := string.
(** A row of a sequence [DataFrame]: the residues of one protein. *)
Definition sequence := string.
Definition DataFrame := list (ident * sequence).
Definition Series := list (ident * R).

Definition index {A} (d : list (ident * A)) : list ident := map fst d.
Definition values {A} (d : list (ident * A)) : list A := map snd d.

(** [d.loc[ids]]: the rows labelled by [ids], in the order of [ids]; a
    label that is missing raises [KeyError]. *)
Definition loc1 {A} (d : list (ident * A)) (i : ident) : list (ident * A) :=
  filter (fun r => String.eqb (fst r) i) d.
Fixpoint loc {A} (d : list (ident * A)) (ids : list ident)
  : result (list (ident * A)) :=
  match ids with
  | [] => Ok []
  | i :: ids' =>
      match loc1 d i with
      | [] => Raise KeyError
      | rows => rest <- loc d ids' ;; Ok (rows ++ rest)
      end
  end.

(* ================================================================== *)
(** * The collaborators *)

(** [numpy.linalg] ([lstsq] stands for the first component of its result)
    and the entry [[0, 1]] of [numpy.corrcoef]. *)
Class NumPyLinalg := {
  cholesky : matrix -> result matrix;
  lstsq : matrix -> matrix -> result matrix;
  inv : matrix -> result matrix;
  corrcoef : vector -> vector -> R
}.

(** The kernel capability: [hypers], [set_X], [make_K], [calc_kernel],
    [train] and [delete], over the kernel object's own state [K]. *)
Class GPKernel (K : Type) := {
  kern_hypers : K -> list string;
  set_X : K -> DataFrame -> K;
  make_K : K -> vector -> result matrix;
  calc_kernel : K -> ident -> ident -> vector -> result R;
  train : K -> DataFrame -> K;
  delete : K -> DataFrame -> K
}.

(** The mean function capability: [fit], [means] and [mean]. *)
Class GPMean (Mf : Type) := {
  mean_fit : Mf -> DataFrame -> Series -> Mf;
  mean_means : Mf -> vector;
  mean_mean : Mf -> DataFrame -> vector
}.

(** [GPMean()] *)
Class GPMeanDefault (Mf : Type) := default_mean : Mf.

(** [scipy.linalg.sqrtm], [scipy.integrate.quad] (its first component),
    [scipy.optimize.minimize] (the field ['x'] of its result), handed the
    objective, the initial guesses and the bounds, and from [scipy.stats]
    [rankdata] and the correlation of [kendalltau]. *)
Class SciPy := {
  sqrtm : matrix -> matrix;
  quad : (R -> R) -> R -> R -> R;
  minimize : (vector -> result R) -> vector -> list (R * option R)
             -> result vector;
  rankdata : vector -> vector;
  kendalltau : vector -> vector -> R
}.

(** [sklearn.metrics]: [roc_auc_score(y_true, y_score)], whose scores
    arrive as the rows the caller passes, and [r2_score]. *)
Class SkLearn := {
  roc_auc_score : vector -> matrix -> result R;
  r2_score : vector -> vector -> R
}.

(* ================================================================== *)
(** * The model object *)

(** The two bound methods [self.objective] can hold. *)
Inductive Objective : Type := log_ML_method | LOO_log_p_method.

(** A [namedtuple]: field names with their values, in field order. *)
Definition Hypers := list (string * R).

Section Model.

Context {K Mf : Type}.

(** What an attribute of the model (or a keyword argument) can hold. *)
Inductive value : Type :=
  | VNone
  | VBool (b : bool)
  | VInt (n : nat)
  | VFloat (r : R)
  | VStr (s : string)
  | VList (l : vector)
  | VArr (m : matrix)
  | VSeries (s : Series)
  | VFrame (d : DataFrame)
  | VHypers (h : Hypers)
  | VDict (d : gmap string R)
  | VMethod (o : Objective)
  | VKern (k : K)
  | VMean (m : Mf).

(** [self.__dict__] *)
Local Abbreviation obj := (gmap string value).

Definition getattr (self : obj) (name : string) : result value :=
  attr (self !! name).

Definition as_bool (v : value) : result bool :=
  match v with VBool b => Ok b | VNone => Ok false | _ => Raise TypeError end.
Definition as_float (v : value) : result R :=
  match v with VFloat r => Ok r | _ => Raise TypeError end.
Definition as_arr (v : value) : result matrix :=
  match v with VArr m => Ok m | _ => Raise TypeError end.
Definition as_series (v : value) : result Series :=
  match v with VSeries s => Ok s | _ => Raise TypeError end.
Definition as_frame (v : value) : result DataFrame :=
  match v with VFrame d => Ok d | _ => Raise TypeError end.
Definition as_hypers (v : value) : result Hypers :=
  match v with VHypers h => Ok h | _ => Raise TypeError end.
Definition as_kern (v : value) : result K :=
  match v with VKern k => Ok k | _ => Raise AttributeError end.
Definition as_mean (v : value) : result Mf :=
  match v with VMean m => Ok m | _ => Raise AttributeError end.
Definition as_method (v : value) : result Objective :=
  match v with VMethod o => Ok o | _ => Raise TypeError end.

Definition get_bool self n := v <- getattr self n ;; as_bool v.
Definition get_float self n := v <- getattr self n ;; as_float v.
Definition get_arr self n := v <- getattr self n ;; as_arr v.
Definition get_series self n := v <- getattr self n ;; as_series v.
Definition get_frame self n := v <- getattr self n ;; as_frame v.
Definition get_hypers self n := v <- getattr self n ;; as_hypers v.
Definition get_kern self := v <- getattr self "kern" ;; as_kern v.
Definition get_mean_func self := v <- getattr self "mean_func" ;; as_mean v.

(** The state and error monad of the methods that assign attributes: an
    exception leaves the assignments made before it in place. *)
Definition M (A : Type) : Type := obj -> result A * obj.

Definition ret {A} (a : A) : M A := fun s => (Ok a, s).
Definition raise {A} (e : exn) : M A := fun s => (Raise e, s).
Definition mbind_ {A B} (c : M A) (k : A -> M B) : M B :=
  fun s => match c s with
           | (Ok a, s') => k a s'
           | (Raise e, s') => (Raise e, s')
           end.
(** A method that only reads [self]. *)
Definition reading {A} (f : obj -> result A) : M A := fun s => (f s, s).
Definition lift {A} (c : result A) : M A := fun s => (c, s).
Definition setattr (name : string) (v : value) : M unit :=
  fun s => (Ok tt, <[name := v]> s).

End Model.

Arguments value : clear implicits.
Abbreviation obj K Mf := (gmap string (value K Mf)).

Notation "x <~ c ;; k" := (mbind_ c (fun x => k))
  (at level 100, c at next level, right associativity).
Notation "c ;;; k" := (mbind_ c (fun _ => k))
  (at level 100, right associativity).

(* ================================================================== *)
(** * numpy helpers on one-dimensional arrays *)

(** Elementwise operation on two one-dimensional arrays: equal lengths, or
    one of them of length one. *)
Definition vzip (op : R -> R -> R) (u v : vector) : result vector :=
  if Nat.eqb (length u) (length v) then Ok (zip_with op u v)
  else match u, v with
       | [x], _ => Ok (map (op x) v)
       | _, [y] => Ok (map (fun x => op x y) u)
       | _, _ => Raise ValueError
       end.

(** [np.append(A, B, axis=0)] and [np.append(A, B, axis=1)]. *)
Definition append_rows (A B : matrix) : result matrix :=
  if Nat.eqb (ncols A) (ncols B) then Ok (A ++ B) else Raise ValueError.
Definition append_cols (A B : matrix) : result matrix :=
  if Nat.eqb (nrows A) (nrows B) then Ok (zip_with app A B)
  else Raise ValueError.

(** [P[:, j]] of [P = np.array(rows)]: an empty list of rows makes a
    one-dimensional array, which has no second axis. *)
Definition column (P : matrix) (j : nat) : result vector :=
  match P with
  | [] => Raise IndexError
  | _ => if Nat.ltb j (ncols P) then Ok (map (fun r => nth j r 0) P)
         else Raise IndexError
  end.

(** [1 / (1 + exp(-F))], the logistic likelihood at [Y = 1.0]. *)
Definition logistic (f : R) : R := 1 / (1 + exp (- f)).

(** Membership [y in [-1, 1]]. *)
Definition is_pm1 (y : R) : bool :=
  if Req_dec_T y (-1) then true
  else if Req_dec_T y 1 then true else false.

(** [Hypers._make(vals)] for a [namedtuple] with the fields [names]. *)
Definition namedtuple_make (names : list string) (vals : vector)
  : result Hypers :=
  if Nat.eqb (length names) (length vals) then Ok (zip names vals)
  else Raise TypeError.

(** [h.name] *)
Fixpoint field (h : Hypers) (name : string) : result R :=
  match h with
  | [] => Raise AttributeError
  | (n, v) :: h' => if String.eqb n name then Ok v else field h' name
  end.

(* ================================================================== *)
(** * The methods of [GPModel] *)

Section GP.

Context {K Mf : Type} {HK : GPKernel K} {HM : GPMean Mf}
        {HD : GPMeanDefault Mf} {NP : NumPyLinalg} {SP : SciPy}
        {SK : SkLearn}.

Local Abbreviation obj := (gmap string (value K Mf)).
Local Abbreviation St := (M (K:=K) (Mf:=Mf)).

(** ** Normalization *)

Definition series_mean (d : vector) : R := vsum d / INR (length d).
(** [Series.std()], the sample standard deviation of at least two values;
    for fewer, pandas gives [nan]. *)
Definition series_std (d : vector) : R :=
  let m := series_mean d in
  sqrt (vsum (map (fun x => (x - m) ^ 2) d) / (INR (length d) - 1)).

Definition _normalize (data : Series) : R * R * Series :=
  let m := series_mean (values data) in
  let s := series_std (values data) in
  (m, s, map (fun '(i, x) => (i, (x - m) / s)) data).

Definition unnormalize (self : obj) (normed : matrix) : result matrix :=
  s <- get_float self "std" ;;
  m <- get_float self "mean" ;;
  Ok (mmap (fun x => x * s + m) normed).

Definition unnormalize_vec (self : obj) (normed : vector) : result vector :=
  s <- get_float self "std" ;;
  m <- get_float self "mean" ;;
  Ok (map (fun x => x * s + m) normed).

(** ** Covariance matrices *)

Definition _make_Ks (self : obj) (hypers : vector)
  : result (matrix * matrix) :=
  kern <- get_kern self ;;
  if Nat.eqb (length hypers) (length (kern_hypers kern)) then
    vs <- getattr self "variances" ;;
    match vs with
    | VNone => Raise AttributeError
    | _ =>
        Kc <- make_K kern hypers ;;
        vs <- as_series vs ;;
        Ky <- madd Kc (diag_of (values vs)) ;;
        Ok (Kc, Ky)
    end
  else if Nat.eqb (length hypers) (length (kern_hypers kern) + 1) then
    Kc <- make_K kern (tl hypers) ;;
    Ky <- madd Kc (mmap (fun x => x * hd 0 hypers) (eye (length Kc))) ;;
    Ok (Kc, Ky)
  else Raise AttributeError.

(** ** Prediction for one sequence *)

(** Equation 3.25 with a sigmoid likelihood.  The real-valued reading
    holds for a positive [variance]: at zero Python's division raises, and
    for a negative one numpy's square root is [nan]. *)
Definition _p_integral (z mean variance : R) : R :=
  let first := 1 / (1 + exp (- z)) in
  let second := 1 / sqrt (2 * PI * variance) in
  let third := exp (- (z - mean) ^ 2 / (2 * variance)) in
  first * second * third.

Definition _predict (self : obj) (k : matrix) (k_star : R)
    (alpha L : option matrix) (unnorm : bool) : result vector :=
  regr <- get_bool self "regr" ;;
  if regr then
    alpha <- match alpha with
             | None => get_arr self "_alpha"
             | Some a => Ok a
             end ;;
    L <- match L with
         | None => get_arr self "_L"
         | Some l => Ok l
         end ;;
    E <- dot k alpha ;;
    v <- lstsq L (transpose k) ;;
    vtv <- dot (transpose v) v ;;
    let var := mmap (fun x => k_star - x) vtv in
    if unnorm then
      E <- unnormalize self E ;;
      s <- get_float self "std" ;;
      let var := mmap (fun x => x * s ^ 2) var in
      e <- item E ;;
      w <- item var ;;
      Ok [e; w]
    else
      e <- item E ;;
      w <- item var ;;
      Ok [e; w]
  else
    grad <- get_arr self "_grad" ;;
    f_bar <- dot k (transpose grad) ;;
    L <- get_arr self "_L" ;;
    W_root <- get_arr self "_W_root" ;;
    rhs <- dot W_root (transpose k) ;;
    v <- lstsq L rhs ;;
    vtv <- dot (transpose v) v ;;
    let var := mmap (fun x => k_star - x) vtv in
    lo <- madd (mmap (fun x => - 10 * x) var) f_bar ;;
    hi <- madd f_bar (mmap (fun x => 10 * x) var) ;;
    fb <- item f_bar ;;
    vr <- item var ;;
    lo <- item lo ;;
    hi <- item hi ;;
    let pi_star := quad (fun z => _p_integral z fb vr) lo hi in
    Ok [pi_star; fb; vr].

(** ** The logistic likelihood *)

(** [_logistic_likelihood(Y, F)] on arrays; every entry of [Y] must be
    [1] or [-1]. *)
Definition _logistic_likelihood (Ys F : vector) : result vector :=
  if forallb is_pm1 Ys
  then vzip (fun y f => 1 / (1 + exp (- y * f))) Ys F
  else Raise RuntimeError.

Definition _log_logistic_likelihood (Ys F : Series) : result R :=
  if negb (Nat.eqb (length Ys) (length F)) then Raise RuntimeError
  else
    p <- _logistic_likelihood (values Ys) (values F) ;;
    Ok (vsum (map ln p)).

(** The gradient [(Y + 1) / 2 - logistic(F)]; the method returns it as a
    diagonal matrix. *)
Definition _grad_log_logistic_likelihood (Ys F : Series) : result matrix :=
  let half := map (fun y => (y + 1) / 2) (values Ys) in
  glll <- vzip Rminus half (map logistic (values F)) ;;
  Ok (diag_of glll).

Definition _hess (F : Series) : matrix :=
  diag_of (map (fun f => logistic f * (1 - logistic f)) (values F)).

(** ** Mode finding (Algorithm 3.1 of Rasmussen and Williams) *)

(** [pd.Series(a)]: the default index is not inspected by the model. *)
Definition new_series (a : vector) : Series := map (fun x => (EmptyString, x)) a.

(** [a.reshape((len(a),))] of a two-dimensional [a]. *)
Definition flatten1 (A : matrix) : result vector :=
  if forallb (fun r => Nat.eqb (length r) 1) A then Ok (map (hd 0) A)
  else Raise ValueError.

(** [A.dot(v)] for a one-dimensional [v]. *)
Definition matvec (A : matrix) (v : vector) : result vector :=
  if Nat.eqb (ncols A) (length v)
  then Ok (map (fun i => Rsum (ncols A) (fun k => get A i k * nth k v 0))
               (seq 0 (nrows A)))
  else Raise ValueError.

(** [s.index = ids] *)
Definition set_index (s : Series) (ids : list ident) : result Series :=
  if Nat.eqb (length s) (length ids) then Ok (zip ids (values s))
  else Raise ValueError.

(** The body of the loop up to the new iterate: lines [W = ...] to
    [f_new = f_new.reshape(...)]. *)
Definition _find_F_body (self : obj) (Kc : matrix) (ell : nat)
    (f_hat : Series) : result vector :=
  let W := _hess f_hat in
  let W_root := sqrtm W in
  WK <- dot W_root Kc ;;
  trip_dot <- dot WK W_root ;;
  B <- madd (eye ell) trip_dot ;;
  L <- cholesky B ;;
  b <- matvec W (values f_hat) ;;
  Ys <- get_series self "Y" ;;
  g <- _grad_log_logistic_likelihood Ys f_hat ;;
  b <- vzip Rplus b (diagonal g) ;;
  let b := col b in
  WKb <- dot WK b ;;
  trip_dot_lstsq <- lstsq L WKb ;;
  s <- lstsq (transpose L) trip_dot_lstsq ;;
  Ws <- dot W_root s ;;
  a <- msub b Ws ;;
  f_new <- dot Kc a ;;
  flatten1 f_new.

(** The convergence test of one iteration.  When the sum of [f_new] is
    zero, numpy's quotient is [inf] or [nan] and the comparison with the
    threshold is [False]. *)
Definition below (threshold : R) (f_hat f_new : vector) : result bool :=
  d <- vzip Rminus f_hat f_new ;;
  let sq_error := vsum (map (fun x => x ^ 2) d) in
  Ok (if Req_dec_T (vsum f_new) 0 then false
      else if Rlt_dec (sq_error / vsum f_new) threshold then true
           else false).

Fixpoint _find_F_loop (self : obj) (Kc : matrix) (ell : nat)
    (threshold : R) (evals : nat) (f_hat : Series) (n_below : nat)
  : result Series :=
  match evals with
  | O => Raise RuntimeError
  | S evals' =>
      f_new <- _find_F_body self Kc ell f_hat ;;
      ok <- below threshold (values f_hat) f_new ;;
      let f_new := new_series f_new in
      let n_below := if ok then S n_below else O in
      if Nat.ltb 9 n_below then
        X <- get_frame self "X_seqs" ;;
        set_index f_new (index X)
      else _find_F_loop self Kc ell threshold evals' f_new n_below
  end.

(** [_find_F(hypers, guess, threshold, evals)]; a guess that is not
    [None] reaches the comparison with the undefined name [l]. *)
Definition _find_F (self : obj) (hypers : vector) (guess : option Series)
    (threshold : R) (evals : nat) : result Series :=
  Ys <- get_series self "Y" ;;
  let ell := length Ys in
  f_hat <- match guess with
           | None => Ok (new_series (repeat 0 ell))
           | Some _ => Raise NameError
           end ;;
  kern <- get_kern self ;;
  Kc <- make_K kern hypers ;;
  _find_F_loop self Kc ell threshold evals f_hat 0.

Definition default_threshold : R := 1 / 10000.
Definition default_evals : nat := 1000.

(** ** The objectives *)

Definition _logq (self : obj) (F : Series) (hypers : vector)
  : result matrix :=
  ell <- (v <- getattr self "_ell" ;;
          match v with VInt n => Ok n | _ => Raise TypeError end) ;;
  kern <- get_kern self ;;
  Kc <- make_K kern hypers ;;
  let W := _hess F in
  let W_root := sqrtm W in
  let F_mat := col (values F) in
  WK <- dot W_root Kc ;;
  trip_dot <- dot WK W_root ;;
  B <- madd (eye ell) trip_dot ;;
  L <- cholesky B ;;
  WF <- dot W F_mat ;;
  Ys <- get_series self "Y" ;;
  g <- _grad_log_logistic_likelihood Ys F ;;
  b <- madd WF (col (diagonal g)) ;;
  WKb <- dot WK b ;;
  trip_dot_lstsq <- lstsq L WKb ;;
  s <- lstsq (transpose L) trip_dot_lstsq ;;
  Ws <- dot W_root s ;;
  a <- msub b Ws ;;
  aF <- dot (transpose a) F_mat ;;
  Ys <- get_series self "Y" ;;
  lll <- _log_logistic_likelihood Ys F ;;
  Ok (mmap (fun x => 0.5 * x - lll + vsum (map ln (diagonal L))) aF).

Definition _log_ML (self : obj) (hypers : vector) : result R :=
  regr <- get_bool self "regr" ;;
  if regr then
    nY <- get_series self "normed_Y" ;;
    let Ym := [values nY] in
    KKy <- _make_Ks self hypers ;;
    L <- cholesky (snd KKy) ;;
    y <- lstsq L (transpose Ym) ;;
    alpha <- lstsq (transpose L) y ;;
    Ya <- dot Ym alpha ;;
    let second := vsum (map ln (diagonal L)) in
    let third := INR (length (fst KKy)) / 2 * ln (2 * PI) in
    item (mmap (fun x => 0.5 * x + second + third) Ya)
  else
    f_hat <- _find_F self hypers None default_threshold default_evals ;;
    ML <- _logq self f_hat hypers ;;
    item ML.

(** [LOO_res]: the rows [(mu, v)] of the returned frame, labelled by the
    index of [normed_Y]. *)
Definition LOO_res (self : obj) (hypers : vector) (add_mean unnorm : bool)
  : result (list (ident * (R * R))) :=
  KKy <- _make_Ks self hypers ;;
  K_inv <- inv (snd KKy) ;;
  nY <- get_series self "normed_Y" ;;
  let Ym := col (values nY) in
  KY <- dot K_inv Ym ;;
  q <- mdiv KY K_inv ;;
  d <- msub Ym q ;;
  let mus := diagonal d in
  let vs := diagonal (mmap (fun x => 1 / x) K_inv) in
  musvs <- (if add_mean || unnorm then
              mus <- unnormalize_vec self mus ;;
              s <- get_float self "std" ;;
              Ok (mus, map (fun x => x * s ^ 2) vs)
            else Ok (mus, vs)) ;;
  mus <- (if add_mean then
            mf <- get_mean_func self ;;
            vzip Rplus (fst musvs) (mean_means mf)
          else Ok (fst musvs)) ;;
  let rows := zip mus (snd musvs) in
  if Nat.eqb (length rows) (length nY) then Ok (zip (index nY) rows)
  else Raise ValueError.

Definition _LOO_log_p (self : obj) (hypers : vector) : result R :=
  LOO <- LOO_res self hypers false false ;;
  nY <- get_series self "normed_Y" ;;
  let log_ps :=
    zip_with (fun y '(mu, v) =>
                - 0.5 * ln v - (y - mu) ^ 2 / 2 / v - 0.5 * ln (2 * PI))
             (values nY) (values LOO) in
  Ok (- vsum log_ps).

Definition call_objective (self : obj) (o : Objective) (hypers : vector)
  : result R :=
  match o with
  | log_ML_method => _log_ML self hypers
  | LOO_log_p_method => _LOO_log_p self hypers
  end.

(** ** Fitting *)

(** [is_class]: [True] if [Y] only contains the values [1] and [-1]. *)
Definition is_class (self : obj) : result bool :=
  Ys <- get_series self "Y" ;;
  Ok (forallb is_pm1 (values Ys)).

Definition solve_alpha (L : matrix) (Ys : vector) : result matrix :=
  y <- lstsq L (transpose (np_matrix Ys)) ;;
  lstsq (transpose L) y.

(** [_set_hypers(hypers)] for an iterable [hypers], as [fit] calls it. *)
Definition _set_hypers (hypers : vector) : St unit :=
  regr <~ reading (fun self => get_bool self "regr") ;;
  names <~ reading (fun self =>
    kern <- get_kern self ;;
    if regr then
      vs <- getattr self "variances" ;;
      match vs with
      | VNone => Ok ("var_n"%string :: kern_hypers kern)
      | _ => Ok (kern_hypers kern)
      end
    else Ok (kern_hypers kern)) ;;
  h <~ lift (namedtuple_make names hypers) ;;
  setattr "hypers" (VHypers h) ;;;
  if regr then
    KKy <~ reading (fun self => _make_Ks self hypers) ;;
    setattr "_K" (VArr (fst KKy)) ;;;
    setattr "_Ky" (VArr (snd KKy)) ;;;
    L <~ lift (cholesky (snd KKy)) ;;
    setattr "_L" (VArr L) ;;;
    alpha <~ reading (fun self =>
      nY <- get_series self "normed_Y" ;;
      solve_alpha L (values nY)) ;;
    setattr "_alpha" (VArr alpha) ;;;
    ml <~ reading (fun self => _log_ML self (values h)) ;;
    setattr "ML" (VFloat ml) ;;;
    lp <~ reading (fun self => _LOO_log_p self (values h)) ;;
    setattr "log_p" (VFloat lp)
  else
    f_hat <~ reading (fun self =>
      _find_F self (values h) None default_threshold default_evals) ;;
    setattr "_f_hat" (VSeries f_hat) ;;;
    let W := _hess f_hat in
    setattr "_W" (VArr W) ;;;
    let W_root := sqrtm W in
    setattr "_W_root" (VArr W_root) ;;;
    Ky <~ reading (fun self =>
      kern <- get_kern self ;; make_K kern (values h)) ;;
    setattr "_Ky" (VArr Ky) ;;;
    L <~ reading (fun self =>
      ell <- (v <- getattr self "_ell" ;;
              match v with VInt n => Ok n | _ => Raise TypeError end) ;;
      WK <- dot W_root Ky ;;
      WKW <- dot WK W_root ;;
      B <- madd (eye ell) WKW ;;
      cholesky B) ;;
    setattr "_L" (VArr L) ;;;
    g <~ reading (fun self =>
      Ys <- get_series self "Y" ;;
      g <- _grad_log_logistic_likelihood Ys f_hat ;;
      Ok (np_matrix (diagonal g))) ;;
    setattr "_grad" (VArr g) ;;;
    ml <~ reading (fun self => _log_ML self (values h)) ;;
    setattr "ML" (VFloat ml).

Definition series_equal_index {A B} (a : list (ident * A))
    (b : list (ident * B)) : bool :=
  bool_decide (index a = index b).

(** [fit(X_seqs, Y, variances)] *)
Definition fit (X : DataFrame) (Ys : Series) (variances : option Series)
  : St unit :=
  setattr "X_seqs" (VFrame X) ;;;
  setattr "Y" (VSeries Ys) ;;;
  setattr "_ell" (VInt (length Ys)) ;;;
  kern <~ reading get_kern ;;
  setattr "kern" (VKern (set_X kern X)) ;;;
  cls <~ reading is_class ;;
  setattr "regr" (VBool (negb cls)) ;;;
  regr <~ reading (fun self => get_bool self "regr") ;;
  n_guesses <~
    (if regr then
       mf <~ reading get_mean_func ;;
       let mf := mean_fit mf X Ys in
       setattr "mean_func" (VMean mf) ;;;
       resid <~ lift (vzip Rminus (values Ys) (mean_means mf)) ;;
       let Yr := zip (index Ys) resid in
       setattr "Y" (VSeries Yr) ;;;
       let '(m, s, nY) := _normalize Yr in
       setattr "mean" (VFloat m) ;;;
       setattr "std" (VFloat s) ;;;
       setattr "normed_Y" (VSeries nY) ;;;
       kern <~ reading get_kern ;;
       match variances with
       | Some vs =>
           if negb (series_equal_index vs Ys) then raise AttributeError
           else
             s <~ reading (fun self => get_float self "std") ;;
             setattr "variances"
               (VSeries (map (fun '(i, x) => (i, x / s ^ 2)) vs)) ;;;
             ret (length (kern_hypers kern))
       | None =>
           setattr "variances" VNone ;;;
           ret (1 + length (kern_hypers kern))%nat
       end
     else
       kern <~ reading get_kern ;;
       o <~ reading (fun self => getattr self "objective") ;;
       match o with
       | VMethod LOO_log_p_method => raise AttributeError
       | _ => ret (length (kern_hypers kern))
       end) ;;
  gs <~ reading (fun self => getattr self "guesses") ;;
  guesses <~
    (match gs with
     | VNone => ret (repeat 0.9 n_guesses)
     | VList g =>
         if negb (Nat.eqb (length g) n_guesses) then raise AttributeError
         else ret g
     | _ => raise TypeError
     end) ;;
  let bounds := map (fun _ => (1 / 100000, @None R)) guesses in
  o <~ reading (fun self => v <- getattr self "objective" ;; as_method v) ;;
  x <~ reading (fun self =>
         minimize (call_objective self o) guesses bounds) ;;
  _set_hypers x.

(** ** Batched prediction and scoring *)

(** The hyperparameters handed to the kernel: [self.hypers[1::]] for a
    regression model, [self.hypers] otherwise. *)
Definition kernel_hypers (self : obj) : result vector :=
  regr <- get_bool self "regr" ;;
  h <- get_hypers self "hypers" ;;
  Ok (if regr then tl (values h) else values h).

(** The covariance vector of [s] against the training set, as a row. *)
Definition k_vector (self : obj) (kern : K) (h : vector) (s : ident)
  : result matrix :=
  X <- get_frame self "X_seqs" ;;
  k <- mapM (fun seq1 => calc_kernel kern s seq1 h) (index X) ;;
  Ok [k].

Definition predicts (new_seqs : DataFrame) (delete_ : bool)
  : St (list vector) :=
  kern <~ reading get_kern ;;
  setattr "kern" (VKern (train kern new_seqs)) ;;;
  h <~ reading kernel_hypers ;;
  predictions <~ reading (fun self =>
    kern <- get_kern self ;;
    mapM (fun ns =>
            k <- k_vector self kern h ns ;;
            k_star <- calc_kernel kern ns ns h ;;
            _predict self k k_star None None true)
         (index new_seqs)) ;;
  (if delete_ then
     X <~ reading (fun self => get_frame self "X_seqs") ;;
     let inds :=
       remove_dups (list_difference (index new_seqs) (index X)) in
     rows <~ lift (loc new_seqs inds) ;;
     kern <~ reading get_kern ;;
     setattr "kern" (VKern (delete kern rows))
   else ret tt) ;;;
  regr <~ reading (fun self => get_bool self "regr") ;;
  if regr then
    mf <~ reading get_mean_func ;;
    let means := mean_mean mf new_seqs in
    lift (mapM (fun '(p, mv) =>
                  match mv with
                  | [m; v] => Ok [m + p; v]
                  | _ => Raise ValueError
                  end)
               (zip means predictions))
  else ret predictions.

(** What [score] returns: one float, or the dictionary of the scores. *)
Inductive score_result : Type :=
  | Score (r : R)
  | Scores (d : gmap string R).

Fixpoint score_metrics (Ys pred_Y : vector) (args : list string)
    (scores : gmap string R) : result (gmap string R) :=
  match args with
  | [] => Ok scores
  | t :: args' =>
      if String.eqb t "kendalltau" then
        score_metrics Ys pred_Y args'
          (<[t := kendalltau (rankdata Ys) (rankdata pred_Y)]> scores)
      else if String.eqb t "R2" then
        score_metrics Ys pred_Y args' (<[t := r2_score Ys pred_Y]> scores)
      else if String.eqb t "R" then
        score_metrics Ys pred_Y args' (<[t := corrcoef Ys pred_Y]> scores)
      else Raise ValueError
  end.

Definition score (X : DataFrame) (Ys : Series) (args : list string)
  : St score_result :=
  if negb (bool_decide ((list_to_set (index X) : gset string)
                        = list_to_set (index Ys))
           && Nat.eqb (length X) (length Ys))
  then raise ValueError
  else
    predicted <~ predicts X true ;;
    regr <~ reading (fun self => get_bool self "regr") ;;
    if negb regr then
      r <~ lift (roc_auc_score (values Ys) predicted) ;;
      ret (Score r)
    else
      pred_Y <~ lift (mapM (fun yv => match yv with
                                      | [y; v] => Ok y
                                      | _ => Raise ValueError
                                      end) predicted) ;;
      match args with
      | [] => ret (Score (kendalltau (rankdata (values Ys))
                                     (rankdata pred_Y)))
      | _ =>
          scores <~ lift (score_metrics (values Ys) pred_Y args ∅) ;;
          match map_to_list scores with
          | [(_, r)] => ret (Score r)
          | _ => ret (Scores scores)
          end
      end.

(** ** Batch upper-bound selection *)

(** A row of the working frame [df]. *)
Record row : Type := {
  r_id : ident;
  r_mean : R;
  r_var : R;
  r_UB : option R;
  r_k_star : R;
  r_k : matrix
}.

(** [mean + np.sqrt(var) * 2].  numpy's square root of a negative
    variance is [nan], and so is the upper bound: [None]. *)
Definition upper_bound (mean var : R) : option R :=
  if Rle_dec 0 var then Some (mean + sqrt var * 2) else None.

(** [df[['UB']].idxmax()]: the first label that attains the maximum of the
    upper bounds that are not [nan]; [best] is the row retained so far,
    with its upper bound.  pandas raises [ValueError] on an empty frame.
    When every upper bound is [nan] the result is the label [nan], which is
    no label of the pool, and the lookup of the selection fails with
    [KeyError]. *)
Fixpoint argmax (best : option (row * R)) (rest : list row) : option row :=
  match rest with
  | [] => option_map fst best
  | r :: rest' =>
      match r_UB r with
      | None => argmax best rest'
      | Some u =>
          match best with
          | None => argmax (Some (r, u)) rest'
          | Some (_, ub) =>
              if Rlt_dec ub u then argmax (Some (r, u)) rest'
              else argmax best rest'
          end
      end
  end.
Definition idxmax (df : list row) : result ident :=
  match df with
  | [] => Raise ValueError
  | _ => match argmax None df with
         | Some r => Ok (r_id r)
         | None => Raise KeyError
         end
  end.

(** [df.loc[id]] and [df.drop(id)] *)
Definition rows_at (df : list row) (i : ident) : list row :=
  filter (fun r => String.eqb (r_id r) i) df.
Definition drop (df : list row) (i : ident) : list row :=
  filter (fun r => negb (String.eqb (r_id r) i)) df.

(** The columns [mean], [var] and [UB] from an array of predictions. *)
Definition mean_var_UB (P : matrix)
    : result (vector * vector * list (option R)) :=
  c0 <- column P 0 ;;
  c1 <- column P 1 ;;
  Ok (c0, c1, zip_with upper_bound c0 c1).

(** The frame before the first selection. *)
Definition bandit_init (self : obj) (sequences : DataFrame) (h : vector)
    (predictions : option matrix) : result (list row) :=
  kern <- get_kern self ;;
  k_stars <- mapM (fun ns => calc_kernel kern ns ns h) (index sequences) ;;
  ks <- mapM (k_vector self kern h) (index sequences) ;;
  P <- match predictions with
       | None =>
           mapM (fun '(k, k_star) => _predict self k k_star None None false)
                (zip ks k_stars)
       | Some P => Ok P
       end ;;
  cols <- mean_var_UB P ;;
  let '(means, vars, UBs) := cols in
  if negb (Nat.eqb (length P) (length sequences) && Nat.eqb (ncols P) 2)
  then Raise ValueError
  else
    Ok (map (fun '(i, m, v, u, ks, k) =>
               {| r_id := i; r_mean := m; r_var := v; r_UB := u;
                  r_k_star := ks; r_k := k |})
            (zip (zip (zip (zip (zip (index sequences) means) vars) UBs)
                      k_stars) ks)).

(** The local variables of the loop. *)
Record bandit : Type := {
  observed_X : DataFrame;
  observed_Y : Series;
  Ky : matrix;
  df : list row;
  selected : list ident
}.

(** The update after a selection that is not the last. *)
Definition bandit_update (self : obj) (sequences : DataFrame) (h : vector)
    (id_max : ident) (st : bandit) : result bandit :=
  picked <- loc sequences [id_max] ;;
  let observed_X := observed_X st ++ picked in
  let at_max := rows_at (df st) id_max in
  let observed_Y :=
    observed_Y st ++ map (fun r => (r_id r, r_mean r)) at_max in
  k0 <- match at_max with
        | [] => Raise IndexError
        | r :: _ => Ok (r_k r)
        end ;;
  Ky1 <- append_rows (Ky st) k0 ;;
  hy <- get_hypers self "hypers" ;;
  var_n <- field hy "var_n" ;;
  new_column <- append_cols k0 [map (fun r => r_k_star r + var_n) at_max] ;;
  Ky2 <- append_cols Ky1 (transpose new_column) ;;
  L <- cholesky Ky2 ;;
  alpha <- solve_alpha L (values observed_Y) ;;
  let df1 := drop (df st) id_max in
  kern <- get_kern self ;;
  ks <- mapM (fun r =>
                c <- calc_kernel kern (r_id r) id_max h ;;
                append_cols (r_k r) [[c]]) df1 ;;
  P <- mapM (fun '(k, r) =>
               _predict self k (r_k_star r) (Some alpha) (Some L) false)
            (zip ks df1) ;;
  cols <- mean_var_UB P ;;
  let '(means, vars, UBs) := cols in
  Ok {| observed_X := observed_X;
        observed_Y := observed_Y;
        Ky := Ky2;
        df := map (fun '(r, k, m, v, u) =>
                     {| r_id := r_id r; r_mean := m; r_var := v; r_UB := u;
                        r_k_star := r_k_star r; r_k := k |})
                  (zip (zip (zip (zip df1 ks) means) vars) UBs);
        selected := selected st |}.

(** [for i in range(n)], over the rounds [is] that remain. *)
Fixpoint bandit_loop (self : obj) (sequences : DataFrame) (h : vector)
    (n : nat) (rounds : list nat) (st : bandit) : result bandit :=
  match rounds with
  | [] => Ok st
  | i :: rounds' =>
      id_max <- idxmax (df st) ;;
      let st := {| observed_X := observed_X st; observed_Y := observed_Y st;
                   Ky := Ky st; df := df st;
                   selected := selected st ++ [id_max] |} in
      st <- (if negb (Nat.eqb i (n - 1))
             then bandit_update self sequences h id_max st
             else Ok st) ;;
      bandit_loop self sequences h n rounds' st
  end.

Definition batch_UB_bandit (sequences : DataFrame) (n : nat)
    (predictions : option matrix) : St (DataFrame * list ident) :=
  observed_X <~ reading (fun self => get_frame self "X_seqs") ;;
  observed_Y <~ reading (fun self => get_series self "normed_Y") ;;
  Ky <~ reading (fun self => get_arr self "_Ky") ;;
  kern <~ reading get_kern ;;
  setattr "kern" (VKern (train kern sequences)) ;;;
  h <~ reading kernel_hypers ;;
  df <~ reading (fun self => bandit_init self sequences h predictions) ;;
  st <~ reading (fun self =>
    bandit_loop self sequences h n (seq 0 n)
      {| observed_X := observed_X; observed_Y := observed_Y; Ky := Ky;
         df := df; selected := [] |}) ;;
  picked <~ lift (loc sequences (selected st)) ;;
  ret (picked, selected st).

(** ** Construction and persistence *)

(** The values of an iterable of floats. *)
Definition iter_floats (v : value K Mf) : result vector :=
  match v with
  | VList l => Ok l
  | VHypers h => Ok (values h)
  | _ => Raise TypeError
  end.

(** [_set_params] with the keyword arguments [kwargs] *)
Definition _set_params (kwargs : obj) : St unit :=
  (fun self => (Ok tt, kwargs ∪ self)) ;;;
  (match kwargs !! "objective" with
   | None | Some VNone => ret tt
   | Some (VStr o) =>
       if String.eqb o "log_ML" then
         setattr "objective" (VMethod log_ML_method)
       else if String.eqb o "LOO_log_p" then
         setattr "objective" (VMethod LOO_log_p_method)
       else raise AttributeError
   | Some _ => raise TypeError
   end) ;;;
  match kwargs !! "hypers" with
  | None | Some VNone => ret tt
  | Some (VDict d) => setattr "hypers" (VHypers (map_to_list d))
  | Some v =>
      regr <~ reading (fun self => get_bool self "regr") ;;
      kern <~ reading get_kern ;;
      let names := if regr then "var_n"%string :: kern_hypers kern
                   else kern_hypers kern in
      vals <~ lift (iter_floats v) ;;
      h <~ lift (namedtuple_make names vals) ;;
      setattr "hypers" (VHypers h)
  end.

(** [GPModel(kern, ...)] with the keyword arguments [kwargs]: the attributes of the new object. *)
Definition __init__ (kern : value K Mf) (kwargs : obj) : result unit * obj :=
  (setattr "kern" kern ;;;
   setattr "guesses" VNone ;;;
   let kwargs := match kwargs !! "objective" with
                 | None => <["objective" := VStr "log_ML"]> kwargs
                 | Some _ => kwargs
                 end in
   (match kwargs !! "mean_func" with
    | None => setattr "mean_func" (VMean default_mean)
    | Some _ => ret tt
    end) ;;;
   setattr "variances" VNone ;;;
   _set_params kwargs) ∅.

(** Files hold a pickled dictionary of attributes. *)
Local Abbreviation files := (gmap string (gmap string (value K Mf))).

(** The dictionary [save_me] that [dump] pickles. *)
Definition save_me (self : obj) : result obj :=
  o <- getattr self "objective" ;;
  let d := match o with
           | VMethod log_ML_method => <["objective" := VStr "log_ML"]> self
           | _ => <["objective" := VStr "LOO_log_p"]> self
           end in
  g <- getattr self "guesses" ;;
  let d := <["guesses" := g]> d in
  match self !! "hypers" with
  | Some (VHypers h) =>
      Ok (<["hypers" := VDict (list_to_map (reverse h))]> d)
  | _ => Ok d
  end.

Definition dump (self : obj) (f : string) (fs : files)
  : result unit * files :=
  match save_me self with
  | Ok d => (Ok tt, <[f := d]> fs)
  | Raise e => (Raise e, fs)
  end.

(** [GPModel.load(model)]: the model read back from the file [model]. *)
Definition load (model : string) (fs : files) : result obj :=
  match fs !! model with
  | None => Raise IOError
  | Some attributes =>
      match attributes !! "kern" with
      | None => Raise KeyError
      | Some kern =>
          match __init__ kern ∅ with
          | (Raise e, _) => Raise e
          | (Ok _, m) =>
              match _set_params (base.delete "kern" attributes) m with
              | (Raise e, _) => Raise e
              | (Ok _, m') => Ok m'
              end
          end
      end
  end.

End GP.

(* ================================================================== *)
(** * Contracts of the collaborators *)

Section Contracts.

Context {NP : NumPyLinalg}.

(** In exact arithmetic the least-squares solution of a square triangular
    system with a non-zero diagonal is its solution. *)
Definition lstsq_solves : Prop :=
  forall n A b,
    wf n n A -> wf n 1 b ->
    lower_triangular A \/ upper_triangular A -> nonzero_diag n A ->
    exists x, lstsq A b = Ok x /\ wf n 1 x /\ mmul A x = b.

(** When [cholesky] returns, it returns the lower triangular factor with
    a positive diagonal. *)
Definition cholesky_factors : Prop :=
  forall A L,
    cholesky A = Ok L ->
    wf (nrows A) (nrows A) L /\ lower_triangular L /\
    (forall i, (i < nrows A)%nat -> 0 < get L i i) /\
    mmul L (transpose L) = A.

(** When [inv] returns, it returns the inverse. *)
Definition inv_inverts : Prop :=
  forall A B,
    inv A = Ok B ->
    wf (nrows A) (nrows A) B /\
    mmul A B = eye (nrows A) /\ mmul B A = eye (nrows A).

End Contracts.

(* ================================================================== *)
(** * A reference [numpy.linalg] in exact arithmetic

    Triangular systems are solved by substitution, the Cholesky factor is
    computed row by row, and the inverse of a symmetric positive definite
    matrix comes from its factor.  [cholesky] and [inv] hand their result
    out only after checking it, as the library raises [LinAlgError] on
    input it cannot factor or invert. *)

(** The first [m] unknowns of the lower triangular system [L x = b]. *)
Fixpoint forward_subst (L : matrix) (b : vector) (m : nat) : vector :=
  match m with
  | O => []
  | S i =>
      let xs := forward_subst L b i in
      xs ++ [(nth i b 0 - Rsum i (fun j => get L i j * nth j xs 0))
             / get L i i]
  end.

(** [A] with the order of its rows and of its columns reversed. *)
Definition flip (n : nat) (A : matrix) : matrix :=
  mk n n (fun i j => get A (n - 1 - i) (n - 1 - j)).

(** The upper triangular system [U x = b], solved from the last row. *)
Definition back_subst (U : matrix) (b : vector) (n : nat) : vector :=
  rev (forward_subst (flip n U) (rev b) n).

Definition Req_b (x y : R) : bool := if Req_dec_T x y then true else false.
Definition Rlt_b (x y : R) : bool := if Rlt_dec x y then true else false.

Definition forall_lt (n : nat) (p : nat -> bool) : bool :=
  forallb p (seq 0 n).

Definition is_lower (n : nat) (A : matrix) : bool :=
  forall_lt n (fun i => forall_lt n (fun j =>
    if Nat.ltb i j then Req_b (get A i j) 0 else true)).

Definition has_shape (n m : nat) (A : matrix) : bool :=
  Nat.eqb (length A) n && forallb (fun r => Nat.eqb (length r) m) A.

Definition same_entries (n m : nat) (A B : matrix) : bool :=
  forall_lt n (fun i => forall_lt m (fun j => Req_b (get A i j) (get B i j))).

Definition lstsq_ref (A b : matrix) : result matrix :=
  let n := nrows A in
  if negb (Nat.eqb (nrows b) n) then Raise LinAlgError
  else if is_lower n A then Ok (col (forward_subst A (map (hd 0) b) n))
  else Ok (col (back_subst A (map (hd 0) b) n)).

(** Row [i] of the factor, from the rows [Lp] above it. *)
Fixpoint chol_entries (A Lp : matrix) (i j : nat) : vector :=
  match j with
  | O => []
  | S j' =>
      let r := chol_entries A Lp i j' in
      r ++ [(get A i j' - Rsum j' (fun k => nth k r 0 * get Lp j' k))
            / get Lp j' j']
  end.
Definition chol_row (A Lp : matrix) (n i : nat) : vector :=
  let r := chol_entries A Lp i i in
  r ++ [sqrt (get A i i - Rsum i (fun k => nth k r 0 * nth k r 0))]
    ++ repeat 0 (n - i - 1).
Fixpoint chol_rows (A : matrix) (n m : nat) : matrix :=
  match m with
  | O => []
  | S i => let Lp := chol_rows A n i in Lp ++ [chol_row A Lp n i]
  end.

Definition cholesky_ref (A : matrix) : result matrix :=
  let n := nrows A in
  let L := chol_rows A n n in
  if has_shape n n A && has_shape n n L && is_lower n L
     && forall_lt n (fun i => Rlt_b 0 (get L i i))
     && same_entries n n (mmul L (transpose L)) A
  then Ok L else Raise LinAlgError.

(** The inverse of a symmetric positive definite [A = L L^T], column by
    column: [A x = e_j] is [L y = e_j], [L^T x = y]. *)
Definition inv_ref (A : matrix) : result matrix :=
  let n := nrows A in
  L <- cholesky_ref A ;;
  let column j :=
    back_subst (transpose L)
      (forward_subst L (map (fun i => if Nat.eqb i j then 1 else 0)
                            (seq 0 n)) n) n in
  let B := mk n n (fun i j => nth i (column j) 0) in
  if has_shape n n B
     && same_entries n n (mmul A B) (eye n)
     && same_entries n n (mmul B A) (eye n)
  then Ok B else Raise LinAlgError.

(** The correlation coefficient of two samples. *)
Definition corrcoef_ref (x y : vector) : R :=
  let mx := vsum x / INR (length x) in
  let my := vsum y / INR (length y) in
  let dx := map (fun a => a - mx) x in
  let dy := map (fun a => a - my) y in
  vsum (zip_with Rmult dx dy)
  / sqrt (vsum (zip_with Rmult dx dx) * vsum (zip_with Rmult dy dy)).

Definition numpy_ref : NumPyLinalg := {|
  cholesky := cholesky_ref;
  lstsq := lstsq_ref;
  inv := inv_ref;
  corrcoef := corrcoef_ref
|}.

(* ================================================================== *)
(** * Small collaborators

    A Hamming kernel in the style of the test suite, the zero mean
    function, and stand-ins for scipy and scikit-learn: enough to run the
    model on concrete inputs. *)

Fixpoint matches (a b : list Ascii.ascii) : nat :=
  match a, b with
  | x :: a', y :: b' =>
      ((if Ascii.eqb x y then 1 else 0) + matches a' b')%nat
  | _, _ => 0%nat
  end.
Definition hamming (a b : sequence) : R :=
  INR (matches (list_ascii_of_string a) (list_ascii_of_string b)).

Record HammingKernel : Type := {
  saved_seqs : list (ident * sequence);
  base_X : DataFrame
}.

Definition saved (k : HammingKernel) (i : ident) : result sequence :=
  match loc1 (saved_seqs k) i with
  | [] => Raise KeyError
  | (_, s) :: _ => Ok s
  end.

Definition hamming_kernel : GPKernel HammingKernel := {|
  kern_hypers := fun _ => ["var_p"%string];
  set_X := fun k X => {| saved_seqs := saved_seqs k; base_X := X |};
  make_K := fun k h =>
    Ok (map (fun a => map (fun b => hamming (snd a) (snd b) * hd 1 h)
                          (base_X k)) (base_X k));
  calc_kernel := fun k a b h =>
    sa <- saved k a ;; sb <- saved k b ;; Ok (hamming sa sb * hd 1 h);
  train := fun k seqs =>
    {| saved_seqs := seqs ++ saved_seqs k; base_X := base_X k |};
  delete := fun k seqs =>
    {| saved_seqs :=
         filter (fun r => negb (bool_decide (fst r ∈ index seqs)))
                (saved_seqs k);
       base_X := base_X k |}
|}.

(** The zero mean function; its state is the values at the training set. *)
Definition zero_mean : GPMean vector := {|
  mean_fit := fun _ X Ys => repeat 0 (length Ys);
  mean_means := fun m => m;
  mean_mean := fun _ X => repeat 0 (length X)
|}.
Definition zero_mean_default : GPMeanDefault vector := [].

Definition scipy_stub : SciPy := {|
  sqrtm := mmap sqrt;
  quad := fun f a b => (b - a) * f ((a + b) / 2);
  minimize := fun _ x0 _ => Ok x0;
  rankdata := fun v => v;
  kendalltau := fun _ _ => 0
|}.

(** [roc_auc_score] takes one score per sample. *)
Definition sklearn_stub : SkLearn := {|
  roc_auc_score := fun y s =>
    if forallb (fun r => Nat.eqb (length r) 1) s then Ok 0
    else Raise ValueError;
  r2_score := fun _ _ => 0
|}.

(** A regression model with one training sequence, before its
    hyperparameters are set. *)
Definition one_kernel : HammingKernel :=
  {| saved_seqs := [("a", "R")]; base_X := [("a", "R")] |}%string.
Definition one_point_model : obj HammingKernel vector :=
  <["kern" := VKern one_kernel]> (<["regr" := VBool true]>
  (<["variances" := VNone]>
  (<["normed_Y" := VSeries [("a"%string, 1)]]> ∅))).

(** The closed form of the leave-one-out prediction for sample [i]. *)
Definition loo_mean (K_inv : matrix) (Ys : vector) (n i : nat) : R :=
  nth i Ys 0 - Rsum n (fun j => get K_inv i j * nth j Ys 0) / get K_inv i i.
Definition loo_var (K_inv : matrix) (i : nat) : R := 1 / get K_inv i i.

(* ================================================================== *)
(** * Arrays: shapes and entries *)

Lemma length_mk n m f : length (mk n m f) = n.
Proof. unfold mk. by rewrite length_map, length_seq. Qed.

Lemma nrows_mk n m f : nrows (mk n m f) = n.
Proof. apply length_mk. Qed.

Lemma nth_map_seq {A} (g : nat -> A) a n i d :
  (i < n)%nat -> nth i (map g (seq a n)) d = g (a + i)%nat.
Proof.
  revert a i. induction n as [|n IH]; intros a i Hi; [lia|].
  destruct i as [|i]; simpl.
  - f_equal. lia.
  - rewrite IH by lia. f_equal. lia.
Qed.

Lemma nth_mk n m f i :
  (i < n)%nat -> nth i (mk n m f) [] = map (f i) (seq 0 m).
Proof. intros Hi. unfold mk. by rewrite nth_map_seq. Qed.

Lemma get_mk n m f i j :
  (i < n)%nat -> (j < m)%nat -> get (mk n m f) i j = f i j.
Proof.
  intros Hi Hj. unfold get. rewrite nth_mk by done. by rewrite nth_map_seq.
Qed.

Lemma ncols_mk n m f : (0 < n)%nat -> ncols (mk n m f) = m.
Proof.
  intros Hn. unfold ncols, mk. destruct n as [|n]; [lia|].
  simpl. by rewrite length_map, length_seq.
Qed.

Lemma wf_mk n m f : wf n m (mk n m f).
Proof.
  split; [apply length_mk|]. unfold mk. apply Forall_forall.
  intros r Hr. apply list_elem_of_In, in_map_iff in Hr as (i & <- & _).
  by rewrite length_map, length_seq.
Qed.

Lemma wf_nrows n m A : wf n m A -> nrows A = n.
Proof. by intros [? _]. Qed.

Lemma wf_ncols n m A : wf n m A -> (0 < n)%nat -> ncols A = m.
Proof.
  intros [Hl Hr] Hn. unfold ncols. destruct A as [|r A]; simpl in *; [lia|].
  by inversion Hr.
Qed.

Lemma wf_row n m A i : wf n m A -> (i < n)%nat -> length (nth i A []) = m.
Proof.
  intros [Hl Hr] Hi. rewrite Forall_forall in Hr. apply Hr.
  apply list_elem_of_In, nth_In. lia.
Qed.

(** Two arrays of one shape with the same entries are equal. *)
Lemma matrix_ext n m A B :
  wf n m A -> wf n m B ->
  (forall i j, (i < n)%nat -> (j < m)%nat -> get A i j = get B i j) ->
  A = B.
Proof.
  intros HA HB Hget.
  apply (nth_ext _ _ [] []); [destruct HA, HB; congruence|].
  intros i Hi. destruct HA as [HlA HrA]. rewrite HlA in Hi.
  apply (nth_ext _ _ 0 0).
  - rewrite (wf_row n m A), (wf_row n m B); done.
  - intros j Hj. rewrite (wf_row n m A) in Hj by done. by apply Hget.
Qed.

Lemma mk_get n m A : wf n m A -> mk n m (get A) = A.
Proof.
  intros HA. apply (matrix_ext n m); [apply wf_mk|done|].
  intros i j Hi Hj. by apply get_mk.
Qed.

Lemma wf_transpose n m A : wf n m A -> (0 < n)%nat -> wf m n (transpose A).
Proof.
  intros HA Hn. unfold transpose.
  rewrite (wf_ncols n m A), (wf_nrows n m A) by done. apply wf_mk.
Qed.

Lemma get_transpose n m A i j :
  wf n m A -> (i < n)%nat -> (j < m)%nat -> get (transpose A) j i = get A i j.
Proof.
  intros HA Hi Hj. unfold transpose.
  rewrite (wf_ncols n m A), (wf_nrows n m A) by (done || lia).
  by rewrite get_mk.
Qed.

Lemma wf_mmul n m p A B :
  wf n m A -> wf m p B -> (0 < m)%nat -> wf n p (mmul A B).
Proof.
  intros HA HB Hm. unfold mmul.
  rewrite (wf_nrows n m A), (wf_ncols m p B) by done. apply wf_mk.
Qed.

Lemma get_mmul n m p A B i j :
  wf n m A -> wf m p B -> (0 < n)%nat -> (0 < m)%nat ->
  (i < n)%nat -> (j < p)%nat ->
  get (mmul A B) i j = Rsum m (fun k => get A i k * get B k j).
Proof.
  intros HA HB Hn Hm Hi Hj. unfold mmul.
  rewrite (wf_nrows n m A), (wf_ncols m p B), (wf_ncols n m A) by done.
  by rewrite get_mk.
Qed.

Lemma dot_ok n m p A B :
  wf n m A -> wf m p B -> (0 < n)%nat -> dot A B = Ok (mmul A B).
Proof.
  intros HA HB Hn. unfold dot.
  rewrite (wf_ncols n m A), (wf_nrows m p B) by done.
  by rewrite Nat.eqb_refl.
Qed.

Lemma mk_1_1 f : mk 1 1 f = [[f 0%nat 0%nat]].
Proof. reflexivity. Qed.

Lemma Rsum_ext n f g :
  (forall i, (i < n)%nat -> f i = g i) -> Rsum n f = Rsum n g.
Proof.
  induction n as [|n IH]; intros Hfg; simpl; [done|].
  rewrite IH, Hfg by (intros; try apply Hfg; lia). done.
Qed.

(* ================================================================== *)
(** * Sums and products *)

Lemma Rsum_plus n f g :
  Rsum n (fun i => f i + g i) = Rsum n f + Rsum n g.
Proof. induction n as [|n IH]; simpl; [lra|]. rewrite IH. lra. Qed.

Lemma Rsum_scal_l n c f : c * Rsum n f = Rsum n (fun i => c * f i).
Proof. induction n as [|n IH]; simpl; [lra|]. rewrite <- IH. lra. Qed.

Lemma Rsum_scal_r n c f : Rsum n f * c = Rsum n (fun i => f i * c).
Proof. induction n as [|n IH]; simpl; [lra|]. rewrite <- IH. lra. Qed.

Lemma Rsum_zero n : Rsum n (fun _ => 0) = 0.
Proof. induction n as [|n IH]; simpl; [done|]. rewrite IH. lra. Qed.

Lemma Rsum_swap n m (f : nat -> nat -> R) :
  Rsum n (fun i => Rsum m (fun j => f i j))
  = Rsum m (fun j => Rsum n (fun i => f i j)).
Proof.
  induction n as [|n IH]; simpl; [by rewrite Rsum_zero|].
  by rewrite IH, Rsum_plus.
Qed.

Lemma mmul_assoc n m p q A B C :
  wf n m A -> wf m p B -> wf p q C ->
  (0 < n)%nat -> (0 < m)%nat -> (0 < p)%nat ->
  mmul (mmul A B) C = mmul A (mmul B C).
Proof.
  intros HA HB HC Hn Hm Hp.
  pose proof (wf_mmul n m p A B HA HB Hm) as HAB.
  pose proof (wf_mmul m p q B C HB HC Hp) as HBC.
  apply (matrix_ext n q); [by apply (wf_mmul n p q)|by apply (wf_mmul n m q)|].
  intros i j Hi Hj.
  rewrite (get_mmul n p q), (get_mmul n m q) by done.
  rewrite (Rsum_ext p _
    (fun l => Rsum m (fun k => get A i k * get B k l * get C l j))).
  2:{ intros l Hl. rewrite (get_mmul n m p) by done. apply Rsum_scal_r. }
  rewrite Rsum_swap. apply Rsum_ext. intros k Hk.
  rewrite (get_mmul m p q) by done. rewrite Rsum_scal_l.
  apply Rsum_ext. intros l Hl. lra.
Qed.

(* ================================================================== *)
(** * Triangular systems *)

Lemma Rsum_tail_zero n m f :
  (m <= n)%nat -> (forall j, (m <= j < n)%nat -> f j = 0) ->
  Rsum n f = Rsum m f.
Proof.
  intros Hmn Hz. induction n as [|n IH]; [by replace m with 0%nat by lia|].
  destruct (decide (m = S n)) as [->|Hne]; [done|].
  simpl. rewrite IH, Hz by (intros; try apply Hz; lia). lra.
Qed.

Lemma Rsum_shift n g :
  Rsum n (fun j => g (S j)) + g 0%nat = Rsum n g + g n.
Proof. induction n as [|n IH]; simpl; [lra|]. rewrite <- IH. lra. Qed.

Lemma Rsum_rev n f : Rsum n f = Rsum n (fun j => f (n - 1 - j)%nat).
Proof.
  revert f. induction n as [|n IH]; intros f; [done|].
  simpl. rewrite <- Rsum_shift, (IH (fun j => f (S j))).
  f_equal; [apply Rsum_ext; intros j Hj|]; f_equal; lia.
Qed.

Lemma length_forward_subst L b m : length (forward_subst L b m) = m.
Proof.
  induction m as [|m IH]; [done|]. simpl.
  rewrite length_app, IH. simpl. lia.
Qed.

Lemma forward_subst_prefix L b m j :
  (j < m)%nat ->
  nth j (forward_subst L b m) 0 = nth j (forward_subst L b (S j)) 0.
Proof.
  intros Hj. induction m as [|m IH]; [lia|].
  destruct (decide (j = m)) as [->|Hne]; [done|].
  rewrite <- IH by lia. simpl.
  rewrite app_nth1 by (rewrite length_forward_subst; lia). done.
Qed.

Lemma forward_subst_row L b n i :
  (i < n)%nat -> get L i i <> 0 ->
  (forall j, (i < j < n)%nat -> get L i j = 0) ->
  Rsum n (fun j => get L i j * nth j (forward_subst L b n) 0) = nth i b 0.
Proof.
  intros Hi Hd Hz.
  rewrite (Rsum_tail_zero n (S i)) by (intros; try rewrite Hz; (lia || lra)).
  simpl. rewrite (forward_subst_prefix L b n i) by done. simpl.
  rewrite app_nth2, length_forward_subst, Nat.sub_diag
    by (rewrite length_forward_subst; lia).
  simpl.
  rewrite (Rsum_ext i _ (fun j => get L i j * nth j (forward_subst L b i) 0)).
  - field. done.
  - intros j Hj. f_equal. rewrite (forward_subst_prefix L b n j) by lia.
    by rewrite (forward_subst_prefix L b i j) by lia.
Qed.

Lemma get_col x i : get (col x) i 0 = nth i x 0.
Proof.
  unfold get, col. revert i.
  induction x as [|a x IH]; intros [|i]; simpl; first [done | apply IH].
Qed.

Lemma wf_col x : wf (length x) 1 (col x).
Proof.
  split; [unfold col; by rewrite length_map|].
  unfold col. apply Forall_forall. intros r Hr.
  apply list_elem_of_In, in_map_iff in Hr as (a & <- & _). done.
Qed.

Lemma col_hd n b : wf n 1 b -> col (map (hd 0) b) = b.
Proof.
  intros [_ Hr]. unfold col. rewrite map_map.
  induction b as [|r b IH]; [done|]. simpl. inversion Hr as [|?? Hlen Hr'].
  rewrite IH by done. f_equal. destruct r as [|a [|]]; done.
Qed.

(** Forward substitution solves a lower triangular system. *)
Lemma forward_subst_solves n L b :
  wf n n L -> wf n 1 b -> (0 < n)%nat ->
  (forall i j, (i < j < n)%nat -> get L i j = 0) -> nonzero_diag n L ->
  mmul L (col (forward_subst L (map (hd 0) b) n)) = b.
Proof.
  intros HL Hb Hn Hlow Hd.
  set (x := forward_subst L (map (hd 0) b) n).
  assert (Hx : wf n 1 (col x)).
  { rewrite <- (length_forward_subst L (map (hd 0) b) n) at 1. apply wf_col. }
  apply (matrix_ext n 1); [by apply (wf_mmul n n 1)|done|].
  intros i j Hi Hj. replace j with 0%nat by lia.
  rewrite (get_mmul n n 1) by (done || lia).
  rewrite (Rsum_ext n _ (fun k => get L i k * nth k x 0))
    by (intros; by rewrite get_col).
  unfold x. rewrite forward_subst_row by (auto || (intros; apply Hlow; lia)).
  rewrite <- get_col. by rewrite (col_hd n).
Qed.

Lemma get_flip n A i j :
  (i < n)%nat -> (j < n)%nat ->
  get (flip n A) i j = get A (n - 1 - i) (n - 1 - j).
Proof. intros. unfold flip. by rewrite get_mk. Qed.

Lemma nth_back_subst U b n j :
  (j < n)%nat ->
  nth j (back_subst U b n) 0
  = nth (n - 1 - j) (forward_subst (flip n U) (rev b) n) 0.
Proof.
  intros Hj. unfold back_subst.
  rewrite rev_nth by (rewrite length_forward_subst; lia).
  rewrite length_forward_subst. f_equal. lia.
Qed.

(** Back substitution solves an upper triangular system. *)
Lemma back_subst_solves n U b :
  wf n n U -> wf n 1 b -> (0 < n)%nat ->
  (forall i j, (j < i < n)%nat -> get U i j = 0) -> nonzero_diag n U ->
  mmul U (col (back_subst U (map (hd 0) b) n)) = b.
Proof.
  intros HU Hb Hn Hup Hd.
  set (b' := map (hd 0) b).
  assert (Hlb : length b' = n) by (unfold b'; rewrite length_map; apply Hb).
  assert (Hx : wf n 1 (col (back_subst U b' n))).
  { replace n with (length (back_subst U b' n)) at 1; [apply wf_col|].
    unfold back_subst. by rewrite length_rev, length_forward_subst. }
  apply (matrix_ext n 1); [by apply (wf_mmul n n 1)|done|].
  intros i j Hi Hj. replace j with 0%nat by lia.
  rewrite (get_mmul n n 1) by (done || lia).
  rewrite Rsum_rev.
  rewrite (Rsum_ext n _
    (fun k => get (flip n U) (n - 1 - i) k
              * nth k (forward_subst (flip n U) (rev b') n) 0)).
  - rewrite forward_subst_row.
    + rewrite rev_nth by lia. rewrite Hlb.
      replace (n - S (n - 1 - i))%nat with i by lia.
      rewrite <- get_col. unfold b'. by rewrite (col_hd n b).
    + lia.
    + rewrite get_flip by lia.
      replace (n - 1 - (n - 1 - i))%nat with i by lia. by apply Hd.
    + intros k Hk. rewrite get_flip by lia. apply Hup. lia.
  - intros k Hk. rewrite get_col, nth_back_subst, get_flip by lia.
    repeat f_equal; lia.
Qed.

Lemma forall_lt_spec n p :
  forall_lt n p = true <-> forall i, (i < n)%nat -> p i = true.
Proof.
  unfold forall_lt. rewrite forallb_forall. split.
  - intros Hp i Hi. apply Hp, in_seq. lia.
  - intros Hp i Hi. apply in_seq in Hi. apply Hp. lia.
Qed.

Lemma Req_b_spec x y : Req_b x y = true <-> x = y.
Proof. unfold Req_b. destruct (Req_dec_T x y); split; (done || congruence). Qed.

Lemma Rlt_b_spec x y : Rlt_b x y = true <-> x < y.
Proof. unfold Rlt_b. destruct (Rlt_dec x y); split; (done || congruence). Qed.

Lemma is_lower_spec n A :
  is_lower n A = true <-> forall i j, (i < j < n)%nat -> get A i j = 0.
Proof.
  unfold is_lower. rewrite forall_lt_spec. split.
  - intros Hl i j Hij. specialize (Hl i ltac:(lia)).
    rewrite forall_lt_spec in Hl. specialize (Hl j ltac:(lia)).
    destruct (Nat.ltb_spec i j); [by apply Req_b_spec|lia].
  - intros Hl i Hi. apply forall_lt_spec. intros j Hj.
    destruct (Nat.ltb_spec i j); [|done]. apply Req_b_spec, Hl. lia.
Qed.

Lemma has_shape_spec n m A : has_shape n m A = true <-> wf n m A.
Proof.
  unfold has_shape, wf.
  rewrite andb_true_iff, Nat.eqb_eq, forallb_forall, Forall_forall.
  split; intros [Hl Hr]; (split; [done|]); intros r Hr'.
  - apply Nat.eqb_eq, Hr. by apply list_elem_of_In.
  - apply Nat.eqb_eq, Hr. by apply list_elem_of_In.
Qed.

Lemma same_entries_spec n m A B :
  wf n m A -> wf n m B -> same_entries n m A B = true -> A = B.
Proof.
  intros HA HB Hs. apply (matrix_ext n m); [done..|].
  intros i j Hi Hj. unfold same_entries in Hs.
  rewrite forall_lt_spec in Hs. specialize (Hs i Hi).
  rewrite forall_lt_spec in Hs. by apply Req_b_spec, Hs.
Qed.

(** The reference [lstsq] meets its contract. *)
Lemma lstsq_ref_solves : @lstsq_solves numpy_ref.
Proof.
  intros n A b HA Hb Htri Hd. simpl. unfold lstsq_ref.
  rewrite (wf_nrows n n A), (wf_nrows n 1 b), Nat.eqb_refl by done. simpl.
  destruct (decide (n = 0%nat)) as [->|Hn].
  { destruct HA as [HA _], Hb as [Hb _].
    apply nil_length_inv in HA, Hb. subst. by exists []. }
  destruct (is_lower n A) eqn:Hlow.
  - eexists. split; [reflexivity|]. split.
    + rewrite <- (length_forward_subst A (map (hd 0) b) n) at 1. apply wf_col.
    + apply forward_subst_solves; [done|done|lia| |done].
      by apply is_lower_spec.
  - destruct Htri as [Hl|Hu].
    { assert (is_lower n A = true); [|congruence].
      apply is_lower_spec. intros i j Hij. apply Hl. lia. }
    eexists. split; [reflexivity|]. split.
    + replace n with (length (back_subst A (map (hd 0) b) n)) at 1;
        [apply wf_col|].
      unfold back_subst. by rewrite length_rev, length_forward_subst.
    + apply back_subst_solves; [done|done|lia| |done].
      intros i j Hij. apply Hu. lia.
Qed.

Lemma get_outside n m A i j :
  wf n m A -> (n <= i)%nat \/ (m <= j)%nat -> get A i j = 0.
Proof.
  intros HA Hij. unfold get.
  destruct (Nat.lt_ge_cases i n) as [Hi|Hi].
  - apply nth_overflow. rewrite (wf_row n m A) by done. lia.
  - rewrite (nth_overflow A) by (destruct HA; lia). by destruct j.
Qed.

(** The reference [cholesky] meets its contract. *)
Lemma cholesky_ref_factors : @cholesky_factors numpy_ref.
Proof.
  intros A L. simpl. unfold cholesky_ref.
  set (n := nrows A). set (C := chol_rows A n n).
  destruct (has_shape n n A) eqn:HA; [|done].
  destruct (has_shape n n C) eqn:HC; [|done].
  destruct (is_lower n C) eqn:Hlow; [|done].
  destruct (forall_lt n (fun i => Rlt_b 0 (get C i i))) eqn:Hpos; [|done].
  destruct (same_entries n n (mmul C (transpose C)) A) eqn:Heq; [|done].
  simpl. intros [= <-].
  apply has_shape_spec in HA, HC.
  split; [done|]. split; [|split].
  - intros i j Hij. destruct (Nat.lt_ge_cases j n) as [Hj|Hj].
    + rewrite is_lower_spec in Hlow. apply Hlow. lia.
    + apply (get_outside n n); [done|lia].
  - intros i Hi. rewrite forall_lt_spec in Hpos. by apply Rlt_b_spec, Hpos.
  - destruct (decide (n = 0%nat)) as [Hn|Hn].
    + destruct HA as [HA _], HC as [HC _]. rewrite Hn in HA, HC.
      apply nil_length_inv in HA, HC. by rewrite HA, HC.
    + apply (same_entries_spec n n); [|done|done].
      apply (wf_mmul n n n); [done| |lia]. apply wf_transpose; [done|lia].
Qed.

(** The reference [inv] meets its contract. *)
Lemma inv_ref_inverts : @inv_inverts numpy_ref.
Proof.
  intros A B. simpl. unfold inv_ref.
  destruct (cholesky_ref A) as [L|] eqn:HL; [|done]. simpl.
  set (n := nrows A).
  match goal with |- context [has_shape n n ?X] => set (C := X) end.
  destruct (has_shape n n C) eqn:HC; [|done].
  destruct (same_entries n n (mmul A C) (eye n)) eqn:H1; [|done].
  destruct (same_entries n n (mmul C A) (eye n)) eqn:H2; [|done].
  simpl. intros [= <-]. apply has_shape_spec in HC.
  assert (HA : wf n n A).
  { unfold cholesky_ref in HL. fold n in HL.
    destruct (has_shape n n A) eqn:HA; [|done]. by apply has_shape_spec. }
  split; [done|].
  destruct (decide (n = 0%nat)) as [Hn|Hn].
  - destruct HA as [HA _], HC as [HC _]. rewrite Hn in HA, HC.
    apply nil_length_inv in HA, HC. rewrite HA, HC, Hn. done.
  - split; apply (same_entries_spec n n); try done;
      try apply wf_mk; apply (wf_mmul n n n); (done || lia).
Qed.

(* ================================================================== *)
(** * Prediction *)

Section Prediction.

Context {K Mf : Type} {HK : GPKernel K} {HM : GPMean Mf}
        {HD : GPMeanDefault Mf} {NP : NumPyLinalg} {SP : SciPy}
        {SK : SkLearn}.

Local Abbreviation obj := (gmap string (value K Mf)).

(** The two scalars of Equations 2.23 and 2.24. *)
Definition post_mean (n : nat) (k alpha : matrix) : R :=
  Rsum n (fun j => get k 0 j * get alpha j 0).
Definition post_var (n : nat) (k_star : R) (v : matrix) : R :=
  k_star - Rsum n (fun i => get v i 0 * get v i 0).

Lemma item_mmul_row_col n k a :
  wf 1 n k -> wf n 1 a -> (0 < n)%nat ->
  item (mmul k a) = Ok (post_mean n k a).
Proof.
  intros Hk Ha Hn. unfold mmul.
  rewrite (wf_nrows 1 n k), (wf_ncols n 1 a), (wf_ncols 1 n k) by (done || lia).
  reflexivity.
Qed.

Lemma item_vtv n v :
  wf n 1 v -> (0 < n)%nat ->
  item (mmul (transpose v) v) = Ok (Rsum n (fun i => get v i 0 * get v i 0)).
Proof.
  intros Hv Hn. pose proof (wf_transpose _ _ _ Hv Hn) as Hvt.
  rewrite (item_mmul_row_col n) by done. f_equal.
  apply Rsum_ext. intros i Hi. unfold post_mean.
  by rewrite (get_transpose n 1) by (done || lia).
Qed.

(** The regression branch of [_predict], for explicit or stored [alpha]
    and [L]. *)
Lemma _predict_regr (self : obj) n k k_star oalpha oL alpha L v unnorm :
  self !! "regr" = Some (VBool true) ->
  match oalpha with
  | Some a => a = alpha
  | None => self !! "_alpha" = Some (VArr alpha)
  end ->
  match oL with
  | Some l => l = L
  | None => self !! "_L" = Some (VArr L)
  end ->
  wf 1 n k -> wf n 1 alpha -> (0 < n)%nat ->
  lstsq L (transpose k) = Ok v -> wf n 1 v ->
  _predict self k k_star oalpha oL unnorm =
    if unnorm then
      s <- get_float self "std" ;;
      m <- get_float self "mean" ;;
      Ok [post_mean n k alpha * s + m; post_var n k_star v * s ^ 2]
    else Ok [post_mean n k alpha; post_var n k_star v].
Proof.
  intros Hregr Ha HL Hk Hal Hn Hv Hwv.
  unfold _predict, get_bool, get_arr, getattr. rewrite Hregr. simpl.
  assert (Hal' : (match oalpha with
                  | Some a => Ok a
                  | None => v0 <- attr (self !! "_alpha") ;; as_arr v0
                  end) = Ok alpha).
  { destruct oalpha; [by subst|]. by rewrite Ha. }
  assert (HL' : (match oL with
                 | Some l => Ok l
                 | None => v0 <- attr (self !! "_L") ;; as_arr v0
                 end) = Ok L).
  { destruct oL; [by subst|]. by rewrite HL. }
  rewrite Hal', HL'. simpl.
  rewrite (dot_ok 1 n 1) by (done || lia). simpl.
  rewrite Hv. simpl.
  rewrite (dot_ok 1 n 1) by (done || lia || by apply wf_transpose). simpl.
  pose proof (item_mmul_row_col n k alpha Hk Hal Hn) as HE.
  pose proof (item_vtv n v Hwv Hn) as HV.
  destruct (mmul k alpha) as [|[|e []] []]; try discriminate.
  destruct (mmul (transpose v) v) as [|[|w []] []]; try discriminate.
  simpl in HE, HV. injection HE as ->. injection HV as ->.
  destruct unnorm; [|reflexivity].
  unfold unnormalize, get_float, getattr.
  destruct (self !! "std") as [s|]; [|reflexivity]. simpl.
  destruct (as_float s) as [sr|]; [|reflexivity]. simpl.
  destruct (self !! "mean") as [m|]; [|reflexivity]. simpl.
  destruct (as_float m) as [mr|]; reflexivity.
Qed.

End Prediction.

Section PredictionClaims.

Context {K Mf : Type} {HK : GPKernel K} {HM : GPMean Mf}
        {HD : GPMeanDefault Mf} {NP : NumPyLinalg} {SP : SciPy}
        {SK : SkLearn}.

Local Abbreviation obj := (gmap string (value K Mf)).

(** C1.  For a fitted regression model with [n] training points (Cholesky
    factor [L], weights [alpha]) and a query with covariance vector [k]
    and prior variance [k_star], [_predict] returns the mean [k . alpha]
    and the variance [k_star - v^T v] where [v] solves [L v = k^T]; when
    un-normalization is requested the mean is mapped through
    [mean * std + offset] and the variance is multiplied by [std^2]. *)
Theorem C1_predict_regression (self : obj) n k k_star alpha L s m :
  lstsq_solves ->
  self !! "regr" = Some (VBool true) ->
  self !! "_alpha" = Some (VArr alpha) ->
  self !! "_L" = Some (VArr L) ->
  self !! "std" = Some (VFloat s) ->
  self !! "mean" = Some (VFloat m) ->
  (0 < n)%nat -> wf n n L -> lower_triangular L -> nonzero_diag n L ->
  wf n 1 alpha -> wf 1 n k ->
  exists v,
    mmul L v = transpose k /\
    _predict self k k_star None None false
      = Ok [post_mean n k alpha; post_var n k_star v] /\
    _predict self k k_star None None true
      = Ok [post_mean n k alpha * s + m; post_var n k_star v * s ^ 2].
Proof.
  intros Hls Hregr Ha HL Hs Hm Hn HwL Hlow Hd Hwa Hk.
  destruct (Hls n L (transpose k)) as (v & Hv & Hwv & Hsol);
    [done|by apply (wf_transpose 1 n); [|lia]|by left|done|].
  exists v. split; [done|].
  split.
  - by rewrite (_predict_regr self n k k_star None None alpha L v false).
  - rewrite (_predict_regr self n k k_star None None alpha L v true) by done.
    unfold get_float, getattr. by rewrite Hs, Hm.
Qed.

End PredictionClaims.

Lemma lower_triangular_1 a : lower_triangular [[a]].
Proof.
  intros i j Hij. unfold get.
  destruct i as [|[|i]], j as [|[|j]]; simpl; (lia || done).
Qed.

Lemma C1_predict_regression_witness :
  let self : obj HammingKernel vector :=
    <["regr" := VBool true]> (<["_alpha" := VArr [[2]]]>
    (<["_L" := VArr [[1]]]> (<["std" := VFloat 3]>
    (<["mean" := VFloat 5]> ∅)))) in
  exists v,
    mmul [[1]] v = transpose [[4]] /\
    _predict (NP := numpy_ref) (SP := scipy_stub) self [[4]] 7 None None false
      = Ok [post_mean 1 [[4]] [[2]]; post_var 1 7 v] /\
    _predict (NP := numpy_ref) (SP := scipy_stub) self [[4]] 7 None None true
      = Ok [post_mean 1 [[4]] [[2]] * 3 + 5; post_var 1 7 v * 3 ^ 2].
Proof.
  intros self.
  apply (C1_predict_regression (NP := numpy_ref) (SP := scipy_stub) self 1).
  - apply lstsq_ref_solves.
  - reflexivity.
  - reflexivity.
  - reflexivity.
  - reflexivity.
  - reflexivity.
  - lia.
  - by repeat constructor.
  - apply lower_triangular_1.
  - intros i Hi. replace i with 0%nat by lia. unfold get. simpl. lra.
  - by repeat constructor.
  - by repeat constructor.
Defined.

(* ================================================================== *)
(** * Posterior weights *)

Lemma transpose_row l : transpose (np_matrix l) = col l.
Proof.
  change (transpose (np_matrix l))
    with (mk (length l) 1 (fun j i => get [l] i j)).
  apply (matrix_ext (length l) 1); [apply wf_mk|apply wf_col|].
  intros i j Hi Hj. replace j with 0%nat by lia.
  rewrite get_mk by lia. by rewrite get_col.
Qed.

Lemma upper_triangular_transpose n L :
  wf n n L -> (0 < n)%nat -> lower_triangular L ->
  upper_triangular (transpose L).
Proof.
  intros HL Hn Hlow i j Hij.
  destruct (Nat.lt_ge_cases i n) as [Hi|Hi].
  - rewrite (get_transpose n n) by (done || lia). by apply Hlow.
  - apply (get_outside n n); [by apply wf_transpose|lia].
Qed.

Section Weights.

Context {NP : NumPyLinalg}.

(** Two triangular solves against the Cholesky factor of [Ky] give the
    solution of [Ky alpha = Y]. *)
Lemma solve_alpha_spec Ky L Ys :
  cholesky_factors -> lstsq_solves ->
  cholesky Ky = Ok L -> nrows Ky = length Ys -> (0 < length Ys)%nat ->
  exists y alpha,
    lstsq L (col Ys) = Ok y /\ lstsq (transpose L) y = Ok alpha /\
    solve_alpha L Ys = Ok alpha /\
    wf (length Ys) 1 alpha /\ mmul Ky alpha = col Ys.
Proof.
  intros Hch Hls HL Hrows Hn.
  destruct (Hch Ky L HL) as (HwL & Hlow & Hpos & HLL).
  rewrite Hrows in HwL, Hpos. set (n := length Ys) in *.
  assert (Hd : nonzero_diag n L).
  { intros i Hi Hz. specialize (Hpos i Hi). rewrite Hz in Hpos. lra. }
  pose proof (wf_col Ys) as Hb. fold n in Hb.
  destruct (Hls n L (col Ys)) as (y & Hy & Hwy & HLy); [done|done|by left|done|].
  pose proof (wf_transpose n n L HwL Hn) as HwLt.
  destruct (Hls n (transpose L) y) as (alpha & Ha & Hwa & HLa);
    [done|done|right; by apply (upper_triangular_transpose n)| |].
  { intros i Hi. rewrite (get_transpose n n) by done. by apply Hd. }
  exists y, alpha. split; [done|]. split; [done|]. split.
  - unfold solve_alpha. rewrite transpose_row, Hy. simpl. done.
  - split; [done|].
    rewrite <- HLL, (mmul_assoc n n n 1) by done. by rewrite HLa.
Qed.

End Weights.

(* ================================================================== *)
(** * Runs of the state monad *)

Section Runs.

Context {K Mf : Type}.
Local Abbreviation obj := (gmap string (value K Mf)).
Local Abbreviation St := (M (K:=K) (Mf:=Mf)).

Lemma mbind_ok {A B} (c : St A) (k : A -> St B) s r s' :
  mbind_ c k s = (Ok r, s') ->
  exists a s1, c s = (Ok a, s1) /\ k a s1 = (Ok r, s').
Proof.
  unfold mbind_. destruct (c s) as [[a|e] s1]; [|done]. by exists a, s1.
Qed.

Lemma reading_ok {A} (f : obj -> result A) s a s1 :
  reading f s = (Ok a, s1) -> f s = Ok a /\ s1 = s.
Proof. unfold reading. by intros [= -> ->]. Qed.

Lemma lift_ok {A} (c : result A) (s : obj) a s1 :
  lift c s = (Ok a, s1) -> c = Ok a /\ s1 = s.
Proof. unfold lift. by intros [= -> ->]. Qed.

Lemma setattr_ok name (v : value K Mf) s u s1 :
  setattr name v s = (Ok u, s1) -> s1 = <[name := v]> s.
Proof. unfold setattr. by intros [= _ <-]. Qed.

Lemma ret_ok {A} (a b : A) (s s1 : obj) :
  ret a s = (Ok b, s1) -> b = a /\ s1 = s.
Proof. unfold ret. by intros [= -> ->]. Qed.

Lemma bind_ok {A B} (c : result A) (k : A -> result B) r :
  bind c k = Ok r -> exists a, c = Ok a /\ k a = Ok r.
Proof. destruct c as [a|e]; [|done]. by exists a. Qed.

End Runs.

(** One step of a successful run: [c] ran to [a] leaving [s], then the
    rest. *)
Ltac run_bind H a s Ha :=
  apply mbind_ok in H as (a & s & Ha & H).
Ltac run_read H a Ha :=
  let s := fresh "s" in let Hs := fresh "Hs" in
  apply mbind_ok in H as (a & s & Ha & H);
  apply reading_ok in Ha as [Ha Hs]; subst s.
Ltac run_lift H a Ha :=
  let s := fresh "s" in let Hs := fresh "Hs" in
  apply mbind_ok in H as (a & s & Ha & H);
  apply lift_ok in Ha as [Ha Hs]; subst s.
Ltac run_set H :=
  let s := fresh "s" in let u := fresh "u" in let Hs := fresh "Hs" in
  apply mbind_ok in H as (u & s & Hs & H);
  apply setattr_ok in Hs; subst s.

(** Looking an attribute up after a series of assignments. *)
Ltac lookup_attr :=
  repeat (rewrite lookup_insert_ne by done);
  first [rewrite lookup_insert_eq | idtac]; try done.

Section Fitting.

Context {K Mf : Type} {HK : GPKernel K} {HM : GPMean Mf}
        {HD : GPMeanDefault Mf} {NP : NumPyLinalg} {SP : SciPy}
        {SK : SkLearn}.

Local Abbreviation obj := (gmap string (value K Mf)).

Lemma _make_Ks_frame (self : obj) name v h :
  name <> "kern"%string -> name <> "variances"%string ->
  _make_Ks (<[name := v]> self) h = _make_Ks self h.
Proof.
  intros H1 H2. unfold _make_Ks, get_kern, getattr.
  by rewrite !lookup_insert_ne.
Qed.

(** C2.  When [_set_hypers] accepts the hyperparameters of a regression
    model (so the Cholesky factorization of the noisy covariance [Ky]
    succeeded), the stored [_alpha] is the result of two triangular solves,
    against the stored factor [_L] and against its transpose, and
    [Ky . alpha] is the column of the normalized outputs. *)
Theorem C2_alpha_solves_Ky (self self' : obj) hypers nY :
  cholesky_factors -> lstsq_solves ->
  self !! "regr" = Some (VBool true) ->
  self !! "normed_Y" = Some (VSeries nY) ->
  (0 < length nY)%nat ->
  (forall Kc Ky, _make_Ks self hypers = Ok (Kc, Ky) ->
                 nrows Ky = length nY) ->
  _set_hypers hypers self = (Ok tt, self') ->
  exists Ky L y alpha,
    self' !! "_Ky" = Some (VArr Ky) /\
    self' !! "_L" = Some (VArr L) /\
    self' !! "_alpha" = Some (VArr alpha) /\
    self' !! "normed_Y" = Some (VSeries nY) /\
    cholesky Ky = Ok L /\
    lstsq L (col (values nY)) = Ok y /\
    lstsq (transpose L) y = Ok alpha /\
    mmul Ky alpha = col (values nY).
Proof.
  intros Hch Hls Hregr HnY Hn Hshape Hrun.
  unfold _set_hypers in Hrun.
  run_read Hrun regr Hr.
  unfold get_bool, getattr in Hr. rewrite Hregr in Hr. simpl in Hr.
  injection Hr as <-.
  run_read Hrun names Hnames. run_lift Hrun h Hh. run_set Hrun.
  run_read Hrun KKy HKKy.
  rewrite _make_Ks_frame in HKKy by done.
  destruct KKy as [Kc Ky]. specialize (Hshape Kc Ky HKKy). simpl in Hrun.
  run_set Hrun. run_set Hrun. run_lift Hrun L HL. run_set Hrun.
  run_read Hrun alpha Halpha.
  unfold get_series, getattr in Halpha.
  rewrite !lookup_insert_ne in Halpha by done. rewrite HnY in Halpha.
  simpl in Halpha.
  run_set Hrun. run_read Hrun ml Hml. run_set Hrun.
  run_read Hrun lp Hlp. apply setattr_ok in Hrun. subst self'.
  assert (Hlen : length (values nY) = length nY)
    by (unfold values; by rewrite length_map).
  destruct (solve_alpha_spec Ky L (values nY)) as (y & a & Hy & Ha & Hsa & _ & HKa);
    [done|done|done|lia|lia|].
  rewrite Hsa in Halpha. injection Halpha as <-.
  exists Ky, L, y, a. repeat split; try done; lookup_attr.
Qed.

End Fitting.

(* ================================================================== *)
(** * Broadcasting *)

Lemma mk_ext n m f g :
  (forall i j, (i < n)%nat -> (j < m)%nat -> f i j = g i j) ->
  mk n m f = mk n m g.
Proof.
  intros Hfg. apply (matrix_ext n m); [apply wf_mk..|].
  intros i j Hi Hj. rewrite !get_mk by done. by apply Hfg.
Qed.

Lemma bget_wf n m A i j :
  wf n m A -> (i < n)%nat -> (j < m)%nat -> bget A i j = get A i j.
Proof.
  intros HA Hi Hj. unfold bget.
  rewrite (wf_nrows n m A), (wf_ncols n m A) by (done || lia).
  destruct (Nat.eqb_spec n 1), (Nat.eqb_spec m 1); f_equal; lia.
Qed.

Lemma bget_col n c i j :
  wf n 1 c -> (i < n)%nat -> bget c i j = get c i 0.
Proof.
  intros Hc Hi. unfold bget.
  rewrite (wf_nrows n 1 c), (wf_ncols n 1 c) by (done || lia).
  destruct (Nat.eqb_spec n 1); simpl; f_equal; lia.
Qed.

Lemma bdim_same n : bdim n n = Some n.
Proof. unfold bdim. by rewrite Nat.eqb_refl. Qed.

Lemma bdim_1_l n : bdim 1 n = Some n.
Proof. unfold bdim. destruct (Nat.eqb_spec 1 n); [by subst|done]. Qed.

(** A column against a square array: the column is stretched. *)
Lemma broadcast_col_square op n c A :
  wf n 1 c -> wf n n A -> (0 < n)%nat ->
  broadcast op c A = Ok (mk n n (fun i j => op (get c i 0) (get A i j))).
Proof.
  intros Hc HA Hn. unfold broadcast.
  rewrite (wf_nrows n 1 c), (wf_nrows n n A), (wf_ncols n 1 c),
    (wf_ncols n n A) by done.
  rewrite bdim_same, bdim_1_l. f_equal. apply mk_ext. intros i j Hi Hj.
  by rewrite (bget_col n), (bget_wf n n) by done.
Qed.

Lemma diagonal_mk n f :
  (0 < n)%nat -> diagonal (mk n n f) = map (fun i => f i i) (seq 0 n).
Proof.
  intros Hn. unfold diagonal. rewrite nrows_mk, ncols_mk, Nat.min_id by done.
  apply map_ext_in. intros i Hi. apply in_seq in Hi. rewrite get_mk; (done || lia).
Qed.

Lemma diagonal_wf n A :
  wf n n A -> (0 < n)%nat ->
  diagonal A = map (fun i => get A i i) (seq 0 n).
Proof.
  intros HA Hn. unfold diagonal.
  by rewrite (wf_nrows n n A), (wf_ncols n n A), Nat.min_id.
Qed.

Lemma wf_mmap n m f A : wf n m A -> wf n m (mmap f A).
Proof.
  intros [Hl Hr]. split; [unfold mmap; by rewrite length_map|].
  unfold mmap. apply Forall_map. eapply Forall_impl; [done|].
  intros r Hlen. simpl. by rewrite length_map.
Qed.

Lemma get_mmap n m f A i j :
  wf n m A -> (i < n)%nat -> (j < m)%nat ->
  get (mmap f A) i j = f (get A i j).
Proof.
  intros HA Hi Hj. unfold get, mmap.
  rewrite (nth_indep _ [] (map f [])) by (rewrite length_map; destruct HA; lia).
  rewrite map_nth. simpl.
  rewrite (nth_indep _ 0 (f 0)) by (rewrite length_map, (wf_row n m A); done).
  by rewrite map_nth.
Qed.

Lemma zip_map_seq {A B} (f : nat -> A) (g : nat -> B) l :
  zip (map f l) (map g l) = map (fun i => (f i, g i)) l.
Proof. induction l as [|a l IH]; simpl; [done|]. by rewrite IH. Qed.

(* ================================================================== *)
(** * The reference library on one-by-one arrays *)

Lemma same_entries_refl n m A : same_entries n m A A = true.
Proof.
  apply forall_lt_spec. intros i Hi. apply forall_lt_spec.
  intros j Hj. by apply Req_b_spec.
Qed.

(** The check of [cholesky_ref] passes on a correct factor. *)
Lemma cholesky_ref_ok n A L :
  n = nrows A -> L = chol_rows A n n ->
  wf n n A -> wf n n L ->
  (forall i j, (i < j < n)%nat -> get L i j = 0) ->
  (forall i, (i < n)%nat -> 0 < get L i i) ->
  mmul L (transpose L) = A ->
  cholesky_ref A = Ok L.
Proof.
  intros Hn HLdef HA HL Hlow Hpos Heq. unfold cholesky_ref.
  rewrite <- Hn, <- HLdef.
  rewrite (proj2 (has_shape_spec n n A)), (proj2 (has_shape_spec n n L))
    by done.
  rewrite (proj2 (is_lower_spec n L)) by done.
  assert (H1 : forall_lt n (fun i => Rlt_b 0 (get L i i)) = true).
  { apply forall_lt_spec. intros i Hi. by apply Rlt_b_spec, Hpos. }
  by rewrite H1, Heq, same_entries_refl.
Qed.

Lemma cholesky_ref_1 a : 0 < a -> cholesky_ref [[a]] = Ok [[sqrt (a - 0)]].
Proof.
  intros Ha. apply (cholesky_ref_ok 1 [[a]]).
  - done.
  - done.
  - by repeat constructor.
  - by repeat constructor.
  - intros i j Hij. lia.
  - intros i Hi. replace i with 0%nat by lia. unfold get. simpl.
    apply sqrt_lt_R0. lra.
  - unfold mmul, transpose, get, mk, ncols, nrows. simpl.
    rewrite sqrt_sqrt by lra. repeat f_equal. lra.
Qed.

Lemma inv_ref_1 a :
  0 < a ->
  inv_ref [[a]] = Ok [[((1 - 0) / sqrt (a - 0) - 0) / sqrt (a - 0)]].
Proof.
  intros Ha. unfold inv_ref. rewrite cholesky_ref_1 by done.
  unfold bind, nrows, length.
  set (s := sqrt (a - 0)).
  assert (Hs : s * s = a) by (unfold s; rewrite sqrt_sqrt; lra).
  assert (Hs0 : s <> 0).
  { intros Hz. rewrite Hz in Hs. lra. }
  assert (HB : mk 1 1 (fun i j => nth i
     (back_subst (transpose [[s]])
        (forward_subst [[s]]
           (map (fun i0 => if Nat.eqb i0 j then 1 else 0) (seq 0 1)) 1) 1) 0)
     = [[((1 - 0) / s - 0) / s]]) by reflexivity.
  rewrite HB.
  assert (H1 : mmul [[a]] [[((1 - 0) / s - 0) / s]] = eye 1).
  { unfold mmul, eye, mk, get, ncols, nrows. simpl. repeat f_equal.
    rewrite <- Hs. by field. }
  assert (H2 : mmul [[((1 - 0) / s - 0) / s]] [[a]] = eye 1).
  { unfold mmul, eye, mk, get, ncols, nrows. simpl. repeat f_equal.
    rewrite <- Hs. by field. }
  rewrite H1, H2, same_entries_refl. reflexivity.
Qed.

(* ================================================================== *)
(** * Leave-one-out *)

Section LeaveOneOut.

Context {K Mf : Type} {HK : GPKernel K} {HM : GPMean Mf}
        {HD : GPMeanDefault Mf} {NP : NumPyLinalg} {SP : SciPy}
        {SK : SkLearn}.

Local Abbreviation obj := (gmap string (value K Mf)).

Lemma LOO_res_spec (self : obj) hypers nY Kc Ky K_inv :
  inv_inverts ->
  self !! "normed_Y" = Some (VSeries nY) ->
  _make_Ks self hypers = Ok (Kc, Ky) ->
  nrows Ky = length nY -> (0 < length nY)%nat ->
  inv Ky = Ok K_inv ->
  let n := length nY in
  mmul Ky K_inv = eye n /\ mmul K_inv Ky = eye n /\
  LOO_res self hypers false false
    = Ok (zip (index nY)
              (map (fun i => (loo_mean K_inv (values nY) n i,
                              loo_var K_inv i))
                   (seq 0 n))).
Proof.
  intros Hinv HnY HKs Hrows Hn HKi n.
  destruct (Hinv Ky K_inv HKi) as (HwK & H1 & H2).
  rewrite Hrows in HwK, H1, H2. fold n in HwK, H1, H2.
  split; [done|]. split; [done|].
  unfold LOO_res. rewrite HKs. simpl. rewrite HKi. simpl.
  unfold get_series, getattr. rewrite HnY. simpl.
  assert (Hlen : length (values nY) = n)
    by (unfold values; by rewrite length_map).
  pose proof (wf_col (values nY)) as HY. rewrite Hlen in HY.
  rewrite (dot_ok n n 1) by done. simpl.
  pose proof (wf_mmul n n 1 K_inv _ HwK HY Hn) as HKY.
  rewrite (broadcast_col_square Rdiv n) by done.
  unfold mdiv, msub. simpl.
  rewrite (broadcast_col_square Rminus n) by (done || apply wf_mk). simpl.
  rewrite diagonal_mk by done.
  rewrite (diagonal_wf n) by (done || by apply wf_mmap).
  rewrite zip_map_seq, length_map, length_seq. fold n.
  rewrite Nat.eqb_refl. do 2 f_equal.
  apply map_ext_in. intros i Hi. apply in_seq in Hi.
  rewrite get_mk, get_col, (get_mmap n n), (get_mmul n n 1) by (done || lia).
  unfold loo_mean, loo_var. do 3 f_equal.
  apply Rsum_ext. intros j Hj. by rewrite get_col.
Qed.


(** C3.  For a regression model with [n] training points, [LOO_res] takes
    one inverse [K_inv] of the noisy covariance [Ky] and returns, for each
    sample [i], the mean [Y_i - (K_inv Y)_i / (K_inv)_ii] and the variance
    [1 / (K_inv)_ii]; no model is refitted. *)
Theorem C3_LOO_closed_form (self : obj) hypers nY Kc Ky K_inv :
  inv_inverts ->
  self !! "normed_Y" = Some (VSeries nY) ->
  _make_Ks self hypers = Ok (Kc, Ky) ->
  nrows Ky = length nY -> (0 < length nY)%nat ->
  inv Ky = Ok K_inv ->
  let n := length nY in
  mmul Ky K_inv = eye n /\ mmul K_inv Ky = eye n /\
  LOO_res self hypers false false
    = Ok (zip (index nY)
              (map (fun i => (loo_mean K_inv (values nY) n i,
                              loo_var K_inv i))
                   (seq 0 n))).
Proof. apply LOO_res_spec. Qed.

End LeaveOneOut.

Lemma wf_1_1 A : wf 1 1 A -> exists x, A = [[x]].
Proof.
  intros [Hl Hr]. destruct A as [|r [|]]; try done.
  inversion Hr as [|r0 l0 Hlen _]. destruct r as [|a [|]]; try done.
  by exists a.
Qed.

Lemma values_zip (names : list ident) (vals : vector) :
  length names = length vals -> values (zip names vals) = vals.
Proof. intros Hlen. unfold values. by rewrite snd_zip by lia. Qed.

(* ================================================================== *)
(** * Acceptance of hyperparameters *)

Section Acceptance.

Context {K Mf : Type} {HK : GPKernel K} {HM : GPMean Mf}
        {HD : GPMeanDefault Mf} {NP : NumPyLinalg} {SP : SciPy}
        {SK : SkLearn}.

Local Abbreviation obj := (gmap string (value K Mf)).

Lemma _log_ML_regr_ok (self : obj) h nY Kc Ky L :
  cholesky_factors -> lstsq_solves ->
  self !! "regr" = Some (VBool true) ->
  self !! "normed_Y" = Some (VSeries nY) ->
  _make_Ks self h = Ok (Kc, Ky) ->
  nrows Ky = length nY -> (0 < length nY)%nat ->
  cholesky Ky = Ok L ->
  exists ml, _log_ML self h = Ok ml.
Proof.
  intros Hch Hls Hregr HnY HKs Hrows Hn HL.
  assert (Hlen : length (values nY) = length nY)
    by (unfold values; by rewrite length_map).
  destruct (solve_alpha_spec Ky L (values nY))
    as (y & a & Hy & Ha & _ & Hwa & _); [done|done|done|lia|lia|].
  unfold _log_ML, get_bool, get_series, getattr.
  rewrite Hregr, HnY. cbn [bind attr as_bool as_series]. rewrite HKs.
  cbn [bind fst snd]. rewrite HL. cbn [bind].
  change (transpose [values nY]) with (transpose (np_matrix (values nY))).
  rewrite transpose_row, Hy. cbn [bind]. rewrite Ha. cbn [bind].
  rewrite (dot_ok 1 (length (values nY)) 1); [| |done|lia].
  2:{ by repeat constructor. }
  cbn [bind].
  assert (Hw : wf 1 1 (mmul [values nY] a)).
  { apply (wf_mmul 1 (length (values nY)) 1);
      [by repeat constructor|done|lia]. }
  destruct (wf_1_1 _ Hw) as [e ->]. simpl. eauto.
Qed.

Lemma _LOO_log_p_ok (self : obj) h nY Kc Ky K_inv :
  inv_inverts ->
  self !! "normed_Y" = Some (VSeries nY) ->
  _make_Ks self h = Ok (Kc, Ky) ->
  nrows Ky = length nY -> (0 < length nY)%nat ->
  inv Ky = Ok K_inv ->
  exists lp, _LOO_log_p self h = Ok lp.
Proof.
  intros Hinv HnY HKs Hrows Hn HKi.
  destruct (LOO_res_spec self h nY Kc Ky K_inv) as (_ & _ & HLOO);
    try done.
  unfold _LOO_log_p. rewrite HLOO. cbn [bind].
  unfold get_series, getattr. rewrite HnY. cbn [bind attr as_series]. eauto.
Qed.

(** A regression model accepts hyperparameters of the right length as
    soon as the noisy covariance can be factored and inverted. *)
Lemma _set_hypers_regr_ok (self : obj) hypers nY kern vs Kc Ky L K_inv :
  cholesky_factors -> lstsq_solves -> inv_inverts ->
  self !! "regr" = Some (VBool true) ->
  self !! "normed_Y" = Some (VSeries nY) ->
  self !! "kern" = Some (VKern kern) ->
  self !! "variances" = Some vs ->
  length hypers = length (match vs with
                          | VNone => "var_n"%string :: kern_hypers kern
                          | _ => kern_hypers kern
                          end) ->
  _make_Ks self hypers = Ok (Kc, Ky) ->
  nrows Ky = length nY -> (0 < length nY)%nat ->
  cholesky Ky = Ok L -> inv Ky = Ok K_inv ->
  exists self', _set_hypers hypers self = (Ok tt, self').
Proof.
  intros Hch Hls Hinv Hregr HnY Hkern Hvs Hlen HKs Hrows Hn HL HKi.
  assert (Hlen' : length (values nY) = length nY)
    by (unfold values; by rewrite length_map).
  destruct (solve_alpha_spec Ky L (values nY))
    as (y & a & _ & _ & Ha & _ & _); [done|done|done|lia|lia|].
  set (names := match vs with
                | VNone => "var_n"%string :: kern_hypers kern
                | _ => kern_hypers kern
                end) in *.
  unfold _set_hypers, mbind_, reading, lift, setattr.
  unfold get_bool, get_kern, getattr at 1 2 3.
  rewrite Hregr, Hkern, Hvs. cbn [bind attr as_bool as_kern].
  replace (match vs with
           | VNone => Ok ("var_n"%string :: kern_hypers kern)
           | _ => Ok (kern_hypers kern)
           end) with (Ok names) by (unfold names; by destruct vs).
  unfold namedtuple_make. rewrite <- Hlen, Nat.eqb_refl.
  rewrite !_make_Ks_frame by done. rewrite HKs. cbn [fst snd]. rewrite HL.
  unfold get_series, getattr. rewrite !lookup_insert_ne by done.
  rewrite HnY. cbn [bind attr as_series]. rewrite Ha.
  rewrite values_zip by done.
  edestruct (_log_ML_regr_ok) as [ml ->]; [done|done| | | |done|done|done|].
  { lookup_attr. }
  { lookup_attr. }
  { rewrite !_make_Ks_frame by done. exact HKs. }
  edestruct (_LOO_log_p_ok) as [lp ->]; [done| | |done|done|done|].
  { lookup_attr. }
  { rewrite !_make_Ks_frame by done. exact HKs. }
  eauto.
Qed.

End Acceptance.

Lemma one_point_Ks :
  exists a, 0 < a /\
    _make_Ks (HK := hamming_kernel) one_point_model [1; 1]
    = Ok ([[hamming "R" "R" * 1]], [[a]]).
Proof.
  eexists. split; [|reflexivity]. unfold bget, get, hamming. simpl. lra.
Qed.

Lemma C3_LOO_closed_form_witness :
  exists Kc Ky K_inv,
    _make_Ks (HK := hamming_kernel) one_point_model [1; 1] = Ok (Kc, Ky) /\
    mmul Ky K_inv = eye 1 /\ mmul K_inv Ky = eye 1 /\
    LOO_res (HK := hamming_kernel) (HM := zero_mean) (NP := numpy_ref)
      one_point_model [1; 1] false false
    = Ok [("a"%string, (loo_mean K_inv [1] 1 0, loo_var K_inv 0))].
Proof.
  destruct one_point_Ks as (a & Ha & HKs).
  exists [[hamming "R" "R" * 1]], [[a]],
    [[((1 - 0) / sqrt (a - 0) - 0) / sqrt (a - 0)]].
  split; [exact HKs|].
  apply (C3_LOO_closed_form (HK := hamming_kernel) (HM := zero_mean)
           (NP := numpy_ref) one_point_model [1; 1] [("a"%string, 1)]
           [[hamming "R" "R" * 1]] [[a]] _ inv_ref_inverts).
  - reflexivity.
  - exact HKs.
  - reflexivity.
  - simpl. lia.
  - by apply inv_ref_1.
Defined.

Lemma C2_alpha_solves_Ky_witness :
  exists self' Ky L y alpha,
    _set_hypers (HK := hamming_kernel) (HM := zero_mean) (NP := numpy_ref)
      (SP := scipy_stub) [1; 1] one_point_model = (Ok tt, self') /\
    self' !! "_Ky" = Some (VArr Ky) /\
    self' !! "_L" = Some (VArr L) /\
    self' !! "_alpha" = Some (VArr alpha) /\
    self' !! "normed_Y" = Some (VSeries [("a"%string, 1)]) /\
    cholesky (NumPyLinalg := numpy_ref) Ky = Ok L /\
    lstsq (NumPyLinalg := numpy_ref) L (col [1]) = Ok y /\
    lstsq (NumPyLinalg := numpy_ref) (transpose L) y = Ok alpha /\
    mmul Ky alpha = col [1].
Proof.
  destruct one_point_Ks as (a & Ha & HKs).
  destruct (_set_hypers_regr_ok (HK := hamming_kernel) (HM := zero_mean)
              (NP := numpy_ref) (SP := scipy_stub)
              one_point_model [1; 1] [("a"%string, 1)] one_kernel VNone
              _ _ _ _ cholesky_ref_factors lstsq_ref_solves inv_ref_inverts
              eq_refl eq_refl eq_refl eq_refl eq_refl HKs eq_refl
              (Nat.lt_0_succ 0) (cholesky_ref_1 a Ha) (inv_ref_1 a Ha))
    as [self' Hrun].
  exists self'.
  destruct (C2_alpha_solves_Ky (HK := hamming_kernel) (HM := zero_mean)
              (NP := numpy_ref) (SP := scipy_stub)
              one_point_model self' [1; 1] [("a"%string, 1)]
              cholesky_ref_factors lstsq_ref_solves eq_refl eq_refl
              (Nat.lt_0_succ 0))
    as (Ky & L & y & alpha & H); [|exact Hrun|].
  - intros Kc Ky HKs'. rewrite HKs in HKs'. by injection HKs' as _ <-.
  - exists Ky, L, y, alpha. split; [exact Hrun|exact H].
Defined.

(* ================================================================== *)
(** * Convergence of the mode finding *)

Section Convergence.

Context {K Mf : Type} {HK : GPKernel K} {HM : GPMean Mf}
        {HD : GPMeanDefault Mf} {NP : NumPyLinalg} {SP : SciPy}
        {SK : SkLearn}.

Local Abbreviation obj := (gmap string (value K Mf)).

Section Loop.
Variables (self : obj) (Kc : matrix) (ell : nat) (threshold : R).

(** The iterate [f] the loop holds when iteration [j] starts, from [f]. *)
Fixpoint iterate_F (f : Series) (j : nat) : result Series :=
  match j with
  | O => Ok f
  | S j' =>
      f_new <- _find_F_body self Kc ell f ;;
      iterate_F (new_series f_new) j'
  end.

(** Iteration [j] runs and produces [f_new]; [b] is the outcome of its
    convergence test. *)
Definition produces (f : Series) (j : nat) (f_new : vector) (b : bool) : Prop :=
  exists fj, iterate_F f j = Ok fj /\
             _find_F_body self Kc ell fj = Ok f_new /\
             below threshold (values fj) f_new = Ok b.

(** Iteration [j] passes the test. *)
Definition passes (f : Series) (j : nat) : Prop :=
  exists f_new, produces f j f_new true.

Lemma produces_S f f0 j f_new b :
  _find_F_body self Kc ell f = Ok f0 ->
  produces f (S j) f_new b <-> produces (new_series f0) j f_new b.
Proof. intros Hb. unfold produces. simpl. by rewrite Hb. Qed.

Lemma passes_S f f0 j :
  _find_F_body self Kc ell f = Ok f0 ->
  passes f (S j) <-> passes (new_series f0) j.
Proof.
  intros Hb. unfold passes. split; intros [fn H]; exists fn;
    by apply (produces_S f f0).
Qed.

Lemma loop_returns evals : forall f nb r,
  _find_F_loop self Kc ell threshold evals f nb = Ok r ->
  exists i f_new X,
    (i < evals)%nat /\ (9 <= i + nb)%nat /\
    (forall j, (i <= j + 9)%nat -> (j <= i)%nat -> passes f j) /\
    produces f i f_new true /\
    self !! "X_seqs" = Some (VFrame X) /\
    set_index (new_series f_new) (index X) = Ok r.
Proof.
  induction evals as [|evals IH]; intros f nb r Hrun; [done|].
  simpl in Hrun.
  apply bind_ok in Hrun as (f0 & Hbody & Hrun).
  apply bind_ok in Hrun as (ok & Hok & Hrun).
  destruct (Nat.ltb_spec 9 (if ok then S nb else 0%nat)) as [Hlt|Hge].
  - destruct ok; [|simpl in *; lia].
    apply bind_ok in Hrun as (X & HX & Hrun).
    unfold get_frame, getattr in HX.
    destruct (self !! "X_seqs") as [[]|] eqn:HXs; try done.
    simpl in HX. injection HX as ->.
    assert (Hp : produces f 0 f0 true) by (by exists f).
    exists 0%nat, f0, X. repeat split; try done; try lia.
    intros j _ Hj. replace j with 0%nat by lia. by exists f0.
  - apply IH in Hrun as (i & f_new & X & Hi & Hnb & Hwin & Hp & HX & Hr).
    exists (S i), f_new, X. repeat split; try done; try lia.
    + destruct ok; simpl in *; lia.
    + intros j Hj1 Hj2. destruct j as [|j].
      * destruct ok; [|simpl in *; lia]. exists f0. by exists f.
      * apply (passes_S f f0); [done|]. apply Hwin; lia.
    + by apply (produces_S f f0).
Qed.

Lemma loop_exhausts evals : forall f nb,
  (forall j, (j < evals)%nat -> exists f_new b, produces f j f_new b) ->
  (forall i, (i < evals)%nat -> (9 <= i + nb)%nat ->
     exists j, (i <= j + 9)%nat /\ (j <= i)%nat /\ ~ passes f j) ->
  _find_F_loop self Kc ell threshold evals f nb = Raise RuntimeError.
Proof.
  induction evals as [|evals IH]; intros f nb Hruns Hnowin; [done|].
  simpl.
  destruct (Hruns 0%nat ltac:(lia)) as (f0 & b & fj & Hfj & Hbody & Hb).
  simpl in Hfj. injection Hfj as <-.
  rewrite Hbody. simpl. rewrite Hb. simpl.
  destruct (Nat.ltb_spec 9 (if b then S nb else 0%nat)) as [Hlt|Hge].
  - destruct b; [|simpl in *; lia].
    destruct (Hnowin 0%nat ltac:(lia) ltac:(lia)) as (j & _ & Hj & Hnc).
    replace j with 0%nat in Hnc by lia. exfalso. apply Hnc.
    exists f0. by exists f.
  - apply IH.
    + intros j Hj. destruct (Hruns (S j) ltac:(lia)) as (fn & b' & Hp).
      exists fn, b'. by apply (produces_S f f0).
    + intros i Hi Hnb.
      destruct b.
      * destruct (Hnowin (S i) ltac:(lia) ltac:(lia)) as (j & Hj1 & Hj2 & Hnc).
        destruct j as [|j].
        { exfalso. apply Hnc. exists f0. by exists f. }
        exists j. split; [lia|]. split; [lia|].
        intros Hc. apply Hnc. by apply (passes_S f f0).
      * destruct (decide (9 <= S i + nb)%nat) as [Hbig|Hsmall].
        -- destruct (Hnowin (S i) ltac:(lia) ltac:(lia)) as (j & Hj1 & Hj2 & Hnc).
           destruct j as [|j].
           { lia. }
           exists j. split; [lia|]. split; [lia|].
           intros Hc. apply Hnc. by apply (passes_S f f0).
        -- lia.
Qed.

(** The convergence criterion between an iterate [f] and its successor
    [f_new]: the squared difference, divided by the sum of [f_new], is
    below the threshold.  The difference is numpy's; a sum that is zero
    does not meet the criterion. *)
Definition criterion (f f_new : vector) : Prop :=
  exists d,
    vzip Rminus f f_new = Ok d /\
    vsum f_new <> 0 /\
    vsum (map (fun x => x ^ 2) d) / vsum f_new < threshold.

(** Iteration [j] runs: the Newton step returns and the two iterates can
    be subtracted. *)
Definition runs (f : Series) (j : nat) : Prop :=
  exists fj f_new d,
    iterate_F f j = Ok fj /\
    _find_F_body self Kc ell fj = Ok f_new /\
    vzip Rminus (values fj) f_new = Ok d.

(** The convergence criterion holds at iteration [j]. *)
Definition converged_at (f : Series) (j : nat) : Prop :=
  exists fj f_new,
    iterate_F f j = Ok fj /\
    _find_F_body self Kc ell fj = Ok f_new /\
    criterion (values fj) f_new.

(** The test of the loop is the criterion. *)
Lemma below_criterion f f_new b :
  below threshold f f_new = Ok b -> (b = true <-> criterion f f_new).
Proof.
  unfold below, criterion. intros Hb.
  apply bind_ok in Hb as (d & Hd & Hb). injection Hb as <-.
  destruct (Req_dec_T (vsum f_new) 0) as [Hz|Hnz].
  - split; [done|]. by intros (d' & _ & Hne & _).
  - destruct (Rlt_dec _ _) as [Hlt|Hge].
    + split; [|done]. intros _. by exists d.
    + split; [done|]. intros (d' & Hd' & _ & Hlt).
      rewrite Hd in Hd'. injection Hd' as <-. done.
Qed.

Lemma criterion_below f f_new :
  criterion f f_new -> below threshold f f_new = Ok true.
Proof.
  intros (d & Hd & Hne & Hlt).
  unfold below. rewrite Hd. cbn [bind].
  destruct (Req_dec_T (vsum f_new) 0); [done|].
  by destruct (Rlt_dec _ _).
Qed.

Lemma passes_converged f j : passes f j <-> converged_at f j.
Proof.
  split.
  - intros (f_new & fj & Hfj & Hbody & Hb). exists fj, f_new.
    split; [done|]. split; [done|]. by apply (below_criterion _ _ true).
  - intros (fj & f_new & Hfj & Hbody & Hc). exists f_new, fj.
    split; [done|]. split; [done|]. by apply criterion_below.
Qed.

Lemma runs_produces f j : runs f j -> exists f_new b, produces f j f_new b.
Proof.
  intros (fj & f_new & d & Hfj & Hbody & Hd).
  eexists f_new, _, fj. split; [done|]. split; [done|].
  unfold below. rewrite Hd. reflexivity.
Qed.

End Loop.

Lemma _find_F_unfold (self : obj) hypers Ys kern Kc threshold evals :
  self !! "Y" = Some (VSeries Ys) ->
  self !! "kern" = Some (VKern kern) ->
  make_K kern hypers = Ok Kc ->
  _find_F self hypers None threshold evals
  = _find_F_loop self Kc (length Ys) threshold evals
      (new_series (repeat 0 (length Ys))) 0.
Proof.
  intros HY Hk HK'. unfold _find_F, get_series, get_kern, getattr.
  rewrite HY, Hk. cbn [bind attr as_series as_kern]. by rewrite HK'.
Qed.

(** C4.  Mode finding started without a guess, with the default
    threshold [1e-4] and the default cap of [1000] evaluations.  The
    criterion of an iteration is that the squared difference between the
    iterate and its successor [f_new], divided by the sum of [f_new], is
    below [1e-4] (a zero sum does not meet it).  A returned [f_hat] is
    the successor computed at an iteration [i < 1000], labelled by the
    training set, such that the criterion held at each of the ten
    iterations [i - 9 .. i]; and when every iteration runs but no ten
    consecutive iterations meet the criterion within the cap, the routine
    raises, returning nothing. *)
Theorem C4_find_F_convergence (self : obj) hypers Ys kern Kc :
  self !! "Y" = Some (VSeries Ys) ->
  self !! "kern" = Some (VKern kern) ->
  make_K kern hypers = Ok Kc ->
  let ell := length Ys in
  let f0 := new_series (repeat 0 ell) in
  let run := _find_F self hypers None default_threshold default_evals in
  (forall f_hat, run = Ok f_hat ->
     exists i fi f_new X,
       (9 <= i < 1000)%nat /\
       (forall j, (i - 9 <= j <= i)%nat ->
                  converged_at self Kc ell default_threshold f0 j) /\
       iterate_F self Kc ell f0 i = Ok fi /\
       _find_F_body self Kc ell fi = Ok f_new /\
       self !! "X_seqs" = Some (VFrame X) /\
       set_index (new_series f_new) (index X) = Ok f_hat) /\
  ((forall j, (j < 1000)%nat -> runs self Kc ell f0 j) ->
   (forall i, (9 <= i < 1000)%nat ->
      exists j, (i - 9 <= j <= i)%nat /\
                ~ converged_at self Kc ell default_threshold f0 j) ->
   run = Raise RuntimeError).
Proof.
  intros HY Hk HK' ell f0 run. unfold run.
  rewrite (_find_F_unfold self hypers Ys kern Kc) by done.
  fold ell. fold f0. split.
  - intros f_hat Hrun.
    apply loop_returns in Hrun
      as (i & f_new & X & Hi & Hnb & Hwin & Hp & HX & Hr).
    destruct Hp as (fi & Hfi & Hbody & _).
    exists i, fi, f_new, X. unfold default_evals in Hi.
    repeat split; try done; try lia.
    intros j Hj. apply passes_converged, Hwin; lia.
  - intros Hruns Hnowin. apply loop_exhausts.
    + intros j Hj. by apply (runs_produces _ _ _ default_threshold), Hruns.
    + intros i Hi Hnb. unfold default_evals in Hi.
      destruct (Hnowin i ltac:(lia)) as (j & Hj & Hnc).
      exists j. split; [lia|]. split; [lia|].
      intros Hp. by apply Hnc, passes_converged.
Qed.

End Convergence.

(* ================================================================== *)
(** * Fitting a classification model *)

Lemma is_pm1_true y : y = -1 \/ y = 1 -> is_pm1 y = true.
Proof.
  intros Hy. unfold is_pm1.
  destruct (Req_dec_T y (-1)); [done|]. destruct (Req_dec_T y 1); [done|].
  by destruct Hy.
Qed.

Lemma forallb_is_pm1 Ys :
  Forall (fun y => y = -1 \/ y = 1) Ys -> forallb is_pm1 Ys = true.
Proof.
  intros HY. apply forallb_forall. intros y Hy. apply is_pm1_true.
  rewrite Forall_forall in HY. by apply HY, list_elem_of_In.
Qed.


Section FitClassification.

Context {K Mf : Type} {HK : GPKernel K} {HM : GPMean Mf}
        {HD : GPMeanDefault Mf} {NP : NumPyLinalg} {SP : SciPy}
        {SK : SkLearn}.

Local Abbreviation obj := (gmap string (value K Mf)).



End FitClassification.



(* ================================================================== *)
(** * Lists of results *)

Lemma mapM_length {A B} (f : A -> result B) l ys :
  mapM f l = Ok ys -> length ys = length l.
Proof.
  revert ys. induction l as [|a l IH]; intros ys Hm; simpl in Hm.
  - by injection Hm as <-.
  - apply bind_ok in Hm as (b & Hb & Hm). apply bind_ok in Hm as (bs & Hbs & Hm).
    injection Hm as <-. simpl. by rewrite (IH bs).
Qed.

Lemma mapM_nth {A B} (f : A -> result B) l ys i d d' :
  mapM f l = Ok ys -> (i < length l)%nat ->
  f (nth i l d) = Ok (nth i ys d').
Proof.
  revert ys i. induction l as [|a l IH]; intros ys i Hm Hi; simpl in *; [lia|].
  apply bind_ok in Hm as (b & Hb & Hm). apply bind_ok in Hm as (bs & Hbs & Hm).
  injection Hm as <-. destruct i as [|i]; [done|]. simpl. apply IH; [done|lia].
Qed.

Lemma mapM_build {A B} (f : A -> result B) l (g : nat -> B) d :
  (forall i, (i < length l)%nat -> f (nth i l d) = Ok (g i)) ->
  mapM f l = Ok (map g (seq 0 (length l))).
Proof.
  revert g. induction l as [|a l IH]; intros g Hg; [done|].
  pose proof (Hg 0%nat ltac:(simpl; lia)) as H0. simpl in H0.
  simpl. rewrite H0. simpl.
  rewrite (IH (fun i => g (S i))).
  - simpl. by rewrite <- seq_shift, map_map.
  - intros i Hi. apply (Hg (S i)). simpl. lia.
Qed.

Lemma list_as_map {A} (l : list A) d :
  l = map (fun i => nth i l d) (seq 0 (length l)).
Proof.
  apply (nth_ext _ _ d d); [by rewrite length_map, length_seq|].
  intros i Hi. by rewrite nth_map_seq.
Qed.

Lemma zip_with_map {A B C D} (f : B -> C -> D) (a : A -> B) (b : A -> C) l :
  zip_with f (map a l) (map b l) = map (fun i => f (a i) (b i)) l.
Proof. induction l as [|x l IH]; simpl; [done|]. by rewrite IH. Qed.

(* ================================================================== *)
(** * Selection by upper bound *)

(** [r] is the first row of [l] with the largest upper bound, among the
    rows whose upper bound is not [nan]. *)
Definition first_max (l : list row) (r : row) : Prop :=
  exists u l1 l2, l = l1 ++ r :: l2 /\ r_UB r = Some u /\
    Forall (fun x => forall ux, r_UB x = Some ux -> ux < u) l1 /\
    Forall (fun x => forall ux, r_UB x = Some ux -> ux <= u) l2.

Lemma argmax_retained rest : forall b ub r,
  argmax (Some (b, ub)) rest = Some r ->
  (r = b /\ Forall (fun x => forall ux, r_UB x = Some ux -> ux <= ub) rest) \/
  (exists u l1 l2, rest = l1 ++ r :: l2 /\ r_UB r = Some u /\ ub < u /\
     Forall (fun x => forall ux, r_UB x = Some ux -> ux < u) l1 /\
     Forall (fun x => forall ux, r_UB x = Some ux -> ux <= u) l2).
Proof.
  induction rest as [|x rest IH]; intros b ub r; simpl.
  - intros [= <-]. left. split; [done|constructor].
  - destruct (r_UB x) as [u0|] eqn:Hx.
    + destruct (Rlt_dec ub u0) as [Hlt|Hge]; intros Hr.
      * apply IH in Hr as [[-> Hall]|(u & l1 & l2 & -> & Hu & Hlt' & H1 & H2)].
        -- right. exists u0, [], rest. simpl. repeat split; try done.
        -- right. exists u, (x :: l1), l2. repeat split; try done; [lra|].
           constructor; [|done]. intros ux Hux. rewrite Hx in Hux.
           by injection Hux as <-.
      * apply IH in Hr as [[-> Hall]|(u & l1 & l2 & -> & Hu & Hlt' & H1 & H2)].
        -- left. split; [done|]. constructor; [|done]. intros ux Hux.
           rewrite Hx in Hux. injection Hux as <-. lra.
        -- right. exists u, (x :: l1), l2. repeat split; try done.
           constructor; [|done]. intros ux Hux. rewrite Hx in Hux.
           injection Hux as <-. lra.
    + intros Hr.
      apply IH in Hr as [[-> Hall]|(u & l1 & l2 & -> & Hu & Hlt' & H1 & H2)].
      * left. split; [done|]. constructor; [|done]. intros ux Hux.
        by rewrite Hx in Hux.
      * right. exists u, (x :: l1), l2. repeat split; try done.
        constructor; [|done]. intros ux Hux. by rewrite Hx in Hux.
Qed.

Lemma argmax_first_max l : forall r,
  argmax None l = Some r -> first_max l r.
Proof.
  induction l as [|x l IH]; intros r; simpl; [done|].
  destruct (r_UB x) as [u0|] eqn:Hx; intros Hr.
  - apply argmax_retained in Hr
      as [[-> Hall]|(u & l1 & l2 & -> & Hu & Hlt & H1 & H2)].
    + by exists u0, [], l.
    + exists u, (x :: l1), l2. repeat split; try done.
      constructor; [|done]. intros ux Hux. rewrite Hx in Hux.
      by injection Hux as <-.
  - apply IH in Hr as (u & l1 & l2 & -> & Hu & H1 & H2).
    exists u, (x :: l1), l2. repeat split; try done.
    constructor; [|done]. intros ux Hux. by rewrite Hx in Hux.
Qed.

Lemma argmax_keep l2 : forall r u,
  Forall (fun x => forall ux, r_UB x = Some ux -> ux <= u) l2 ->
  argmax (Some (r, u)) l2 = Some r.
Proof.
  induction l2 as [|x l2 IH]; intros r u Hall; simpl; [done|].
  inversion Hall as [|? ? Hx Hall']; subst.
  destruct (r_UB x) as [u0|]; [|by apply IH].
  specialize (Hx u0 eq_refl).
  destruct (Rlt_dec u u0); [lra|by apply IH].
Qed.

Lemma argmax_skip l1 : forall best r u l2,
  r_UB r = Some u ->
  match best with Some (_, ub) => ub < u | None => True end ->
  Forall (fun x => forall ux, r_UB x = Some ux -> ux < u) l1 ->
  Forall (fun x => forall ux, r_UB x = Some ux -> ux <= u) l2 ->
  argmax best (l1 ++ r :: l2) = Some r.
Proof.
  induction l1 as [|x l1 IH]; intros best r u l2 Hu Hbest H1 H2; simpl.
  - rewrite Hu. destruct best as [[b ub]|]; [|by apply argmax_keep].
    destruct (Rlt_dec ub u); [by apply argmax_keep|lra].
  - inversion H1 as [|? ? Hx H1']; subst.
    destruct (r_UB x) as [u0|]; [|by apply (IH best r u)].
    specialize (Hx u0 eq_refl).
    destruct best as [[b ub]|]; [|by apply (IH _ r u)].
    destruct (Rlt_dec ub u0); by apply (IH _ r u).
Qed.

Lemma idxmax_first_max l id_max :
  idxmax l = Ok id_max -> exists r, first_max l r /\ r_id r = id_max.
Proof.
  unfold idxmax. destruct l as [|r0 rest]; [done|].
  destruct (argmax None (r0 :: rest)) as [r|] eqn:Hr; [|done].
  intros [= <-]. exists r. split; [by apply argmax_first_max|done].
Qed.

Lemma first_max_idxmax l r : first_max l r -> idxmax l = Ok (r_id r).
Proof.
  intros (u & l1 & l2 & -> & Hu & H1 & H2). unfold idxmax.
  rewrite (argmax_skip l1 None r u l2) by done.
  by destruct l1.
Qed.

Lemma first_max_in l r : first_max l r -> r ∈ l.
Proof.
  intros (u & l1 & l2 & -> & _). apply elem_of_app. right.
  apply list_elem_of_here.
Qed.

(** The upper bound of a row is that of its mean and variance. *)
Definition bounded (r : row) : Prop :=
  r_UB r = upper_bound (r_mean r) (r_var r).

Lemma Forall_map_all {A B} (P : B -> Prop) (f : A -> B) l :
  (forall x, P (f x)) -> Forall P (map f l).
Proof. intros H. induction l; simpl; constructor; auto. Qed.

(** A fitted regression model with one training sequence. *)
Definition fitted_kernel : HammingKernel :=
  {| saved_seqs := [("a", "R")]; base_X := [("a", "R")] |}%string.
Definition fitted_model : obj HammingKernel vector :=
  <["kern" := VKern fitted_kernel]> (<["regr" := VBool true]>
  (<["X_seqs" := VFrame [("a", "R")]%string]>
  (<["normed_Y" := VSeries [("a"%string, 1)]]>
  (<["hypers" := VHypers [("var_n", 1); ("var_p", 1)]%string]>
  (<["_Ky" := VArr [[2]]]> (<["_L" := VArr [[1]]]>
  (<["_alpha" := VArr [[1]]]> ∅))))))).

Section Selection.

Context {K Mf : Type} {HK : GPKernel K} {HM : GPMean Mf}
        {HD : GPMeanDefault Mf} {NP : NumPyLinalg} {SP : SciPy}
        {SK : SkLearn}.

Local Abbreviation obj := (gmap string (value K Mf)).

Lemma batch_UB_bandit_frame (self self' : obj) sequences n predictions r :
  batch_UB_bandit sequences n predictions self = (Ok r, self') ->
  exists kern,
    self !! "kern" = Some (VKern kern) /\
    self' = <["kern" := VKern (train kern sequences)]> self.
Proof.
  intros Hrun. unfold batch_UB_bandit in Hrun.
  run_read Hrun oX HX. run_read Hrun oY HY. run_read Hrun cov HKy.
  run_read Hrun kern Hk. run_set Hrun.
  run_read Hrun h Hh. run_read Hrun df0 Hdf. run_read Hrun st Hst.
  run_lift Hrun picked Hp. apply ret_ok in Hrun as [_ ->].
  exists kern. split; [|done].
  unfold get_kern, getattr in Hk.
  destruct (self !! "kern") as [[]|]; try done. simpl in Hk. by injection Hk as ->.
Qed.

(** Whatever the outcome, only the kernel can have changed. *)
Lemma batch_UB_bandit_frame_any (self : obj) sequences n predictions name :
  name <> "kern"%string ->
  (batch_UB_bandit sequences n predictions self).2 !! name = self !! name.
Proof.
  intros Hne. unfold batch_UB_bandit, mbind_, reading, setattr, lift, ret.
  repeat match goal with
  | |- context [match ?c with Ok _ => _ | Raise _ => _ end] =>
      destruct c; simpl; try done
  end; by rewrite ?lookup_insert_ne.
Qed.

(** One-shot predictions of the candidates, in the order of the pool, as
    [(id, mean, variance)]: the mean of a candidate is [k . alpha] and its
    variance [k_star - v^T v] with [L v = k^T], where [k] holds its
    covariances with the training sequences [X] and [k_star] is its prior
    variance. *)
Definition one_shot_predictions (kern : K) (X : DataFrame)
    (alpha L : matrix) (h : vector) (sequences : DataFrame)
    (preds : list (ident * R * R)) : Prop :=
  length preds = length sequences /\
  forall i, (i < length sequences)%nat ->
    let s := nth i (index sequences) EmptyString in
    exists k k_star v,
      mapM (fun seq1 => calc_kernel kern s seq1 h) (index X) = Ok k /\
      calc_kernel kern s s h = Ok k_star /\
      wf (length X) 1 v /\ mmul L v = transpose [k] /\
      nth i preds (EmptyString, 0, 0)
      = (s, post_mean (length X) [k] alpha, post_var (length X) k_star v).

(** [p] is the first of [preds] with the largest
    [mean + 2 * sqrt(variance)], among the predictions whose variance is
    not negative. *)
Definition ranked_first (preds : list (ident * R * R))
    (p : ident * R * R) : Prop :=
  let ub q := snd (fst q) + 2 * sqrt (snd q) in
  exists l1 l2, preds = l1 ++ p :: l2 /\ 0 <= snd p /\
    Forall (fun q => 0 <= snd q -> ub q < ub p) l1 /\
    Forall (fun q => 0 <= snd q -> ub q <= ub p) l2.

Definition init_row (ids : list ident) (P : matrix) (k_stars : vector)
    (ks : list matrix) (i : nat) : row :=
  {| r_id := nth i ids EmptyString;
     r_mean := nth 0 (nth i P []) 0;
     r_var := nth 1 (nth i P []) 0;
     r_UB := upper_bound (nth 0 (nth i P []) 0) (nth 1 (nth i P []) 0);
     r_k_star := nth i k_stars 0;
     r_k := nth i ks [] |}.

Lemma column_spec P j c :
  column P j = Ok c ->
  P <> [] /\ (j < ncols P)%nat /\
  c = map (fun i => nth j (nth i P []) 0) (seq 0 (length P)).
Proof.
  unfold column. destruct P as [|r P]; [done|].
  destruct (Nat.ltb_spec j (ncols (r :: P))); [|done].
  intros [= <-]. repeat split; [done|done|].
  rewrite <- (map_map (fun i => nth i (r :: P) []) (fun r0 => nth j r0 0)).
  by rewrite <- list_as_map.
Qed.

Lemma bandit_init_spec (self : obj) sequences h df0 :
  bandit_init self sequences h None = Ok df0 ->
  exists kern k_stars ks P,
    get_kern self = Ok kern /\
    mapM (fun ns => calc_kernel kern ns ns h) (index sequences) = Ok k_stars /\
    mapM (k_vector self kern h) (index sequences) = Ok ks /\
    mapM (fun '(k, k_star) => _predict self k k_star None None false)
         (zip ks k_stars) = Ok P /\
    sequences <> [] /\ length P = length sequences /\ ncols P = 2%nat /\
    df0 = map (init_row (index sequences) P k_stars ks)
              (seq 0 (length sequences)).
Proof.
  intros Hinit. unfold bandit_init in Hinit.
  apply bind_ok in Hinit as (kern & Hk & Hinit).
  apply bind_ok in Hinit as (k_stars & Hks & Hinit).
  apply bind_ok in Hinit as (ks & Hkv & Hinit).
  apply bind_ok in Hinit as (P & HP & Hinit).
  apply bind_ok in Hinit as ([[means vars] UBs] & Hcols & Hinit).
  destruct (Nat.eqb_spec (length P) (length sequences)) as [Hlen|]; [|done].
  destruct (Nat.eqb_spec (ncols P) 2) as [Hnc|]; [|done].
  simpl in Hinit. injection Hinit as <-.
  unfold mean_var_UB in Hcols.
  apply bind_ok in Hcols as (c0 & Hc0 & Hcols).
  apply bind_ok in Hcols as (c1 & Hc1 & Hcols).
  injection Hcols as <- <- <-.
  apply column_spec in Hc0 as (HPne & _ & ->).
  apply column_spec in Hc1 as (_ & _ & ->).
  exists kern, k_stars, ks, P.
  pose proof (mapM_length _ _ _ Hks) as Hl1.
  pose proof (mapM_length _ _ _ Hkv) as Hl2.
  unfold index in Hl1, Hl2. rewrite length_map in Hl1, Hl2.
  repeat split; try done.
  { intros ->. by destruct P. }
  rewrite Hlen.
  rewrite (list_as_map (index sequences) EmptyString) at 1.
  rewrite (list_as_map k_stars 0) at 1.
  rewrite (list_as_map ks []) at 1.
  unfold index at 2. rewrite length_map, Hl1, Hl2.
  rewrite !zip_with_map, map_map. reflexivity.
Qed.

Lemma _predict_shape (self : obj) k k_star oa oL u p :
  _predict self k k_star oa oL u = Ok p ->
  (get_bool self "regr" = Ok true /\ exists m v, p = [m; v]) \/
  (get_bool self "regr" = Ok false /\ exists a b c, p = [a; b; c]).
Proof.
  unfold _predict. intros Hp.
  apply bind_ok in Hp as ([|] & Hr & Hp); [left|right]; (split; [done|]).
  - repeat (apply bind_ok in Hp as (? & ? & Hp)).
    destruct u; repeat (apply bind_ok in Hp as (? & ? & Hp));
      injection Hp as <-; eauto.
  - repeat (apply bind_ok in Hp as (? & ? & Hp)). injection Hp as <-. eauto.
Qed.

Lemma nth_zip {A B} (l1 : list A) (l2 : list B) i d1 d2 :
  length l1 = length l2 ->
  nth i (zip l1 l2) (d1, d2) = (nth i l1 d1, nth i l2 d2).
Proof.
  revert l2 i. induction l1 as [|a l1 IH]; intros [|b l2] i Hlen;
    simpl in *; try lia.
  - by destruct i.
  - destruct i; [done|]. apply IH. lia.
Qed.

(** The label, the mean and the variance of a row. *)
Definition prediction_of (r : row) : ident * R * R :=
  (r_id r, r_mean r, r_var r).

(** The first row with the largest upper bound holds the prediction that
    is ranked first. *)
Lemma first_max_ranked l r :
  Forall bounded l -> first_max l r ->
  ranked_first (map prediction_of l) (prediction_of r).
Proof.
  intros Hb (u & l1 & l2 & -> & Hu & H1 & H2).
  apply Forall_app in Hb as [Hb1 Hb2].
  inversion Hb2 as [|? ? Hbr Hb2']; subst.
  unfold bounded, upper_bound in Hbr. rewrite Hbr in Hu.
  destruct (Rle_dec 0 (r_var r)) as [Hv|]; [|done]. injection Hu as <-.
  exists (map prediction_of l1), (map prediction_of l2).
  split; [by rewrite map_app|]. split; [done|].
  split; apply Forall_map.
  - eapply Forall_impl; [apply Forall_and; split; [exact Hb1|exact H1]|].
    intros x [Hbx Hx] Hvx. simpl in *.
    unfold bounded, upper_bound in Hbx.
    destruct (Rle_dec 0 (r_var x)); [|done].
    specialize (Hx _ Hbx). lra.
  - eapply Forall_impl; [apply Forall_and; split; [exact Hb2'|exact H2]|].
    intros x [Hbx Hx] Hvx. simpl in *.
    unfold bounded, upper_bound in Hbx.
    destruct (Rle_dec 0 (r_var x)); [|done].
    specialize (Hx _ Hbx). lra.
Qed.

(** The frame before the first selection holds the one-shot predictions
    of the candidates, and the upper bound of each. *)
Lemma bandit_init_one_shot (self : obj) sequences h df0 kern X alpha L :
  lstsq_solves ->
  self !! "regr" = Some (VBool true) ->
  self !! "X_seqs" = Some (VFrame X) ->
  self !! "_alpha" = Some (VArr alpha) ->
  self !! "_L" = Some (VArr L) ->
  self !! "kern" = Some (VKern kern) ->
  (0 < length X)%nat -> wf (length X) (length X) L ->
  lower_triangular L -> nonzero_diag (length X) L ->
  wf (length X) 1 alpha ->
  bandit_init self sequences h None = Ok df0 ->
  one_shot_predictions kern X alpha L h sequences (map prediction_of df0) /\
  Forall bounded df0.
Proof.
  intros Hls Hregr HX Ha HL Hkern Hn HwL Hlow Hd Hwa Hinit.
  destruct (bandit_init_spec _ _ _ _ Hinit)
    as (kern' & k_stars & ks & P & Hk & Hks & Hkv & HP & Hne & Hlen & Hnc & ->).
  unfold get_kern, getattr in Hk. rewrite Hkern in Hk. simpl in Hk.
  injection Hk as <-.
  split; [|by apply Forall_map_all].
  split; [by rewrite !length_map, length_seq|].
  intros i Hi s.
  assert (Hi' : (i < length (index sequences))%nat)
    by (unfold index; by rewrite length_map).
  pose proof (mapM_nth _ _ _ i EmptyString [] Hkv Hi') as Hki.
  pose proof (mapM_nth _ _ _ i EmptyString 0 Hks Hi') as Hksi.
  fold s in Hki, Hksi.
  unfold k_vector, get_frame, getattr in Hki. rewrite HX in Hki.
  simpl in Hki. apply bind_ok in Hki as (k & Hk & Hki).
  injection Hki as Hki.
  pose proof (mapM_length _ _ _ Hks) as Hl1.
  pose proof (mapM_length _ _ _ Hkv) as Hl2.
  assert (Hiz : (i < length (zip ks k_stars))%nat)
    by (rewrite length_zip; lia).
  pose proof (mapM_nth _ _ _ i ([], 0) [] HP Hiz) as Hp.
  rewrite (nth_zip ks k_stars) in Hp by lia. cbn beta iota in Hp.
  assert (Hp' : _predict self [k] (nth i k_stars 0) None None false
                = Ok (nth i P [])) by (rewrite Hki; exact Hp).
  clear Hp. rename Hp' into Hp.
  assert (Hwk : wf 1 (length X) [k]).
  { split; [done|]. repeat constructor.
    rewrite (mapM_length _ _ _ Hk). unfold index. by rewrite length_map. }
  destruct (Hls (length X) L (transpose [k])) as (v & Hv & Hwv & Hsol);
    [done|by apply (wf_transpose 1); [|lia]|by left|done|].
  rewrite (_predict_regr self (length X) [k] (nth i k_stars 0) None None
             alpha L v false) in Hp by done.
  injection Hp as Hp.
  exists k, (nth i k_stars 0), v.
  split; [done|]. split; [done|]. split; [done|]. split; [done|].
  rewrite map_map. rewrite (nth_map_seq _ 0) by done.
  unfold prediction_of, init_row. cbn [r_id r_mean r_var Nat.add].
  pose proof (f_equal (fun p => nth 0 p 0) Hp) as H0.
  pose proof (f_equal (fun p => nth 1 p 0) Hp) as H1.
  cbn [nth] in H0, H1.
  unfold s. f_equal; [f_equal|]; symmetry; [exact H0|exact H1].
Qed.

(** C7.  For a fitted model with training sequences [X], weights
    [alpha] and Cholesky factor [L], a run of [batch_UB_bandit] with
    [n = 1] returns the candidate that is ranked first, by
    [mean + 2 * sqrt(variance)], among the one-shot predictions of every
    candidate against the kernel trained on the candidates; the row the
    run selected holds the mean and the variance of that prediction.  (A
    run that returns is a run of a regression model.) *)
Theorem C7_single_selection_is_one_shot (self self' : obj) sequences
    picked ids X alpha L hy :
  lstsq_solves ->
  self !! "X_seqs" = Some (VFrame X) ->
  self !! "_alpha" = Some (VArr alpha) ->
  self !! "_L" = Some (VArr L) ->
  self !! "hypers" = Some (VHypers hy) ->
  (0 < length X)%nat -> wf (length X) (length X) L ->
  lower_triangular L -> nonzero_diag (length X) L ->
  wf (length X) 1 alpha ->
  batch_UB_bandit sequences 1 None self = (Ok (picked, ids), self') ->
  exists kern preds id m v df0 r,
    self !! "kern" = Some (VKern kern) /\
    self !! "regr" = Some (VBool true) /\
    one_shot_predictions (train kern sequences) X alpha L (tl (values hy))
      sequences preds /\
    ranked_first preds (id, m, v) /\
    ids = [id] /\ loc sequences [id] = Ok picked /\
    bandit_init self' sequences (tl (values hy)) None = Ok df0 /\
    first_max df0 r /\ r_id r = id /\ r_mean r = m /\ r_var r = v.
Proof.
  intros Hls HX Ha HL Hhy Hn HwL Hlow Hd Hwa Hrun.
  unfold batch_UB_bandit in Hrun.
  run_read Hrun oX HoX. run_read Hrun oY HY. run_read Hrun cov HKy.
  run_read Hrun kern0 Hk0. run_set Hrun.
  run_read Hrun h Hh. run_read Hrun df0 Hdf. run_read Hrun st Hst.
  run_lift Hrun pk Hp. apply ret_ok in Hrun as [[= -> ->] ->].
  set (self1 := <["kern" := VKern (train kern0 sequences)]> self) in *.
  unfold get_kern, getattr in Hk0.
  destruct (self !! "kern") as [[]|] eqn:Hkern; try done.
  simpl in Hk0. injection Hk0 as ->.
  assert (Hregr : self !! "regr" = Some (VBool true)).
  { destruct (bandit_init_spec _ _ _ _ Hdf)
      as (kern' & k_stars & ks & P & _ & Hks & Hkv & HP & Hne & _ & Hnc & _).
    destruct sequences as [|s0 sequences]; [done|].
    pose proof (mapM_length _ _ _ Hks) as Hl1.
    pose proof (mapM_length _ _ _ Hkv) as Hl2.
    assert (Hpos : (0 < length (zip ks k_stars))%nat)
      by (rewrite length_zip; simpl in *; lia).
    pose proof (mapM_nth _ _ _ 0%nat ([], 0) [] HP Hpos) as H0.
    rewrite (nth_zip ks k_stars) in H0 by lia. cbn beta iota in H0.
    apply _predict_shape in H0 as [[Hr _]|[_ (a & b & c & Hp0)]].
    - unfold get_bool, getattr, self1 in Hr.
      rewrite lookup_insert_ne in Hr by done.
      destruct (self !! "regr") as [[]|]; try done.
      simpl in Hr. by injection Hr as ->.
    - unfold ncols in Hnc. destruct P as [|p0 P]; [done|]. simpl in *.
      subst p0. done. }
  unfold kernel_hypers, get_bool, get_hypers, getattr in Hh.
  unfold self1 in Hh. rewrite !lookup_insert_ne in Hh by done.
  rewrite Hregr, Hhy in Hh. simpl in Hh. injection Hh as <-.
  fold self1 in Hdf, Hst.
  destruct (bandit_init_one_shot self1 sequences (tl (values hy)) df0
              (train kern0 sequences) X alpha L) as [Hone Hb]; try done;
    try (unfold self1; by lookup_attr).
  simpl in Hst. apply bind_ok in Hst as (id_max & Hmax & Hst).
  injection Hst as <-. cbn [selected app] in Hp |- *.
  apply idxmax_first_max in Hmax as (r & Hr & <-).
  exists kern0, (map prediction_of df0), (r_id r), (r_mean r), (r_var r),
    df0, r.
  split; [done|]. split; [done|]. split; [done|].
  split; [by apply (first_max_ranked df0 r)|].
  by repeat split.
Qed.

(** The attributes the claim names. *)
Definition stored : list string :=
  ["X_seqs"; "normed_Y"; "_Ky"; "_L"; "_alpha"; "hypers"; "_K"; "Y";
   "mean"; "std"; "variances"; "regr"; "ML"; "log_p"; "_ell"; "objective";
   "guesses"; "mean_func"]%string.

(** C10.  When [batch_UB_bandit] returns, every attribute of the model is
    what it was before the call, the training set, the normalized
    outputs, the covariance artifacts and the hyperparameters among them;
    the kernel is the kernel trained on the candidates, which are not
    deleted from it again. *)
Theorem C10_batch_UB_bandit_frame (self self' : obj) sequences n
    predictions r :
  batch_UB_bandit sequences n predictions self = (Ok r, self') ->
  exists kern,
    self !! "kern" = Some (VKern kern) /\
    self' = <["kern" := VKern (train kern sequences)]> self /\
    Forall (fun name => self' !! name = self !! name) stored /\
    forall name, name <> "kern"%string -> self' !! name = self !! name.
Proof.
  intros Hrun.
  destruct (batch_UB_bandit_frame _ _ _ _ _ _ Hrun) as (kern & Hk & ->).
  exists kern. split; [done|]. split; [done|]. split.
  - unfold stored. repeat constructor; by rewrite lookup_insert_ne.
  - intros name Hne. by rewrite lookup_insert_ne.
Qed.

End Selection.

Lemma fitted_model_single_run :
  batch_UB_bandit (HK := hamming_kernel) (NP := numpy_ref)
    (SP := scipy_stub) [("b", "K")]%string 1 None fitted_model
  = (Ok ([("b", "K")]%string, ["b"%string]),
     <["kern" := VKern (train (GPKernel := hamming_kernel) fitted_kernel
                          [("b", "K")]%string)]> fitted_model).
Proof.
  unfold batch_UB_bandit, mbind_, reading, setattr, lift, ret.
  change (get_frame fitted_model "X_seqs")
    with (Ok (A := DataFrame) [("a", "R")]%string).
  cbn iota beta.
  change (get_series fitted_model "normed_Y")
    with (Ok (A := Series) [("a"%string, 1)]).
  cbn iota beta.
  change (get_arr fitted_model "_Ky") with (Ok (A := matrix) [[2]]).
  cbn iota beta.
  change (get_kern fitted_model)
    with (Ok (A := HammingKernel) fitted_kernel).
  cbn iota beta.
  set (self1 := <["kern" := VKern (train fitted_kernel [("b", "K")]%string)]>
                  fitted_model).
  change (kernel_hypers self1) with (Ok (A := vector) [1]).
  cbn iota beta.
  assert (Hinit : exists m v,
    bandit_init (HK := hamming_kernel) (NP := numpy_ref) (SP := scipy_stub)
      self1 [("b", "K")]%string [1] None
    = Ok [ {| r_id := "b"; r_mean := m; r_var := v;
              r_UB := upper_bound m v;
              r_k_star := hamming "K" "K" * 1;
              r_k := [[hamming "K" "R" * 1]] |} ] /\ 0 <= v).
  { do 2 eexists. split; [reflexivity|]. unfold hamming. repeat (unfold get, transpose, mk, ncols, nrows; simpl). lra. }
  destruct Hinit as (m & v & Hinit & Hv). rewrite Hinit. cbn iota beta.
  unfold seq, bandit_loop.
  cbn [idxmax df argmax r_UB]. unfold upper_bound.
  destruct (Rle_dec 0 v); [|done]. reflexivity.
Qed.

Lemma C10_batch_UB_bandit_frame_witness :
  let self' := <["kern" := VKern (train (GPKernel := hamming_kernel)
                   fitted_kernel [("b", "K")]%string)]> fitted_model in
  exists kern,
    fitted_model !! "kern" = Some (VKern kern) /\
    self' = <["kern" := VKern (train (GPKernel := hamming_kernel) kern
                                 [("b", "K")]%string)]> fitted_model /\
    Forall (fun name => self' !! name = fitted_model !! name) stored /\
    forall name, name <> "kern"%string ->
                 self' !! name = fitted_model !! name.
Proof.
  exact (C10_batch_UB_bandit_frame (HK := hamming_kernel) (NP := numpy_ref)
           (SP := scipy_stub) fitted_model _ [("b", "K")]%string 1 None _
           fitted_model_single_run).
Defined.

(* ================================================================== *)
(** * The rounds of the batch selection *)

Section Rounds.

Context {K Mf : Type} {HK : GPKernel K} {HM : GPMean Mf}
        {HD : GPMeanDefault Mf} {NP : NumPyLinalg} {SP : SciPy}
        {SK : SkLearn}.
Local Abbreviation obj := (gmap string (value K Mf)).

Definition no_row : row :=
  {| r_id := EmptyString; r_mean := 0; r_var := 0; r_UB := None;
     r_k_star := 0; r_k := [] |}.

(** Row [i] of the frame after an update: the candidate keeps its label
    and prior variance, its covariance vector is [ks_i], and its mean,
    variance and upper bound come from the prediction [P_i]. *)
Definition updated_row (df1 : list row) (ks : list matrix) (P : matrix)
    (i : nat) : row :=
  {| r_id := r_id (nth i df1 no_row);
     r_mean := nth 0 (nth i P []) 0;
     r_var := nth 1 (nth i P []) 0;
     r_UB := upper_bound (nth 0 (nth i P []) 0) (nth 1 (nth i P []) 0);
     r_k_star := r_k_star (nth i df1 no_row);
     r_k := nth i ks [] |}.

Lemma updated_frame (df1 : list row) (ks : list matrix) (P : matrix)
    means vars UBs :
  length ks = length df1 -> length P = length df1 ->
  mean_var_UB P = Ok (means, vars, UBs) ->
  P <> [] /\
  map (fun '(r, k, m, v, u) =>
         {| r_id := r_id r; r_mean := m; r_var := v; r_UB := u;
            r_k_star := r_k_star r; r_k := k |})
      (zip (zip (zip (zip df1 ks) means) vars) UBs)
  = map (updated_row df1 ks P) (seq 0 (length df1)).
Proof.
  intros Hl1 Hl3 Hcols. unfold mean_var_UB in Hcols.
  apply bind_ok in Hcols as (c0 & Hc0 & Hcols).
  apply bind_ok in Hcols as (c1 & Hc1 & Hcols).
  injection Hcols as <- <- <-.
  apply column_spec in Hc0 as (HPne & _ & ->).
  apply column_spec in Hc1 as (_ & _ & ->).
  split; [done|].
  rewrite (list_as_map df1 no_row) at 1.
  rewrite (list_as_map ks []) at 1. rewrite Hl1.
  repeat match goal with
  | |- context [@length ?T P] =>
      progress (replace (@length T P) with (length df1)
                  by (symmetry; exact Hl3))
  end.
  rewrite !zip_with_map, map_map. reflexivity.
Qed.

Lemma bandit_update_spec (self : obj) sequences h id_max st st' :
  bandit_update self sequences h id_max st = Ok st' ->
  let df1 := drop (df st) id_max in
  exists ks P,
    length ks = length df1 /\ length P = length df1 /\ df1 <> [] /\
    df st' = map (updated_row df1 ks P) (seq 0 (length df1)) /\
    selected st' = selected st.
Proof.
  intros Hup df1. unfold bandit_update in Hup.
  apply bind_ok in Hup as (picked & Hpk & Hup).
  apply bind_ok in Hup as (k0 & Hk0 & Hup).
  apply bind_ok in Hup as (Ky1 & HKy1 & Hup).
  apply bind_ok in Hup as (hy & Hhy & Hup).
  apply bind_ok in Hup as (var_n & Hvn & Hup).
  apply bind_ok in Hup as (new_column & Hnc & Hup).
  apply bind_ok in Hup as (Ky2 & HKy2 & Hup).
  apply bind_ok in Hup as (L & HL & Hup).
  apply bind_ok in Hup as (alpha & Hal & Hup).
  apply bind_ok in Hup as (kern & Hk & Hup).
  apply bind_ok in Hup as (ks & Hks & Hup).
  apply bind_ok in Hup as (P & HP & Hup).
  apply bind_ok in Hup as ([[means vars] UBs] & Hcols & Hup).
  injection Hup as <-. cbn [df selected].
  fold df1 in Hks, HP |- *.
  pose proof (mapM_length _ _ _ Hks) as Hl1.
  pose proof (mapM_length _ _ _ HP) as Hl2.
  assert (Hl3 : length P = length df1) by (rewrite Hl2, length_zip; lia).
  destruct (updated_frame df1 ks P means vars UBs Hl1 Hl3 Hcols)
    as [HPne Hrows].
  exists ks, P. repeat split; try done.
  intros Hd. rewrite Hd in Hl3. by destruct P.
Qed.

(** The state [st1] that the update reaches from [st] after the label
    [id] was selected.  The rows of the pool with that label join the
    observed sequences and the mean that the frame holds for it joins the
    observed outputs; the covariance grows by the row and the column of
    the selection, with its prior variance plus the noise [var_n] in the
    corner, and is factored again, and the weights are solved again.  The
    selected label has left the frame; every row that is left keeps its
    label and its prior variance, has its covariance with the selection
    appended to its covariance vector, and holds the mean and the variance
    that [_predict] returns for it with the new weights and the new
    factor, and their upper bound. *)
Definition updated (self : obj) (sequences : DataFrame) (h : vector)
    (st : bandit) (id : ident) (st1 : bandit) : Prop :=
  exists picked r0 others hy var_n Ky1 new_column L alpha kern,
    loc sequences [id] = Ok picked /\
    observed_X st1 = observed_X st ++ picked /\
    rows_at (df st) id = r0 :: others /\
    observed_Y st1
    = observed_Y st ++ map (fun r => (r_id r, r_mean r)) (r0 :: others) /\
    get_hypers self "hypers" = Ok hy /\ field hy "var_n" = Ok var_n /\
    append_rows (Ky st) (r_k r0) = Ok Ky1 /\
    append_cols (r_k r0) [map (fun r => r_k_star r + var_n) (r0 :: others)]
    = Ok new_column /\
    append_cols Ky1 (transpose new_column) = Ok (Ky st1) /\
    cholesky (Ky st1) = Ok L /\
    solve_alpha L (values (observed_Y st1)) = Ok alpha /\
    get_kern self = Ok kern /\
    map r_id (df st1) = map r_id (drop (df st) id) /\
    (forall i, (i < length (drop (df st) id))%nat ->
       let r := nth i (drop (df st) id) no_row in
       let r' := nth i (df st1) no_row in
       r_k_star r' = r_k_star r /\
       (exists c, calc_kernel kern (r_id r) id h = Ok c /\
                  append_cols (r_k r) [[c]] = Ok (r_k r')) /\
       (exists p,
          _predict self (r_k r') (r_k_star r') (Some alpha) (Some L) false
          = Ok p /\
          r_mean r' = nth 0 p 0 /\ r_var r' = nth 1 p 0) /\
       bounded r') /\
    selected st1 = selected st.

Lemma updated_ids df1 ks P :
  map r_id (map (updated_row df1 ks P) (seq 0 (length df1))) = map r_id df1.
Proof.
  transitivity (map r_id (map (fun i => nth i df1 no_row)
                              (seq 0 (length df1)))).
  - by rewrite !map_map.
  - by rewrite <- list_as_map.
Qed.

Lemma bandit_update_updated (self : obj) sequences h id st st1 :
  bandit_update self sequences h id st = Ok st1 ->
  updated self sequences h st id st1.
Proof.
  intros Hup. unfold bandit_update in Hup.
  apply bind_ok in Hup as (picked & Hpk & Hup).
  apply bind_ok in Hup as (k0 & Hk0 & Hup).
  apply bind_ok in Hup as (Ky1 & HKy1 & Hup).
  apply bind_ok in Hup as (hy & Hhy & Hup).
  apply bind_ok in Hup as (var_n & Hvn & Hup).
  apply bind_ok in Hup as (new_column & Hnc & Hup).
  apply bind_ok in Hup as (Ky2 & HKy2 & Hup).
  apply bind_ok in Hup as (L & HL & Hup).
  apply bind_ok in Hup as (alpha & Hal & Hup).
  apply bind_ok in Hup as (kern & Hk & Hup).
  apply bind_ok in Hup as (ks & Hks & Hup).
  apply bind_ok in Hup as (P & HP & Hup).
  apply bind_ok in Hup as ([[means vars] UBs] & Hcols & Hup).
  injection Hup as <-.
  destruct (rows_at (df st) id) as [|r0 others] eqn:Hat; [done|].
  injection Hk0 as <-.
  set (df1 := drop (df st) id) in *.
  pose proof (mapM_length _ _ _ Hks) as Hl1.
  pose proof (mapM_length _ _ _ HP) as Hl2.
  assert (Hl3 : length P = length df1) by (rewrite Hl2, length_zip; lia).
  destruct (updated_frame df1 ks P means vars UBs Hl1 Hl3 Hcols)
    as [HPne Hrows].
  exists picked, r0, others, hy, var_n, Ky1, new_column, L, alpha, kern.
  cbn [observed_X observed_Y Ky df selected]. rewrite Hrows.
  split; [done|]. split; [done|]. split; [done|]. split; [done|].
  split; [done|]. split; [done|]. split; [done|]. split; [done|].
  split; [done|]. split; [done|]. split; [done|]. split; [done|].
  split; [apply updated_ids|]. split; [|done].
  intros i Hi. fold df1 in Hi |- *.
  rewrite !(nth_map_seq _ 0) by done. cbn [Nat.add].
  unfold bounded, updated_row. cbn [r_k_star r_k r_mean r_var r_UB].
  split; [done|]. split.
  { pose proof (mapM_nth _ _ _ i no_row [] Hks Hi) as Hki.
    cbn beta in Hki. apply bind_ok in Hki as (c & Hc & Hki). by exists c. }
  split; [|reflexivity].
  assert (Hiz : (i < length (zip ks df1))%nat) by (rewrite length_zip; lia).
  pose proof (mapM_nth _ _ _ i ([], no_row) [] HP Hiz) as Hp.
  rewrite (nth_zip ks df1) in Hp by lia. cbn beta iota in Hp.
  by exists (nth i P []).
Qed.

Definition pick (st : bandit) (id_max : ident) : bandit :=
  {| observed_X := observed_X st; observed_Y := observed_Y st;
     Ky := Ky st; df := df st; selected := selected st ++ [id_max] |}.

(** The rounds of a returning loop: in each round the first row with the
    largest upper bound is selected; in every round but round [n - 1] the
    update removes the selected label from the frame and predicts the
    rows that are left again. *)
Inductive selects (self : obj) (sequences : DataFrame) (h : vector)
    (n : nat) : list nat -> bandit -> list ident -> bandit -> Prop :=
  | selects_done st : selects self sequences h n [] st [] st
  | selects_last i rounds st r ids st' :
      i = (n - 1)%nat ->
      first_max (df st) r ->
      selects self sequences h n rounds (pick st (r_id r)) ids st' ->
      selects self sequences h n (i :: rounds) st (r_id r :: ids) st'
  | selects_next i rounds st r st1 ids st' :
      i <> (n - 1)%nat ->
      first_max (df st) r ->
      updated self sequences h (pick st (r_id r)) (r_id r) st1 ->
      selects self sequences h n rounds st1 ids st' ->
      selects self sequences h n (i :: rounds) st (r_id r :: ids) st'.

Lemma bandit_loop_selects (self : obj) sequences h n rounds : forall st st',
  bandit_loop self sequences h n rounds st = Ok st' ->
  exists ids,
    selects self sequences h n rounds st ids st' /\
    selected st' = selected st ++ ids /\
    length ids = length rounds.
Proof.
  induction rounds as [|i rounds IH]; intros st st' Hloop; simpl in Hloop.
  - injection Hloop as <-. exists []. split; [constructor|].
    by rewrite app_nil_r.
  - apply bind_ok in Hloop as (id_max & Hmax & Hloop).
    apply bind_ok in Hloop as (st1 & Hst1 & Hloop).
    apply idxmax_first_max in Hmax as (r & Hr & <-).
    apply IH in Hloop as (ids & Hsel & Hids & Hlen).
    exists (r_id r :: ids).
    destruct (Nat.eqb_spec i (n - 1)) as [Hi|Hi]; simpl in Hst1.
    + injection Hst1 as <-. split; [by apply selects_last|].
      split; [|simpl; lia]. rewrite Hids. simpl. by rewrite <- app_assoc.
    + destruct (bandit_update_spec _ _ _ _ _ _ Hst1)
        as (ks & P & _ & _ & _ & Hdf & Hs).
      split; [|split; [|simpl; lia]].
      * eapply selects_next; try done. by apply bandit_update_updated.
      * rewrite Hids, Hs. simpl. by rewrite <- app_assoc.
Qed.

Lemma drop_shorter l r : r ∈ l -> (length (drop l (r_id r)) < length l)%nat.
Proof.
  intros Hr. unfold drop. apply (length_filter_lt _ _ r); [done|].
  rewrite String.eqb_refl. simpl. tauto.
Qed.

(** When fewer candidates are left than rounds remain, the loop raises. *)
Lemma bandit_loop_exhausted (self : obj) sequences h n k : forall i st,
  (i + k = n)%nat -> (length (df st) < k)%nat ->
  exists e, bandit_loop self sequences h n (seq i k) st = Raise e.
Proof.
  induction k as [|k IH]; intros i st Hik Hlen; [lia|].
  simpl. destruct (idxmax (df st)) as [id_max|e] eqn:Hmax; [|by exists e].
  cbn [bind].
  apply idxmax_first_max in Hmax as (r & Hr & <-).
  destruct (Nat.eqb_spec i (n - 1)) as [Hi|Hi]; cbn [negb].
  { apply first_max_in in Hr. destruct (df st); [by inversion Hr|].
    simpl in Hlen. lia. }
  destruct (bandit_update self sequences h (r_id r) _) as [st1|e] eqn:Hup;
    [|by exists e].
  cbn [bind]. apply IH; [lia|].
  destruct (bandit_update_spec _ _ _ _ _ _ Hup)
    as (ks & P & _ & _ & _ & Hdf & _).
  rewrite Hdf, length_map, length_seq. cbn [df].
  pose proof (drop_shorter _ _ (first_max_in _ _ Hr)). lia.
Qed.

(** The frame before the first round has one row per candidate, in the
    order of the candidates. *)
Lemma bandit_init_rows (self : obj) sequences h predictions df0 :
  bandit_init self sequences h predictions = Ok df0 ->
  exists k_stars ks P,
    df0 = map (init_row (index sequences) P k_stars ks)
              (seq 0 (length sequences)).
Proof.
  intros Hinit. unfold bandit_init in Hinit.
  apply bind_ok in Hinit as (kern & Hk & Hinit).
  apply bind_ok in Hinit as (k_stars & Hks & Hinit).
  apply bind_ok in Hinit as (ks & Hkv & Hinit).
  apply bind_ok in Hinit as (P & HP & Hinit).
  apply bind_ok in Hinit as ([[means vars] UBs] & Hcols & Hinit).
  destruct (Nat.eqb_spec (length P) (length sequences)) as [Hlen|]; [|done].
  destruct (Nat.eqb_spec (ncols P) 2) as [Hnc|]; [|done].
  simpl in Hinit. injection Hinit as <-.
  unfold mean_var_UB in Hcols.
  apply bind_ok in Hcols as (c0 & Hc0 & Hcols).
  apply bind_ok in Hcols as (c1 & Hc1 & Hcols).
  injection Hcols as <- <- <-.
  apply column_spec in Hc0 as (HPne & _ & ->).
  apply column_spec in Hc1 as (_ & _ & ->).
  exists k_stars, ks, P.
  pose proof (mapM_length _ _ _ Hks) as Hl1.
  pose proof (mapM_length _ _ _ Hkv) as Hl2.
  unfold index in Hl1, Hl2. rewrite length_map in Hl1, Hl2.
  rewrite Hlen.
  rewrite (list_as_map (index sequences) EmptyString) at 1.
  rewrite (list_as_map k_stars 0) at 1.
  rewrite (list_as_map ks []) at 1.
  unfold index at 2. rewrite length_map, Hl1, Hl2.
  rewrite !zip_with_map, map_map. reflexivity.
Qed.

Lemma init_ids ids P k_stars ks :
  map r_id (map (init_row ids P k_stars ks) (seq 0 (length ids))) = ids.
Proof.
  transitivity (map (fun i => nth i ids EmptyString) (seq 0 (length ids))).
  - by rewrite map_map.
  - by rewrite <- list_as_map.
Qed.

Definition start (X : DataFrame) (nY : Series) (cov : matrix)
    (df0 : list row) : bandit :=
  {| observed_X := X; observed_Y := nY; Ky := cov; df := df0;
     selected := [] |}.

(** Asking for more selections than there are candidates raises. *)
Lemma batch_UB_bandit_exhausted (self : obj) sequences n predictions :
  (length sequences < n)%nat ->
  exists e, (batch_UB_bandit sequences n predictions self).1 = Raise e.
Proof.
  intros Hn. unfold batch_UB_bandit, mbind_, reading, setattr.
  destruct (get_frame self "X_seqs") as [X|e]; [|by exists e].
  destruct (get_series self "normed_Y") as [nY|e]; [|by exists e].
  destruct (get_arr self "_Ky") as [cov|e]; [|by exists e].
  destruct (get_kern self) as [kern|e]; [|by exists e].
  destruct (kernel_hypers _) as [h|e]; [|by exists e].
  destruct (bandit_init _ _ _ _) as [df0|e] eqn:Hinit; [|by exists e].
  apply bandit_init_rows in Hinit as (k_stars & ks & P & ->).
  destruct (bandit_loop_exhausted
              (<["kern" := VKern (train kern sequences)]> self)
              sequences h n n 0%nat
              {| observed_X := X; observed_Y := nY; Ky := cov;
                 df := map (init_row (index sequences) P k_stars ks)
                           (seq 0 (length sequences));
                 selected := [] |}) as [e He];
    [lia|simpl; rewrite length_map, length_seq; lia|].
  rewrite He. by exists e.
Qed.

Lemma batch_UB_bandit_selects (self self' : obj) sequences n predictions
    picked ids :
  batch_UB_bandit sequences n predictions self = (Ok (picked, ids), self') ->
  exists X nY cov h df0 st',
    self' !! "X_seqs" = Some (VFrame X) /\
    self' !! "normed_Y" = Some (VSeries nY) /\
    self' !! "_Ky" = Some (VArr cov) /\
    kernel_hypers self' = Ok h /\
    bandit_init self' sequences h predictions = Ok df0 /\
    map r_id df0 = index sequences /\ Forall bounded df0 /\
    selects self' sequences h n (seq 0 n) (start X nY cov df0) ids st' /\
    length ids = n /\ (n <= length sequences)%nat /\
    loc sequences ids = Ok picked.
Proof.
  intros Hrun.
  assert (Hn : (n <= length sequences)%nat).
  { destruct (Nat.le_gt_cases n (length sequences)) as [|Hlt]; [done|].
    destruct (batch_UB_bandit_exhausted self sequences n predictions Hlt)
      as [e He]. by rewrite Hrun in He. }
  unfold batch_UB_bandit in Hrun.
  run_read Hrun X HX. run_read Hrun nY HY. run_read Hrun cov HKy.
  run_read Hrun kern0 Hk0. run_set Hrun.
  run_read Hrun h Hh. run_read Hrun df0 Hdf. run_read Hrun st Hst.
  run_lift Hrun pk Hp. apply ret_ok in Hrun as [[= -> ->] ->].
  apply bandit_loop_selects in Hst as (ids & Hsel & Hids & Hlen).
  simpl in Hids. rewrite Hids in Hp |- *. rewrite length_seq in Hlen.
  exists X, nY, cov, h, df0, st.
  unfold get_frame, get_series, get_arr, getattr in HX, HY, HKy.
  rewrite !lookup_insert_ne by done.
  destruct (self !! "X_seqs") as [[]|]; try done.
  destruct (self !! "normed_Y") as [[]|]; try done.
  destruct (self !! "_Ky") as [[]|]; try done.
  simpl in HX, HY, HKy. injection HX as ->. injection HY as ->.
  injection HKy as ->.
  destruct (bandit_init_rows _ _ _ _ _ Hdf) as (k_stars & ks & P & Hrows).
  repeat split; try done; rewrite Hrows.
  - replace (length sequences) with (length (index sequences))
      by (unfold index; apply length_map).
    apply init_ids.
  - by apply Forall_map_all.
Qed.

(** C6.  A run of [batch_UB_bandit] that returns has made [n] selections,
    one in each of the rounds [0 .. n - 1]: the frame starts with one row
    per candidate, in the order of the pool, whose upper bound is
    [mean + 2 * sqrt(variance)]; every round selects the first row with
    the largest upper bound; after every round but the last the selected
    label is removed from the frame, the selection joins the observations,
    the covariance is extended and factored again, and every row that is
    left is predicted again with the new weights and factor.  The
    identifiers are returned in the order of selection together with their
    sequences, and [n] is at most the size of the pool.  When [n] exceeds
    the size of the pool the run does not stop early with the candidates
    it has: it raises. *)
Theorem C6_batch_UB_bandit_rounds (self : obj) sequences n predictions :
  (forall picked ids self',
     batch_UB_bandit sequences n predictions self
       = (Ok (picked, ids), self') ->
     exists X nY cov h df0 st',
       self' !! "X_seqs" = Some (VFrame X) /\
       self' !! "normed_Y" = Some (VSeries nY) /\
       self' !! "_Ky" = Some (VArr cov) /\
       kernel_hypers self' = Ok h /\
       bandit_init self' sequences h predictions = Ok df0 /\
       map r_id df0 = index sequences /\ Forall bounded df0 /\
       selects self' sequences h n (seq 0 n) (start X nY cov df0) ids st' /\
       length ids = n /\ (n <= length sequences)%nat /\
       loc sequences ids = Ok picked) /\
  ((length sequences < n)%nat ->
   exists e, (batch_UB_bandit sequences n predictions self).1 = Raise e).
Proof.
  split.
  - intros picked ids self' Hrun. by eapply batch_UB_bandit_selects.
  - apply batch_UB_bandit_exhausted.
Qed.

End Rounds.

(** ** The reference library on small arrays *)

Lemma length_back_subst U b n : length (back_subst U b n) = n.
Proof. unfold back_subst. by rewrite length_rev, length_forward_subst. Qed.

(** The reference [lstsq] returns whenever the row counts agree. *)
Lemma lstsq_ref_total A b :
  nrows b = nrows A ->
  exists x, lstsq_ref A b = Ok x /\ nrows x = nrows A.
Proof.
  intros Hrows. unfold lstsq_ref. rewrite Hrows, Nat.eqb_refl. cbn [negb].
  destruct (is_lower _ _); eexists; (split; [reflexivity|]);
    unfold nrows, col; rewrite length_map.
  - apply length_forward_subst.
  - apply length_back_subst.
Qed.

Lemma solve_alpha_ref_total L Ys :
  wf (length Ys) (length Ys) L -> (0 < length Ys)%nat ->
  exists alpha, solve_alpha (NP := numpy_ref) L Ys = Ok alpha.
Proof.
  intros HL Hn. unfold solve_alpha. cbn [lstsq numpy_ref].
  destruct (lstsq_ref_total L (transpose (np_matrix Ys))) as (y & Hy & Hry).
  { rewrite transpose_row. unfold nrows, col. rewrite length_map. symmetry. apply HL. }
  rewrite Hy. cbn [bind].
  destruct (lstsq_ref_total (transpose L) y) as (a & Ha & _).
  { rewrite Hry. unfold transpose. rewrite nrows_mk. symmetry.
    rewrite (wf_nrows _ _ _ HL). by apply (wf_ncols _ _ _ HL). }
  rewrite Ha. eauto.
Qed.

(** The factor of a positive diagonal two-by-two array. *)
Lemma cholesky_ref_diag2 a d x y :
  x = 0 -> y = 0 -> 0 < a -> 0 < d ->
  exists L, cholesky_ref [[a; x]; [y; d]] = Ok L /\ wf 2 2 L.
Proof.
  intros -> -> Ha Hd.
  set (s := sqrt (a - 0)).
  assert (Hs : s * s = a) by (unfold s; rewrite sqrt_sqrt; lra).
  assert (Hs0 : 0 < s) by (unfold s; apply sqrt_lt_R0; lra).
  set (t := (0 - 0) / s).
  assert (Ht : t = 0) by (unfold t, Rdiv; lra).
  assert (HL : chol_rows [[a; 0]; [0; d]] 2 2
               = [[s; 0]; [t; sqrt (d - (0 + t * t))]]) by reflexivity.
  exists [[s; 0]; [t; sqrt (d - (0 + t * t))]].
  split; [|by repeat constructor].
  apply (cholesky_ref_ok 2); try done; try (by repeat constructor).
  - intros i j Hij. assert (i = 0%nat /\ j = 1%nat) as [-> ->] by lia.
    reflexivity.
  - intros i Hi. destruct i as [|[|i]]; [| |lia].
    + exact Hs0.
    + unfold get. simpl. apply sqrt_lt_R0. rewrite Ht. lra.
  - unfold mmul, transpose, get, mk, ncols, nrows. simpl. rewrite Ht.
    replace (0 + s * s + 0 * 0) with a by lra.
    replace (0 + s * 0 + 0 * sqrt (d - (0 + 0 * 0))) with 0 by lra.
    replace (0 + 0 * s + sqrt (d - (0 + 0 * 0)) * 0) with 0 by lra.
    replace (0 + 0 * 0 + sqrt (d - (0 + 0 * 0)) * sqrt (d - (0 + 0 * 0)))
      with d; [done|].
    rewrite sqrt_sqrt; lra.
Qed.

(** The factor and the inverse of a positive diagonal two-by-two array,
    in closed form. *)
Lemma cholesky_ref_diag2_factor a d :
  0 < a -> 0 < d ->
  cholesky_ref [[a; 0]; [0; d]]
  = Ok [[sqrt (a - 0); 0];
        [(0 - 0) / sqrt (a - 0);
         sqrt (d - (0 + (0 - 0) / sqrt (a - 0) * ((0 - 0) / sqrt (a - 0))))]].
Proof.
  intros Ha Hd.
  set (s := sqrt (a - 0)).
  assert (Hs : s * s = a) by (unfold s; rewrite sqrt_sqrt; lra).
  assert (Hs0 : 0 < s) by (unfold s; apply sqrt_lt_R0; lra).
  set (t := (0 - 0) / s).
  assert (Ht : t = 0) by (unfold t, Rdiv; lra).
  apply (cholesky_ref_ok 2); try done; try (by repeat constructor).
  - intros i j Hij. assert (i = 0%nat /\ j = 1%nat) as [-> ->] by lia.
    reflexivity.
  - intros i Hi. destruct i as [|[|i]]; [| |lia].
    + exact Hs0.
    + unfold get. simpl. apply sqrt_lt_R0. fold s. fold t. rewrite Ht. lra.
  - unfold mmul, transpose, get, mk, ncols, nrows. simpl. fold s. fold t.
    rewrite Ht.
    replace (0 + s * s + 0 * 0) with a by lra.
    replace (0 + s * 0 + 0 * sqrt (d - (0 + 0 * 0))) with 0 by lra.
    replace (0 + 0 * s + sqrt (d - (0 + 0 * 0)) * 0) with 0 by lra.
    replace (0 + 0 * 0 + sqrt (d - (0 + 0 * 0)) * sqrt (d - (0 + 0 * 0)))
      with d; [done|].
    rewrite sqrt_sqrt; lra.
Qed.

Ltac mat_eq :=
  repeat match goal with
  | |- _ :: _ = _ :: _ => apply f_equal2
  | |- @nil _ = @nil _ => reflexivity
  end.

Lemma inv_ref_diag2 a d x y :
  x = 0 -> y = 0 -> 0 < a -> 0 < d ->
  exists B, inv_ref [[a; x]; [y; d]] = Ok B.
Proof.
  intros -> -> Ha Hd. unfold inv_ref.
  rewrite cholesky_ref_diag2_factor by done.
  cbn [bind nrows length].
  set (s := sqrt (a - 0)).
  assert (Hs : s * s = a) by (unfold s; rewrite sqrt_sqrt; lra).
  assert (Hs0 : 0 < s) by (unfold s; apply sqrt_lt_R0; lra).
  set (t := (0 - 0) / s).
  assert (Ht : t = 0) by (unfold t, Rdiv; lra).
  set (u := sqrt (d - (0 + t * t))).
  match goal with |- context [has_shape 2 2 ?X] => set (B := X) end.
  unfold mk, back_subst, flip, transpose, mk, ncols, nrows in B. simpl in B.
  unfold get in B. simpl in B.
  assert (Hu : u * u = d) by (unfold u; rewrite sqrt_sqrt; rewrite Ht; lra).
  assert (Hu0 : 0 < u) by (unfold u; apply sqrt_lt_R0; rewrite Ht; lra).
  assert (HB : B = [[1 / a; 0]; [0; 1 / d]]).
  { unfold B. rewrite Ht, <- Hs, <- Hu.
    mat_eq; field; lra. }
  rewrite HB. exists [[1 / a; 0]; [0; 1 / d]].
  assert (H1 : mmul [[a; 0]; [0; d]] [[1 / a; 0]; [0; 1 / d]] = eye 2).
  { unfold mmul, eye, mk, get, ncols, nrows. simpl.
    mat_eq; field; lra. }
  assert (H2 : mmul [[1 / a; 0]; [0; 1 / d]] [[a; 0]; [0; d]] = eye 2).
  { unfold mmul, eye, mk, get, ncols, nrows. simpl.
    mat_eq; field; lra. }
  rewrite H1, H2, same_entries_refl. reflexivity.
Qed.

Lemma lstsq_ref_1 l b : lstsq_ref [[l]] [[b]] = Ok [[(b - 0) / l]].
Proof.
  unfold lstsq_ref. cbn [nrows length Nat.eqb negb].
  destruct (is_lower 1 [[l]]); reflexivity.
Qed.

Lemma sqrt_9 : sqrt 9 = 3.
Proof. replace 9 with (3 * 3) by lra. apply sqrt_square. lra. Qed.

Lemma sqrt_4 : sqrt 4 = 2.
Proof. replace 4 with (2 * 2) by lra. apply sqrt_square. lra. Qed.

(** The factor of [diag (9, 9)], and the solutions against it. *)
Lemma cholesky_ref_9 :
  cholesky_ref [[9; 0]; [0; 4 + 5]] = Ok [[3; 0]; [0; 3]].
Proof.
  apply (cholesky_ref_ok 2); try done; try (by repeat constructor).
  - change (chol_rows [[9; 0]; [0; 4 + 5]] 2 2)
      with [[sqrt (9 - 0); 0];
            [(0 - 0) / sqrt (9 - 0);
             sqrt (4 + 5 - (0 + (0 - 0) / sqrt (9 - 0)
                                * ((0 - 0) / sqrt (9 - 0))))]].
    replace (9 - 0) with 9 by lra. rewrite sqrt_9.
    replace ((0 - 0) / 3) with 0 by lra.
    replace (4 + 5 - (0 + 0 * 0)) with 9 by lra. by rewrite sqrt_9.
  - intros i j Hij. assert (i = 0%nat /\ j = 1%nat) as [-> ->] by lia.
    reflexivity.
  - intros i Hi. destruct i as [|[|i]]; [| |lia]; unfold get; simpl; lra.
  - unfold mmul, transpose, get, mk, ncols, nrows. simpl.
    replace (0 + 3 * 3 + 0 * 0) with 9 by lra.
    replace (0 + 3 * 0 + 0 * 3) with 0 by lra.
    replace (0 + 0 * 3 + 3 * 0) with 0 by lra.
    by replace (0 + 0 * 0 + 3 * 3) with (4 + 5) by lra.
Qed.

Lemma lstsq_ref_3 b1 b2 :
  lstsq_ref [[3; 0]; [0; 3]] [[b1]; [b2]] = Ok [[b1 / 3]; [b2 / 3]].
Proof.
  unfold lstsq_ref. cbn [nrows length Nat.eqb negb].
  rewrite (proj2 (is_lower_spec 2 [[3; 0]; [0; 3]])).
  2:{ intros i j Hij. assert (i = 0%nat /\ j = 1%nat) as [-> ->] by lia.
      reflexivity. }
  unfold col. simpl. unfold get. cbn [nth].
  replace ((b1 - 0) / 3) with (b1 / 3) by lra.
  by replace ((b2 - (0 + 0 * (b1 / 3))) / 3) with (b2 / 3) by lra.
Qed.

Lemma solve_alpha_3 y1 y2 :
  solve_alpha (NP := numpy_ref) [[3; 0]; [0; 3]] [y1; y2]
  = Ok [[y1 / 3 / 3]; [y2 / 3 / 3]].
Proof.
  unfold solve_alpha. cbn [lstsq numpy_ref].
  change (transpose (np_matrix [y1; y2])) with [[y1]; [y2]].
  rewrite lstsq_ref_3. cbn [bind].
  change (transpose [[3; 0]; [0; 3]]) with [[3; 0]; [0; 3]].
  apply lstsq_ref_3.
Qed.

(** ** Three candidates, two selections *)

(** A fitted regression model with the training sequence [RA], observed
    at the normalized output [1]: the noise is [5], the kernel variance
    [2], so that [Ky = [[9]]], [L = [[3]]] and [alpha = [[1/9]]]. *)
Definition pool_kernel : HammingKernel :=
  {| saved_seqs := [("a", "RA")]; base_X := [("a", "RA")] |}%string.
Definition pool_model : obj HammingKernel vector :=
  <["kern" := VKern pool_kernel]> (<["regr" := VBool true]>
  (<["X_seqs" := VFrame [("a", "RA")]%string]>
  (<["normed_Y" := VSeries [("a"%string, 1)]]>
  (<["hypers" := VHypers [("var_n", 5); ("var_p", 2)]%string]>
  (<["_Ky" := VArr [[9]]]> (<["_L" := VArr [[3]]]>
  (<["_alpha" := VArr [[1 / 9]]]> ∅))))))).

(** The candidates: [b] and [c] share no residue with the training
    sequence but one with each other, [d] shares one with the training
    sequence. *)
Definition pool : DataFrame := [("b", "KB"); ("c", "KC"); ("d", "RD")]%string.
Definition pool_trained : obj HammingKernel vector :=
  <["kern" := VKern (train (GPKernel := hamming_kernel) pool_kernel pool)]>
    pool_model.

Definition pool_row (i : ident) (m v k_star : R) (k : matrix) : row :=
  {| r_id := i; r_mean := m; r_var := v; r_UB := upper_bound m v;
     r_k_star := k_star; r_k := k |}.

(** Equality of arrays and rows, entry by entry. *)
Ltac entries :=
  repeat match goal with
  | |- Ok _ = Ok _ => apply f_equal
  | |- _ :: _ = _ :: _ => apply f_equal2
  | |- @nil _ = @nil _ => reflexivity
  | |- pool_row _ _ _ _ _ = pool_row _ _ _ _ _ => f_equal
  | |- Build_row _ _ _ _ _ _ = pool_row _ _ _ _ _ => unfold pool_row; f_equal
  | |- upper_bound _ _ = upper_bound _ _ => apply f_equal2
  | |- @eq R _ _ => unfold hamming, post_mean, post_var, get; simpl; lra
  end.

(** The prediction of a candidate from the fitted model. *)
Lemma pool_predict k k_star :
  _predict (NP := numpy_ref) (SP := scipy_stub)
    pool_trained [[k]] k_star None None false
  = Ok [post_mean 1 [[k]] [[1 / 9]]; post_var 1 k_star [[(k - 0) / 3]]].
Proof.
  apply (_predict_regr (NP := numpy_ref)
           (SP := scipy_stub) pool_trained 1 [[k]] k_star None None
           [[1 / 9]] [[3]] [[(k - 0) / 3]] false);
    try done; try (by repeat constructor);
    cbn [lstsq numpy_ref]; change (transpose [[k]]) with [[k]];
    apply lstsq_ref_1.
Qed.

(** The prediction of a candidate after one selection. *)
Lemma pool_predict_again k1 k2 k_star a1 a2 :
  _predict (NP := numpy_ref) (SP := scipy_stub)
    pool_trained [[k1; k2]] k_star (Some [[a1]; [a2]])
    (Some [[3; 0]; [0; 3]]) false
  = Ok [post_mean 2 [[k1; k2]] [[a1]; [a2]];
        post_var 2 k_star [[k1 / 3]; [k2 / 3]]].
Proof.
  apply (_predict_regr (NP := numpy_ref)
           (SP := scipy_stub) pool_trained 2 [[k1; k2]] k_star
           (Some [[a1]; [a2]]) (Some [[3; 0]; [0; 3]])
           [[a1]; [a2]] [[3; 0]; [0; 3]] [[k1 / 3]; [k2 / 3]] false);
    try done; try (by repeat constructor);
    cbn [lstsq numpy_ref]; change (transpose [[k1; k2]]) with [[k1]; [k2]];
    apply lstsq_ref_3.
Qed.

(** The frame before the first selection: [b] and [c] have the mean [0]
    and the variance [4], [d] the mean [2/9] and the variance [32/9]. *)
Definition pool_frame : list row :=
  [pool_row "b" 0 4 4 [[0]]; pool_row "c" 0 4 4 [[0]];
   pool_row "d" (2 / 9) (32 / 9) 4 [[2]]].

Lemma pool_init :
  bandit_init (HK := hamming_kernel) (NP := numpy_ref) (SP := scipy_stub)
    pool_trained pool [2] None = Ok pool_frame.
Proof.
  unfold bandit_init.
  change (get_kern pool_trained)
    with (Ok (A := HammingKernel) (train (GPKernel := hamming_kernel) pool_kernel pool)).
  cbn [bind].
  match goal with
  | |- context [mapM ?f (index pool)] =>
      assert (Hks : mapM f (index pool) = Ok [4; 4; 4])
  end.
  { transitivity (Ok (A := vector)
      [hamming "KB" "KB" * 2; hamming "KC" "KC" * 2; hamming "RD" "RD" * 2]);
      [reflexivity|entries]. }
  rewrite Hks. cbn [bind].
  assert (Hkv : mapM (k_vector (HK := hamming_kernel) pool_trained (train (GPKernel := hamming_kernel) pool_kernel pool) [2])
                     (index pool) = Ok [[[0]]; [[0]]; [[2]]]).
  { transitivity (Ok (A := list matrix)
      [[[hamming "KB" "RA" * 2]]; [[hamming "KC" "RA" * 2]];
       [[hamming "RD" "RA" * 2]]]); [reflexivity|entries]. }
  rewrite Hkv. cbn [bind].
  cbn [zip_with mapM]. rewrite !pool_predict. cbn [bind].
  unfold pool_frame.
  match goal with
  | |- context [mean_var_UB ?P] =>
      replace P with [[0; 4]; [0; 4]; [2 / 9; 32 / 9]] by (symmetry; entries)
  end.
  reflexivity.
Qed.

Lemma sqrt_32_9 : sqrt (32 / 9) <= 17 / 9.
Proof.
  replace (17 / 9) with (sqrt (17 / 9 * (17 / 9))) by (apply sqrt_square; lra).
  apply sqrt_le_1_alt. lra.
Qed.

Lemma upper_bound_some m v u :
  upper_bound m v = Some u -> 0 <= v /\ u = m + sqrt v * 2.
Proof.
  unfold upper_bound. destruct (Rle_dec 0 v); [|done].
  by intros [= <-].
Qed.

Lemma upper_bound_valid m v :
  0 <= v -> upper_bound m v = Some (m + sqrt v * 2).
Proof. intros Hv. unfold upper_bound. by destruct (Rle_dec 0 v). Qed.

(** In the first round [b] and [c] tie at the upper bound [4], above
    [d]: the first of the two is selected. *)
Lemma pool_first_round : first_max pool_frame (pool_row "b" 0 4 4 [[0]]).
Proof.
  exists (0 + sqrt 4 * 2), [], [pool_row "c" 0 4 4 [[0]];
                                pool_row "d" (2 / 9) (32 / 9) 4 [[2]]].
  split; [done|]. split; [apply upper_bound_valid; lra|].
  split; [constructor|].
  apply Forall_cons_2; [|apply Forall_cons_2; [|apply Forall_nil_2]];
    intros ux Hux; apply upper_bound_some in Hux as [_ ->].
  - lra.
  - pose proof sqrt_32_9. rewrite sqrt_4. lra.
Qed.

(** The frame after [b] was selected: the variance of [c], which shares a
    residue with [b], has dropped to [32/9]. *)
Definition pool_frame_1 : list row :=
  [pool_row "c" 0 (32 / 9) 4 [[0; 2]];
   pool_row "d" (2 / 9) (32 / 9) 4 [[2; 0]]].

Lemma pool_update sel :
  bandit_update (HK := hamming_kernel) (NP := numpy_ref) (SP := scipy_stub)
    pool_trained pool [2] "b"
    {| observed_X := [("a", "RA")]%string; observed_Y := [("a"%string, 1)];
       Ky := [[9]]; df := pool_frame; selected := sel |}
  = Ok {| observed_X := [("a", "RA"); ("b", "KB")]%string;
          observed_Y := [("a"%string, 1); ("b"%string, 0)];
          Ky := [[9; 0]; [0; 4 + 5]];
          df := pool_frame_1; selected := sel |}.
Proof.
  unfold bandit_update.
  cbn [observed_X observed_Y Ky df selected].
  change (loc pool ["b"%string])
    with (Ok (A := DataFrame) [("b", "KB")]%string).
  cbn [bind].
  change (rows_at pool_frame "b") with [pool_row "b" 0 4 4 [[0]]].
  cbn [bind r_k r_id r_mean map r_k_star pool_row app].
  change (drop pool_frame "b") with
    [pool_row "c" 0 4 4 [[0]]; pool_row "d" (2 / 9) (32 / 9) 4 [[2]]].
  change (append_rows [[9]] [[0]]) with (Ok (A := matrix) [[9]; [0]]).
  cbn [bind].
  change (get_hypers pool_trained "hypers")
    with (Ok (A := Hypers) [("var_n", 5); ("var_p", 2)]%string).
  cbn [bind].
  change (field _ "var_n") with (Ok (A := R) 5).
  cbn [bind].
  change (append_cols [[0]] [[4 + 5]]) with (Ok (A := matrix) [[0; 4 + 5]]).
  cbn [bind].
  change (append_cols _ (transpose _))
    with (Ok (A := matrix) [[9; 0]; [0; 4 + 5]]).
  cbn [bind].
  change (cholesky [[9; 0]; [0; 4 + 5]])
    with (cholesky_ref [[9; 0]; [0; 4 + 5]]).
  rewrite cholesky_ref_9. cbn [bind].
  change (values [("a"%string, 1); ("b"%string, 0)]) with [1; 0].
  rewrite solve_alpha_3. cbn [bind].
  change (get_kern pool_trained)
    with (Ok (A := HammingKernel) (train (GPKernel := hamming_kernel) pool_kernel pool)).
  cbn [bind].
  match goal with
  | |- context [mapM ?f ?l] =>
      assert (Hks : mapM f l = Ok [[[0; 2]]; [[2; 0]]])
  end.
  { transitivity (Ok (A := list matrix)
      [[[0; hamming "KC" "KB" * 2]]; [[2; hamming "RD" "KB" * 2]]]);
      [reflexivity|entries]. }
  rewrite Hks. cbn [bind].
  cbn [zip_with mapM r_k_star pool_row]. rewrite !pool_predict_again.
  cbn [bind].
  match goal with
  | |- context [mean_var_UB ?P] =>
      replace P with [[0; 32 / 9]; [2 / 9; 32 / 9]] by (symmetry; entries)
  end.
  reflexivity.
Qed.

(** In the second round [d] is selected: its upper bound exceeds that of
    [c], which was above it before [b] was observed. *)
Lemma pool_second_round :
  first_max pool_frame_1 (pool_row "d" (2 / 9) (32 / 9) 4 [[2; 0]]).
Proof.
  exists (2 / 9 + sqrt (32 / 9) * 2), [pool_row "c" 0 (32 / 9) 4 [[0; 2]]], [].
  split; [done|]. split; [apply upper_bound_valid; lra|].
  split; [|constructor].
  apply Forall_cons_2; [|apply Forall_nil_2]. intros ux Hux.
  apply upper_bound_some in Hux as [_ ->]. lra.
Qed.

Lemma pool_single_run :
  batch_UB_bandit (HK := hamming_kernel) (NP := numpy_ref)
    (SP := scipy_stub) pool 1 None pool_model
  = (Ok ([("b", "KB")]%string, ["b"%string]), pool_trained).
Proof.
  unfold batch_UB_bandit, mbind_, reading, setattr, lift, ret.
  change (get_frame pool_model "X_seqs")
    with (Ok (A := DataFrame) [("a", "RA")]%string).
  cbn iota beta.
  change (get_series pool_model "normed_Y")
    with (Ok (A := Series) [("a"%string, 1)]).
  cbn iota beta.
  change (get_arr pool_model "_Ky") with (Ok (A := matrix) [[9]]).
  cbn iota beta.
  change (get_kern pool_model) with (Ok (A := HammingKernel) pool_kernel).
  cbn iota beta.
  fold pool_trained.
  change (kernel_hypers pool_trained) with (Ok (A := vector) [2]).
  cbn iota beta.
  rewrite pool_init. cbn iota beta.
  unfold seq, bandit_loop. cbn [df].
  rewrite (first_max_idxmax _ _ pool_first_round).
  reflexivity.
Qed.

Lemma pool_two_rounds :
  batch_UB_bandit (HK := hamming_kernel) (NP := numpy_ref)
    (SP := scipy_stub) pool 2 None pool_model
  = (Ok ([("b", "KB"); ("d", "RD")]%string, ["b"; "d"]%string),
     pool_trained).
Proof.
  unfold batch_UB_bandit, mbind_, reading, setattr, lift, ret.
  change (get_frame pool_model "X_seqs")
    with (Ok (A := DataFrame) [("a", "RA")]%string).
  cbn iota beta.
  change (get_series pool_model "normed_Y")
    with (Ok (A := Series) [("a"%string, 1)]).
  cbn iota beta.
  change (get_arr pool_model "_Ky") with (Ok (A := matrix) [[9]]).
  cbn iota beta.
  change (get_kern pool_model) with (Ok (A := HammingKernel) pool_kernel).
  cbn iota beta.
  fold pool_trained.
  change (kernel_hypers pool_trained) with (Ok (A := vector) [2]).
  cbn iota beta.
  rewrite pool_init. cbn iota beta.
  unfold seq, bandit_loop. cbn [df].
  rewrite (first_max_idxmax _ _ pool_first_round).
  cbn [bind r_id pool_row observed_X observed_Y Ky df selected].
  change (negb (0 =? 2 - 1)) with true. cbn iota.
  rewrite pool_update. cbn [bind df].
  rewrite (first_max_idxmax _ _ pool_second_round).
  reflexivity.
Qed.

Lemma C7_single_selection_is_one_shot_witness :
  exists kern preds id m v df0 r,
    pool_model !! "kern" = Some (VKern kern) /\
    pool_model !! "regr" = Some (VBool true) /\
    one_shot_predictions (HK := hamming_kernel)
      (train (GPKernel := hamming_kernel) kern pool)
      [("a", "RA")]%string [[1 / 9]] [[3]]
      (tl (values [("var_n", 5); ("var_p", 2)]%string)) pool preds /\
    ranked_first preds (id, m, v) /\
    ["b"%string] = [id] /\ loc pool [id] = Ok [("b", "KB")]%string /\
    bandit_init (HK := hamming_kernel) (NP := numpy_ref) (SP := scipy_stub)
      pool_trained pool (tl (values [("var_n", 5); ("var_p", 2)]%string))
      None = Ok df0 /\
    first_max df0 r /\ r_id r = id /\ r_mean r = m /\ r_var r = v.
Proof.
  apply (C7_single_selection_is_one_shot (HK := hamming_kernel)
           (NP := numpy_ref) (SP := scipy_stub) pool_model pool_trained
           pool [("b", "KB")]%string ["b"%string] [("a", "RA")]%string
           [[1 / 9]] [[3]] [("var_n", 5); ("var_p", 2)]%string).
  - exact lstsq_ref_solves.
  - reflexivity.
  - reflexivity.
  - reflexivity.
  - reflexivity.
  - simpl. lia.
  - by repeat constructor.
  - apply lower_triangular_1.
  - intros i Hi. simpl in Hi. replace i with 0%nat by lia.
    unfold get. simpl. lra.
  - by repeat constructor.
  - exact pool_single_run.
Defined.

Lemma C6_batch_UB_bandit_rounds_witness :
  (exists X nY cov h df0 st',
     pool_trained !! "X_seqs" = Some (VFrame X) /\
     pool_trained !! "normed_Y" = Some (VSeries nY) /\
     pool_trained !! "_Ky" = Some (VArr cov) /\
     kernel_hypers pool_trained = Ok h /\
     bandit_init (HK := hamming_kernel) (NP := numpy_ref) (SP := scipy_stub)
       pool_trained pool h None = Ok df0 /\
     map r_id df0 = index pool /\ Forall bounded df0 /\
     selects (HK := hamming_kernel) (NP := numpy_ref) (SP := scipy_stub)
       pool_trained pool h 2 (seq 0 2) (start X nY cov df0)
       ["b"; "d"]%string st' /\
     length ["b"; "d"]%string = 2%nat /\
     (2 <= length pool)%nat /\
     loc pool ["b"; "d"]%string = Ok [("b", "KB"); ("d", "RD")]%string) /\
  (exists e,
     (batch_UB_bandit (HK := hamming_kernel) (NP := numpy_ref)
        (SP := scipy_stub) pool 4 None pool_model).1 = Raise e).
Proof.
  split.
  - exact (proj1 (C6_batch_UB_bandit_rounds (HK := hamming_kernel)
                    (NP := numpy_ref) (SP := scipy_stub) pool_model
                    pool 2 None)
                 _ _ _ pool_two_rounds).
  - apply (proj2 (C6_batch_UB_bandit_rounds (HK := hamming_kernel)
                    (NP := numpy_ref) (SP := scipy_stub) pool_model
                    pool 4 None)).
    simpl. lia.
Defined.

(** ** One candidate, two selections *)

(** The pool of one candidate and the model after [kern.train]. *)
Definition one_candidate : DataFrame := [("b", "K")]%string.
Definition trained_model : obj HammingKernel vector :=
  <["kern" := VKern (train (GPKernel := hamming_kernel) fitted_kernel
                       one_candidate)]> fitted_model.

(** The update after the only candidate was selected: the frame is empty,
    so is the array of predictions, and [predictions[:,0]] raises. *)
Lemma update_without_candidates m v u sel :
  bandit_update (HK := hamming_kernel) (NP := numpy_ref) (SP := scipy_stub)
    trained_model one_candidate [1] "b"
    {| observed_X := [("a", "R")]%string; observed_Y := [("a"%string, 1)];
       Ky := [[2]];
       df := [ {| r_id := "b"; r_mean := m; r_var := v; r_UB := u;
                  r_k_star := hamming "K" "K" * 1;
                  r_k := [[hamming "K" "R" * 1]] |} ];
       selected := sel |} = Raise IndexError.
Proof.
  unfold bandit_update.
  cbn [observed_X observed_Y Ky df selected].
  change (loc one_candidate ["b"%string])
    with (Ok (A := DataFrame) one_candidate).
  cbn [bind].
  change (rows_at _ "b") with
    [ {| r_id := "b"; r_mean := m; r_var := v; r_UB := u;
         r_k_star := hamming "K" "K" * 1;
         r_k := [[hamming "K" "R" * 1]] |} ].
  cbn [bind r_k r_id r_mean map r_k_star].
  change (drop _ "b") with (@nil row).
  change (append_rows [[2]] [[hamming "K" "R" * 1]])
    with (Ok (A := matrix) [[2]; [hamming "K" "R" * 1]]).
  cbn [bind].
  change (get_hypers trained_model "hypers")
    with (Ok (A := Hypers) [("var_n", 1); ("var_p", 1)]%string).
  cbn [bind].
  change (field _ "var_n") with (Ok (A := R) 1).
  cbn [bind].
  change (append_cols [[hamming "K" "R" * 1]] [[hamming "K" "K" * 1 + 1]])
    with (Ok (A := matrix) [[hamming "K" "R" * 1; hamming "K" "K" * 1 + 1]]).
  cbn [bind].
  change (append_cols _ (transpose _))
    with (Ok (A := matrix) [[2; hamming "K" "R" * 1];
                            [hamming "K" "R" * 1; hamming "K" "K" * 1 + 1]]).
  cbn [bind].
  destruct (cholesky_ref_diag2 2 (hamming "K" "K" * 1 + 1)
              (hamming "K" "R" * 1) (hamming "K" "R" * 1))
    as (L & HL & HwfL).
  1, 2: unfold hamming; simpl; lra.
  1: lra.
  1: unfold hamming; simpl; lra.
  change (cholesky _)
    with (cholesky_ref [[2; hamming "K" "R" * 1];
                        [hamming "K" "R" * 1; hamming "K" "K" * 1 + 1]]).
  rewrite HL. cbn [bind].
  match goal with
  | |- context [solve_alpha L ?ys] =>
      destruct (solve_alpha_ref_total L ys) as (alpha & Halpha);
        [exact HwfL|simpl; lia|]
  end.
  rewrite Halpha. reflexivity.
Qed.

Lemma fitted_model_two_rounds :
  (batch_UB_bandit (HK := hamming_kernel) (NP := numpy_ref)
     (SP := scipy_stub) one_candidate 2 None fitted_model).1
  = Raise IndexError.
Proof.
  unfold batch_UB_bandit, mbind_, reading, setattr, lift, ret.
  change (get_frame fitted_model "X_seqs")
    with (Ok (A := DataFrame) [("a", "R")]%string).
  cbn iota beta.
  change (get_series fitted_model "normed_Y")
    with (Ok (A := Series) [("a"%string, 1)]).
  cbn iota beta.
  change (get_arr fitted_model "_Ky") with (Ok (A := matrix) [[2]]).
  cbn iota beta.
  change (get_kern fitted_model)
    with (Ok (A := HammingKernel) fitted_kernel).
  cbn iota beta.
  fold trained_model.
  change (kernel_hypers trained_model) with (Ok (A := vector) [1]).
  cbn iota beta.
  assert (Hinit : exists m v,
    bandit_init (HK := hamming_kernel) (NP := numpy_ref) (SP := scipy_stub)
      trained_model one_candidate [1] None
    = Ok [ {| r_id := "b"; r_mean := m; r_var := v;
              r_UB := upper_bound m v;
              r_k_star := hamming "K" "K" * 1;
              r_k := [[hamming "K" "R" * 1]] |} ] /\ 0 <= v).
  { do 2 eexists. split; [reflexivity|]. unfold hamming.
    repeat (unfold get, transpose, mk, ncols, nrows; simpl). lra. }
  destruct Hinit as (m & v & Hinit & Hv). rewrite Hinit. cbn iota beta.
  unfold seq, bandit_loop.
  cbn [idxmax df argmax r_UB]. rewrite (upper_bound_valid m v Hv).
  cbn [option_map fst bind r_id observed_X observed_Y Ky selected].
  change (negb (0 =? 2 - 1)) with true. cbn iota.
  rewrite update_without_candidates. reflexivity.
Qed.

(** With one candidate and [n = 2] the run does not return the one
    selection it made: it raises [IndexError]. *)
Lemma C6_pool_exhausted_raises :
  (batch_UB_bandit (HK := hamming_kernel) (NP := numpy_ref)
     (SP := scipy_stub) [("b", "K")]%string 2 None fitted_model).1
  = Raise IndexError /\
  forall r self',
    batch_UB_bandit (HK := hamming_kernel) (NP := numpy_ref)
      (SP := scipy_stub) [("b", "K")]%string 2 None fitted_model
    <> (Ok r, self').
Proof.
  split; [exact fitted_model_two_rounds|].
  intros r self' Hrun. pose proof fitted_model_two_rounds as Hraise.
  unfold one_candidate in Hraise. by rewrite Hrun in Hraise.
Qed.


(* ================================================================== *)
(** * Scoring a classification model *)

(** A classification model after its artifacts were set. *)
Definition class_model : obj HammingKernel vector :=
  <["kern" := VKern fitted_kernel]> (<["regr" := VBool false]>
  (<["X_seqs" := VFrame [("a", "R")]%string]>
  (<["Y" := VSeries [("a"%string, 1)]]>
  (<["hypers" := VHypers [("var_p", 1)]%string]>
  (<["_grad" := VArr [[1]]]> (<["_L" := VArr [[1]]]>
  (<["_W_root" := VArr [[1]]]> ∅))))))).

Section Scoring.

Context {K Mf : Type} {HK : GPKernel K} {HM : GPMean Mf}
        {HD : GPMeanDefault Mf} {NP : NumPyLinalg} {SP : SciPy}
        {SK : SkLearn}.

Local Abbreviation obj := (gmap string (value K Mf)).

Lemma get_bool_frame_kern (self : obj) v name :
  name <> "kern"%string ->
  get_bool (<["kern" := v]> self) name = get_bool self name.
Proof. intros Hne. unfold get_bool, getattr. by rewrite lookup_insert_ne. Qed.

Lemma mapM_Forall {A B} (f : A -> result B) (P : B -> Prop) l ys :
  mapM f l = Ok ys -> (forall a b, f a = Ok b -> P b) -> Forall P ys.
Proof.
  revert ys. induction l as [|a l IH]; intros ys Hm HP; simpl in Hm.
  - injection Hm as <-. constructor.
  - apply bind_ok in Hm as (b & Hb & Hm).
    apply bind_ok in Hm as (bs & Hbs & Hm). injection Hm as <-.
    constructor; [by apply (HP a)|by apply IH].
Qed.

(** The rows [predicts] returns for a classification model are the
    triples [(pi_star, f_bar, var)] of [_predict]. *)
Lemma predicts_classification (self self' : obj) new_seqs del preds :
  predicts new_seqs del self = (Ok preds, self') ->
  get_bool self "regr" = Ok false ->
  length preds = length new_seqs /\
  Forall (fun p => exists pi_star f_bar var, p = [pi_star; f_bar; var]) preds /\
  get_bool self' "regr" = Ok false.
Proof.
  intros Hrun Hregr. unfold predicts in Hrun.
  run_read Hrun kern Hk. run_set Hrun. run_read Hrun h Hh.
  run_read Hrun predictions Hp.
  apply bind_ok in Hp as (kern1 & Hk1 & Hp).
  apply mbind_ok in Hrun as (ud & s1 & Hdel & Hrun).
  assert (Hs1 : get_bool s1 "regr" = Ok false).
  { destruct del.
    - run_read Hdel X HX. run_lift Hdel rows Hrows. run_read Hdel k2 Hk2.
      apply setattr_ok in Hdel. subst s1.
      by rewrite !get_bool_frame_kern.
    - apply ret_ok in Hdel as [_ ->]. by rewrite get_bool_frame_kern. }
  run_read Hrun regr Hr. rewrite Hs1 in Hr. injection Hr as <-.
  apply ret_ok in Hrun as [-> ->].
  split; [|split; [|done]].
  - apply mapM_length in Hp. unfold index in Hp. by rewrite length_map in Hp.
  - apply (mapM_Forall _ _ _ _ Hp). intros ns p Hns.
    apply bind_ok in Hns as (k & _ & Hns).
    apply bind_ok in Hns as (ks & _ & Hns).
    apply _predict_shape in Hns as [[Hr _]|[_ Hp3]]; [|done].
    rewrite get_bool_frame_kern in Hr by done. congruence.
Qed.

Lemma score_classification (self self' : obj) X Ys args res :
  score X Ys args self = (Ok res, self') ->
  get_bool self "regr" = Ok false ->
  exists predicted r,
    res = Score r /\
    roc_auc_score (values Ys) predicted = Ok r /\
    length predicted = length X /\
    Forall (fun p => exists pi_star f_bar var, p = [pi_star; f_bar; var])
           predicted.
Proof.
  intros Hrun Hregr. unfold score in Hrun.
  destruct (negb _); [done|].
  apply mbind_ok in Hrun as (predicted & s1 & Hp & Hrun).
  destruct (predicts_classification _ _ _ _ _ Hp Hregr) as (Hlen & Hrows & Hr1).
  run_read Hrun regr Hr. rewrite Hr1 in Hr. injection Hr as <-.
  simpl in Hrun. run_lift Hrun r Hroc. apply ret_ok in Hrun as [-> ->].
  by exists predicted, r.
Qed.

End Scoring.

Lemma pair_bind {A B S} (c : result A) (g : A -> B) (s : S) :
  match c with
  | Ok r => (Ok (g r), s)
  | Raise e => (Raise e, s)
  end = (r <- c ;; Ok (g r), s).
Proof. by destruct c. Qed.

(** C8.  Scoring the classification model [class_model] on one sequence:
    [score] hands [roc_auc_score] the rows [(pi_star, f_bar, var)] that
    [predicts] returned, three scores per sample, not the probabilities
    [pi_star]; a [roc_auc_score] that takes one score per sample raises
    [ValueError], so no ROC-AUC is returned. *)
Theorem C8_score_classification_scores :
  exists pi_star f_bar var s',
    predicts (HK := hamming_kernel) (HM := zero_mean) (NP := numpy_ref)
      (SP := scipy_stub) [("b", "K")]%string true class_model
    = (Ok [[pi_star; f_bar; var]], s') /\
    (forall SK' : SkLearn,
       score (HK := hamming_kernel) (HM := zero_mean) (NP := numpy_ref)
         (SP := scipy_stub) (SK := SK') [("b", "K")]%string
         [("b"%string, 1)] [] class_model
       = (r <- roc_auc_score [1] [[pi_star; f_bar; var]] ;; Ok (Score r),
          s')) /\
    score (HK := hamming_kernel) (HM := zero_mean) (NP := numpy_ref)
      (SP := scipy_stub) (SK := sklearn_stub) [("b", "K")]%string
      [("b"%string, 1)] [] class_model
    = (Raise ValueError, s').
Proof.
  eexists _, _, _, _. split; [reflexivity|]. split; [|reflexivity].
  intros SK'. rewrite <- pair_bind. reflexivity.
Qed.

(* ================================================================== *)
(** * Persistence *)

Section Persistence.

Context {K Mf : Type} {HK : GPKernel K} {HM : GPMean Mf}
        {HD : GPMeanDefault Mf} {NP : NumPyLinalg} {SP : SciPy}
        {SK : SkLearn}.

Local Abbreviation obj := (gmap string (value K Mf)).

(** The attributes of [GPModel(kern)]. *)
Definition fresh (kern : value K Mf) : obj :=
  <["objective" := VMethod log_ML_method]> (<["variances" := VNone]>
  (<["mean_func" := VMean default_mean]> (<["guesses" := VNone]>
  (<["kern" := kern]> ∅)))).

Lemma init_fresh kern : __init__ kern ∅ = (Ok tt, fresh kern).
Proof.
  unfold __init__, fresh, mbind_, setattr, ret, _set_params.
  rewrite lookup_empty. rewrite lookup_insert_ne by done.
  rewrite lookup_empty. cbn beta iota.
  rewrite lookup_insert_eq. cbn [String.eqb Ascii.eqb Bool.eqb].
  cbn beta iota. rewrite lookup_insert_ne by done. rewrite lookup_empty.
  cbn beta iota. f_equal.
Qed.

(** The attributes of the model that [load] returns for a dumped [self]. *)
Definition reloaded (self : obj) : obj :=
  match self !! "hypers" with
  | Some (VHypers h) =>
      <["hypers" := VHypers (map_to_list (list_to_map (M := gmap string R) (reverse h)))]> self
  | _ => self
  end.

Definition plain_hypers (self : obj) : Prop :=
  match self !! "hypers" with
  | None | Some VNone | Some (VHypers _) => True
  | _ => False
  end.

Definition objective_name (o : Objective) : string :=
  match o with
  | log_ML_method => "log_ML"
  | LOO_log_p_method => "LOO_log_p"
  end.

Lemma _set_params_objective (kwargs : obj) o (s : obj) :
  kwargs !! "objective" = Some (VStr (objective_name o)) ->
  (match kwargs !! "objective" with
   | None | Some VNone => ret tt
   | Some (VStr o) =>
       if String.eqb o "log_ML" then
         setattr "objective" (VMethod log_ML_method)
       else if String.eqb o "LOO_log_p" then
         setattr "objective" (VMethod LOO_log_p_method)
       else raise AttributeError
   | Some _ => raise TypeError
   end) s = (Ok tt, <["objective" := VMethod o]> s).
Proof. intros ->. by destruct o. Qed.

(** [load] on a blob [d] whose ['hypers'], if any, is a dictionary. *)
Lemma load_blob (d : obj) f fs kern o :
  d !! "kern" = Some kern ->
  d !! "objective" = Some (VStr (objective_name o)) ->
  match d !! "hypers" with
  | None | Some VNone | Some (VDict _) => True
  | _ => False
  end ->
  load f (<[f := d]> fs)
  = Ok (let m := <["objective" := VMethod o]>
                   (base.delete "kern" d ∪ fresh kern) in
        match d !! "hypers" with
        | Some (VDict dict) => <["hypers" := VHypers (map_to_list dict)]> m
        | _ => m
        end).
Proof.
  intros Hk Ho Hh. unfold load. rewrite lookup_insert_eq, Hk, init_fresh.
  unfold _set_params, mbind_ at 1 2.
  rewrite (_set_params_objective _ o) by (by rewrite lookup_delete_ne).
  rewrite lookup_delete_ne by done.
  destruct (d !! "hypers") as [[]|]; try done.
Qed.

Lemma fresh_keys kern i :
  is_Some (fresh kern !! i) ->
  i ∈ ["objective"; "variances"; "mean_func"; "guesses"; "kern"]%string.
Proof.
  unfold fresh. intros Hi.
  repeat (apply lookup_insert_is_Some in Hi as [<-|[_ Hi]];
          [repeat constructor|]).
  rewrite lookup_empty in Hi. by destruct Hi.
Qed.

(** The attributes rebuilt from the blob are those of [self], apart from
    ['hypers']. *)
Lemma reload_lookup (self : obj) kern o g mf vs (extra : obj -> obj) i :
  self !! "kern" = Some kern ->
  self !! "objective" = Some (VMethod o) ->
  self !! "guesses" = Some g ->
  self !! "mean_func" = Some mf ->
  self !! "variances" = Some vs ->
  (forall m, extra m !! i = m !! i) ->
  (<["objective" := VMethod o]>
     (base.delete "kern"
        (extra (<["guesses" := g]>
                  (<["objective" := VStr (objective_name o)]> self)))
      ∪ fresh kern)) !! i = self !! i.
Proof.
  intros Hk Ho Hg Hmf Hvs Hextra.
  destruct (decide (i = "objective"%string)) as [->|Hio];
    [by rewrite lookup_insert_eq|].
  rewrite lookup_insert_ne by done. rewrite lookup_union.
  destruct (decide (i = "kern"%string)) as [->|Hik].
  { rewrite lookup_delete_eq. unfold fresh. by lookup_attr. }
  rewrite lookup_delete_ne, Hextra by done.
  destruct (decide (i = "guesses"%string)) as [->|Hig].
  { rewrite lookup_insert_eq, Hg. by destruct (fresh kern !! "guesses"%string). }
  rewrite !lookup_insert_ne by done.
  destruct (self !! i) as [v|] eqn:Hsi.
  { by destruct (fresh kern !! i). }
  destruct (fresh kern !! i) as [v|] eqn:Hfi; [|done].
  assert (Hin : i ∈ ["objective"; "variances"; "mean_func"; "guesses"; "kern"]%string)
    by (apply (fresh_keys kern); by rewrite Hfi).
  repeat (apply elem_of_cons in Hin as [->|Hin]; [congruence|]).
  by apply elem_of_nil in Hin.
Qed.

Lemma load_dump (self : obj) f fs kern o g mf vs :
  self !! "kern" = Some kern ->
  self !! "objective" = Some (VMethod o) ->
  self !! "guesses" = Some g ->
  self !! "mean_func" = Some mf ->
  self !! "variances" = Some vs ->
  plain_hypers self ->
  exists d,
    dump self f fs = (Ok tt, <[f := d]> fs) /\
    d !! "kern" = Some kern /\
    load f (<[f := d]> fs) = Ok (reloaded self).
Proof.
  intros Hk Ho Hg Hmf Hvs Hh.
  unfold dump, save_me, getattr. rewrite Ho, Hg. cbn [bind attr].
  set (d0 := <["guesses" := g]>
               (match o with
                | log_ML_method => <["objective" := VStr "log_ML"]> self
                | LOO_log_p_method => <["objective" := VStr "LOO_log_p"]> self
                end)).
  assert (Hd0 : d0 = <["guesses" := g]>
                       (<["objective" := VStr (objective_name o)]> self)).
  { unfold d0. by destruct o. }
  clearbody d0. subst d0.
  set (d0 := <["guesses" := g]>
               (<["objective" := VStr (objective_name o)]> self)).
  unfold plain_hypers, reloaded in *.
  destruct (self !! "hypers") as [hv|] eqn:Hhy; [destruct hv; try done|].
  - exists d0. split; [done|]. split; [by unfold d0; lookup_attr|].
    rewrite (load_blob d0 f fs kern o); unfold d0; lookup_attr;
      [|by rewrite Hhy].
    rewrite Hhy. f_equal. apply map_eq. intros i.
    by apply (reload_lookup self kern o g mf vs (fun m => m)).
  - set (dict := list_to_map (reverse h) : gmap string R).
    exists (<["hypers" := VDict dict]> d0).
    split; [done|]. split; [by unfold d0; lookup_attr|].
    rewrite (load_blob _ f fs kern o); unfold d0; lookup_attr.
    f_equal. apply map_eq. intros i.
    destruct (decide (i = "hypers"%string)) as [->|Hi];
      [by rewrite !lookup_insert_eq|].
    rewrite !(lookup_insert_ne _ "hypers"%string i) by done.
    apply (reload_lookup self kern o g mf vs
             (fun m => <["hypers" := VDict dict]> m)); try done.
    intros m. by rewrite lookup_insert_ne.
  - exists d0. split; [done|]. split; [by unfold d0; lookup_attr|].
    rewrite (load_blob d0 f fs kern o); unfold d0; lookup_attr;
      [|by rewrite Hhy].
    rewrite Hhy. f_equal. apply map_eq. intros i.
    by apply (reload_lookup self kern o g mf vs (fun m => m)).
Qed.

Lemma reloaded_hypers (h : Hypers) :
  NoDup (h.*1) ->
  map_to_list (list_to_map (M := gmap string R) (reverse h)) ≡ₚ h.
Proof.
  intros Hnd. rewrite map_to_list_to_map.
  - apply reverse_Permutation.
  - by rewrite fmap_reverse, reverse_Permutation.
Qed.

(** C9, as the code has it.  [dump] pickles every attribute of the model,
    the kernel included, with the objective stored by name and the
    hyperparameters as a dictionary from names to values; [load] takes the
    file alone and builds the model around the kernel it finds in the
    blob.  The loaded model has the attributes of the saved one; its
    hyperparameters are rebuilt from the dictionary, so they hold the same
    value for each name, in the order the dictionary lists them. *)
Theorem C9_dump_load (self : obj) f fs kern o g mf vs :
  self !! "kern" = Some kern ->
  self !! "objective" = Some (VMethod o) ->
  self !! "guesses" = Some g ->
  self !! "mean_func" = Some mf ->
  self !! "variances" = Some vs ->
  plain_hypers self ->
  exists d,
    dump self f fs = (Ok tt, <[f := d]> fs) /\
    d !! "kern" = Some kern /\
    load f (<[f := d]> fs) = Ok (reloaded self) /\
    (forall i, i <> "hypers"%string -> reloaded self !! i = self !! i) /\
    (self !! "hypers" = None -> reloaded self !! "hypers" = None) /\
    (forall h, self !! "hypers" = Some (VHypers h) -> NoDup (h.*1) ->
       exists h', reloaded self !! "hypers" = Some (VHypers h') /\ h' ≡ₚ h).
Proof.
  intros Hk Ho Hg Hmf Hvs Hh.
  destruct (load_dump self f fs kern o g mf vs) as (d & Hd & Hdk & Hl);
    try done.
  exists d. split; [done|]. split; [done|]. split; [done|].
  unfold reloaded. split; [|split].
  - intros i Hi. destruct (self !! "hypers") as [[]|]; try done.
    by rewrite lookup_insert_ne.
  - intros Hn. rewrite Hn. exact Hn.
  - intros h Hhy Hnd. rewrite Hhy. eexists. split; [apply lookup_insert_eq|].
    by apply reloaded_hypers.
Qed.

End Persistence.

(** A model as [GPModel(kern)] builds it, with hyperparameters set. *)
Definition saved_model : obj HammingKernel vector :=
  <["hypers" := VHypers [("var_n", 1); ("var_p", 1)]%string]>
    (fresh (HD := zero_mean_default) (VKern one_kernel)).

Lemma C9_dump_load_witness :
  exists d,
    dump saved_model "model.pkl" ∅ = (Ok tt, <["model.pkl"%string := d]> ∅) /\
    d !! "kern" = Some (VKern one_kernel) /\
    load (HK := hamming_kernel) (HD := zero_mean_default) "model.pkl"
      (<["model.pkl"%string := d]> ∅) = Ok (reloaded saved_model) /\
    (forall i, i <> "hypers"%string ->
               reloaded saved_model !! i = saved_model !! i) /\
    (saved_model !! "hypers" = None ->
     reloaded saved_model !! "hypers" = None) /\
    (forall h, saved_model !! "hypers" = Some (VHypers h) -> NoDup (h.*1) ->
       exists h', reloaded saved_model !! "hypers" = Some (VHypers h')
                  /\ h' ≡ₚ h).
Proof.
  apply (C9_dump_load (HK := hamming_kernel) (HD := zero_mean_default)
           saved_model "model.pkl" ∅ (VKern one_kernel) log_ML_method
           VNone (VMean zero_mean_default) VNone); reflexivity.
Defined.

(** C9 as stated fails: the blob written for [saved_model] holds the
    kernel under ['kern'], and [load], which takes the file name and
    nothing else, returns a model. *)
Lemma C9_blob_holds_kernel :
  exists d m,
    dump saved_model "model.pkl" ∅ = (Ok tt, <["model.pkl"%string := d]> ∅) /\
    d !! "kern" = Some (VKern one_kernel) /\
    load (HK := hamming_kernel) (HD := zero_mean_default) "model.pkl"
      (<["model.pkl"%string := d]> ∅) = Ok m.
Proof.
  destruct (load_dump (HK := hamming_kernel) (HD := zero_mean_default)
              saved_model "model.pkl" ∅ (VKern one_kernel) log_ML_method
              VNone (VMean zero_mean_default) VNone)
    as (d & Hd & Hk & Hl); try reflexivity.
  by exists d, (reloaded saved_model).
Qed.

(* ================================================================== *)
(** * Normalization *)

Lemma vsum_map_affine (a b : R) (l : vector) :
  vsum (map (fun x => (x - a) / b) l) = (vsum l - INR (length l) * a) / b.
Proof.
  induction l as [|x l IH].
  - simpl. unfold Rdiv. lra.
  - change (vsum (map (fun x0 => (x0 - a) / b) (x :: l)))
      with ((x - a) / b + vsum (map (fun x0 => (x0 - a) / b) l)).
    rewrite IH. change (vsum (x :: l)) with (x + vsum l).
    change (length (x :: l)) with (S (length l)). rewrite S_INR.
    unfold Rdiv. lra.
Qed.

Lemma vsum_map_scal (c : R) (f : R -> R) (l : vector) :
  vsum (map (fun x => c * f x) l) = c * vsum (map f l).
Proof.
  induction l as [|x l IH]; simpl; [lra|]. rewrite IH. lra.
Qed.

Lemma vsum_map_nonneg (f : R -> R) (l : vector) :
  (forall x, 0 <= f x) -> 0 <= vsum (map f l).
Proof.
  intros Hf. induction l as [|x l IH]; simpl; [lra|].
  specialize (Hf x). lra.
Qed.

Lemma values_normalized (data : Series) m s :
  values (map (fun '(i, x) => (i, (x - m) / s)) data)
  = map (fun x => (x - m) / s) (values data).
Proof.
  unfold values. rewrite !map_map. apply map_ext. by intros [i x].
Qed.

Lemma series_mean_total (d : vector) :
  d <> [] -> INR (length d) * series_mean d = vsum d.
Proof.
  intros Hd. unfold series_mean. field.
  apply not_0_INR. by destruct d.
Qed.

Section Normalization.

Context {K Mf : Type} {HK : GPKernel K} {HM : GPMean Mf}
        {HD : GPMeanDefault Mf} {NP : NumPyLinalg} {SP : SciPy}
        {SK : SkLearn}.
Local Abbreviation obj := (gmap string (value K Mf)).

(** X1.  [unnormalize] undoes [_normalize]: with the mean and the standard
    deviation that [_normalize] returned stored in the model, the
    normalized values map back to the data.  The standard deviation must
    not be zero (constant data). *)
Theorem X1_unnormalize_normalize (self : obj) (data : Series) m s normed :
  _normalize data = (m, s, normed) ->
  s <> 0 ->
  self !! "mean" = Some (VFloat m) ->
  self !! "std" = Some (VFloat s) ->
  index normed = index data /\
  unnormalize_vec self (values normed) = Ok (values data).
Proof.
  intros Hn Hs Hm Hsd. unfold _normalize in Hn.
  injection Hn as Hm' Hs' <-.
  split.
  { unfold index. rewrite map_map. apply map_ext. by intros [i x]. }
  unfold unnormalize_vec, get_float, getattr. rewrite Hsd, Hm.
  cbn [bind attr as_float]. f_equal.
  rewrite values_normalized, map_map. rewrite Hm', Hs'.
  rewrite <- (map_id (values data)) at 2. apply map_ext.
  intros x. by field.
Qed.

(** X2.  The normalized data have mean zero and sample standard deviation
    one, for at least two data points that are not all equal. *)
Theorem X2_normalize_standard (data : Series) m s normed :
  _normalize data = (m, s, normed) ->
  (2 <= length data)%nat -> s <> 0 ->
  series_mean (values normed) = 0 /\ series_std (values normed) = 1.
Proof.
  intros Hn Hlen Hs. unfold _normalize in Hn.
  injection Hn as <- <- <-.
  rewrite values_normalized.
  set (d := values data) in *.
  set (m := series_mean d) in *. set (s := series_std d) in *.
  assert (Hld : length d = length data)
    by (unfold d, values; by rewrite length_map).
  assert (Hd : d <> []) by (intros Hd; rewrite Hd in Hld; simpl in Hld; lia).
  assert (H2 : 2 <= INR (length d)).
  { rewrite Hld. change 2 with (INR 2). by apply le_INR. }
  assert (Hmean : series_mean (map (fun x => (x - m) / s) d) = 0).
  { unfold series_mean at 1. rewrite vsum_map_affine, length_map.
    unfold m. rewrite series_mean_total by done.
    unfold Rdiv. rewrite Rminus_diag. lra. }
  split; [exact Hmean|].
  unfold series_std at 1. rewrite Hmean, length_map.
  set (q := vsum (map (fun x => (x - m) ^ 2) d) / (INR (length d) - 1)).
  assert (Hq0 : 0 <= q).
  { unfold q. apply Rmult_le_pos.
    - apply vsum_map_nonneg. intros x. apply pow2_ge_0.
    - apply Rlt_le, Rinv_0_lt_compat. lra. }
  assert (Hss : s * s = q) by (by apply sqrt_sqrt).
  rewrite map_map.
  replace (vsum (map (fun x => ((x - m) / s - 0) ^ 2) d)
           / (INR (length d) - 1)) with 1; [apply sqrt_1|].
  transitivity (q / (s * s)); [rewrite Hss; field; rewrite <- Hss; nra|].
  unfold q.
  rewrite (map_ext (fun x => ((x - m) / s - 0) ^ 2)
                   (fun x => / (s * s) * (fun y => (y - m) ^ 2) x))
    by (intros x; by field).
  rewrite vsum_map_scal. field. split; (lra || assumption).
Qed.

End Normalization.

Lemma X1_unnormalize_normalize_witness :
  let data : Series := [("a"%string, 0); ("b"%string, 2)] in
  let m := series_mean (values data) in
  let s := series_std (values data) in
  let self : obj HammingKernel vector :=
    <["mean" := VFloat m]> (<["std" := VFloat s]> ∅) in
  index (_normalize data).2 = index data /\
  unnormalize_vec self (values (_normalize data).2) = Ok (values data).
Proof.
  intros data m s self.
  assert (Hs : s <> 0).
  { unfold s, series_std, series_mean, data. simpl.
    apply Rgt_not_eq, sqrt_lt_R0. lra. }
  exact (X1_unnormalize_normalize self data m s _ eq_refl Hs eq_refl eq_refl).
Defined.

Lemma X2_normalize_standard_witness :
  let data : Series := [("a"%string, 0); ("b"%string, 2)] in
  series_mean (values (_normalize data).2) = 0 /\
  series_std (values (_normalize data).2) = 1.
Proof.
  intros data.
  assert (Hs : series_std (values data) <> 0).
  { unfold series_std, series_mean, data. simpl.
    apply Rgt_not_eq, sqrt_lt_R0. lra. }
  apply (X2_normalize_standard data _ _ _ eq_refl); [simpl; lia|exact Hs].
Defined.

(* ================================================================== *)
(** * The attributes a method assigns *)

Section Frames.

Context {K Mf : Type} {HK : GPKernel K} {HM : GPMean Mf}
        {HD : GPMeanDefault Mf} {NP : NumPyLinalg} {SP : SciPy}
        {SK : SkLearn}.
Local Abbreviation obj := (gmap string (value K Mf)).
Local Abbreviation St := (M (K:=K) (Mf:=Mf)).

(** [assigns names c]: whatever [c] does, by returning or by raising, the
    attributes outside [names] are those it started from. *)
Definition assigns {A} (names : list string) (c : St A) : Prop :=
  forall s r s' i, c s = (r, s') -> i ∉ names -> s' !! i = s !! i.

Lemma assigns_ret {A} names (a : A) : assigns names (ret a).
Proof. by intros s r s' i [= _ <-] _. Qed.

Lemma assigns_raise {A} names e : assigns names (raise (A := A) e).
Proof. by intros s r s' i [= _ <-] _. Qed.

Lemma assigns_reading {A} names (f : obj -> result A) :
  assigns names (reading f).
Proof. by intros s r s' i [= _ <-] _. Qed.

Lemma assigns_lift {A} names (c : result A) : assigns names (lift c).
Proof. by intros s r s' i [= _ <-] _. Qed.

Lemma assigns_setattr names name (v : value K Mf) :
  name ∈ names -> assigns names (setattr name v).
Proof.
  intros Hin s r s' i [= _ <-] Hi. apply lookup_insert_ne.
  intros ->. by apply Hi.
Qed.

Lemma assigns_bind {A B} names (c : St A) (k : A -> St B) :
  assigns names c -> (forall a, assigns names (k a)) ->
  assigns names (mbind_ c k).
Proof.
  intros Hc Hk s r s' i Hrun Hi. unfold mbind_ in Hrun.
  destruct (c s) as [[a|e] s1] eqn:Hcs.
  - rewrite (Hk a s1 r s' i Hrun Hi). by apply (Hc s (Ok a)).
  - injection Hrun as _ <-. by apply (Hc s (Raise e)).
Qed.

End Frames.

Ltac in_names := apply list_elem_of_In; simpl; tauto.

Ltac assigns_step :=
  first
    [ apply assigns_bind; [|intros ?]
    | apply assigns_reading
    | apply assigns_lift
    | apply assigns_ret
    | apply assigns_raise
    | apply assigns_setattr; in_names
    | match goal with
      | |- assigns _ (if ?b then _ else _) => destruct b
      | |- assigns _ (match ?x with _ => _ end) => destruct x
      end ].

Section FrameTheorems.

Context {K Mf : Type} {HK : GPKernel K} {HM : GPMean Mf}
        {HD : GPMeanDefault Mf} {NP : NumPyLinalg} {SP : SciPy}
        {SK : SkLearn}.
Local Abbreviation obj := (gmap string (value K Mf)).

(** The attributes [_set_hypers] assigns. *)
Definition hypers_artifacts : list string :=
  ["hypers"; "_K"; "_Ky"; "_L"; "_alpha"; "ML"; "log_p";
   "_f_hat"; "_W"; "_W_root"; "_grad"]%string.

(** The attributes [fit] assigns before it sets the hyperparameters. *)
Definition training_attributes : list string :=
  ["X_seqs"; "Y"; "_ell"; "kern"; "regr"; "mean_func"; "mean"; "std";
   "normed_Y"; "variances"]%string.

Lemma _set_hypers_assigns hypers :
  assigns (training_attributes ++ hypers_artifacts)
    (_set_hypers (K := K) (Mf := Mf) hypers).
Proof. unfold _set_hypers. repeat assigns_step. Qed.

Lemma fit_assigns X Ys variances :
  assigns (training_attributes ++ hypers_artifacts)
    (fit (K := K) (Mf := Mf) X Ys variances).
Proof.
  unfold fit. repeat assigns_step; try apply _set_hypers_assigns.
  all: destruct (_normalize _) as [[m s] nY]; repeat assigns_step.
Qed.

Lemma predicts_assigns new_seqs del :
  assigns ["kern"%string] (predicts (K := K) (Mf := Mf) new_seqs del).
Proof. unfold predicts. repeat assigns_step. Qed.

Lemma score_assigns X Ys args :
  assigns ["kern"%string] (score (K := K) (Mf := Mf) X Ys args).
Proof.
  unfold score. repeat assigns_step; try apply predicts_assigns.
Qed.

(** X3.  [fit], whether it returns or raises, assigns only the training
    attributes and the artifacts of the hyperparameters: the objective,
    the initial guesses and any other attribute are left as they were. *)
Theorem X3_fit_frame (self : obj) X Ys variances name :
  name ∉ training_attributes ++ hypers_artifacts ->
  (fit X Ys variances self).2 !! name = self !! name.
Proof.
  intros Hn. destruct (fit X Ys variances self) as [r s'] eqn:Hrun.
  by apply (fit_assigns X Ys variances self r s').
Qed.

(** X4.  [predicts] and [score], whether they return or raise, assign no
    attribute of the model but the kernel. *)
Theorem X4_predicts_score_frame (self : obj) X Ys del args name :
  name <> "kern"%string ->
  (predicts X del self).2 !! name = self !! name /\
  (score X Ys args self).2 !! name = self !! name.
Proof.
  intros Hn. split.
  - destruct (predicts X del self) as [r s'] eqn:Hrun.
    apply (predicts_assigns X del self r s'); [done|].
    by intros ->%list_elem_of_singleton.
  - destruct (score X Ys args self) as [r s'] eqn:Hrun.
    apply (score_assigns X Ys args self r s'); [done|].
    by intros ->%list_elem_of_singleton.
Qed.

End FrameTheorems.

Lemma X3_fit_frame_witness :
  (fit (HK := hamming_kernel) (HM := zero_mean) (NP := numpy_ref)
     (SP := scipy_stub) [("a", "R")]%string [("a"%string, 1)] None
     one_point_model).2 !! "guesses" = one_point_model !! "guesses".
Proof.
  apply (X3_fit_frame (HK := hamming_kernel) (HM := zero_mean)
           (NP := numpy_ref) (SP := scipy_stub)).
  unfold training_attributes, hypers_artifacts. simpl.
  intros Hin. apply list_elem_of_In in Hin. simpl in Hin.
  repeat (destruct Hin as [Hin|Hin]; [discriminate Hin|]). exact Hin.
Defined.

Lemma X4_predicts_score_frame_witness :
  (predicts (HK := hamming_kernel) (HM := zero_mean) (NP := numpy_ref)
     (SP := scipy_stub) [("b", "K")]%string true fitted_model).2
     !! "hypers" = fitted_model !! "hypers" /\
  (score (HK := hamming_kernel) (HM := zero_mean) (NP := numpy_ref)
     (SP := scipy_stub) (SK := sklearn_stub) [("b", "K")]%string
     [("b"%string, 1)] [] fitted_model).2
     !! "hypers" = fitted_model !! "hypers".
Proof.
  apply (X4_predicts_score_frame (HK := hamming_kernel) (HM := zero_mean)
           (NP := numpy_ref) (SP := scipy_stub) (SK := sklearn_stub)).
  discriminate.
Defined.

(* ================================================================== *)
(** * Setting the hyperparameters *)

Section SetHypers.

Context {K Mf : Type} {HK : GPKernel K} {HM : GPMean Mf}
        {HD : GPMeanDefault Mf} {NP : NumPyLinalg} {SP : SciPy}
        {SK : SkLearn}.
Local Abbreviation obj := (gmap string (value K Mf)).

(** The field names of the [namedtuple] that [_set_hypers] builds. *)
Definition hypers_fields (regr : bool) (vs : value K Mf) (kern : K)
  : list string :=
  if regr then
    match vs with
    | VNone => "var_n"%string :: kern_hypers kern
    | _ => kern_hypers kern
    end
  else kern_hypers kern.

Lemma _set_hypers_fields (self : obj) regr vs kern :
  self !! "regr" = Some (VBool regr) ->
  self !! "kern" = Some (VKern kern) ->
  self !! "variances" = Some vs ->
  (kern <- get_kern self ;;
   if regr then
     vs <- getattr self "variances" ;;
     match vs with
     | VNone => Ok ("var_n"%string :: kern_hypers kern)
     | _ => Ok (kern_hypers kern)
     end
   else Ok (kern_hypers kern)) = Ok (hypers_fields regr vs kern).
Proof.
  intros Hr Hk Hv. unfold get_kern, getattr, hypers_fields.
  rewrite Hk, Hv. cbn [bind attr as_kern]. by destruct regr, vs.
Qed.

(** X5.  Hyperparameters whose number differs from the number of field names
    are rejected with [TypeError] before anything is assigned. *)
Theorem X5_set_hypers_wrong_length (self : obj) hypers regr vs kern :
  self !! "regr" = Some (VBool regr) ->
  self !! "kern" = Some (VKern kern) ->
  self !! "variances" = Some vs ->
  length hypers <> length (hypers_fields regr vs kern) ->
  _set_hypers hypers self = (Raise TypeError, self).
Proof.
  intros Hr Hk Hv Hlen.
  unfold _set_hypers, mbind_ at 1 2 3, reading, lift.
  unfold get_bool, getattr at 1. rewrite Hr. cbn [bind attr as_bool].
  rewrite (_set_hypers_fields self regr vs kern) by done.
  unfold namedtuple_make.
  destruct (Nat.eqb_spec (length (hypers_fields regr vs kern))
                         (length hypers)); [congruence|done].
Qed.

(** X6.  When the noisy covariance of a regression model cannot be factored,
    [_set_hypers] raises after it has assigned the new [hypers], [_K] and
    [_Ky]: the factor [_L], the weights [_alpha] and the likelihoods
    are still those of the hyperparameters before. *)
Theorem X6_set_hypers_not_factored (self : obj) hypers vs kern Kc Ky e :
  self !! "regr" = Some (VBool true) ->
  self !! "kern" = Some (VKern kern) ->
  self !! "variances" = Some vs ->
  length hypers = length (hypers_fields true vs kern) ->
  _make_Ks self hypers = Ok (Kc, Ky) ->
  cholesky Ky = Raise e ->
  _set_hypers hypers self
  = (Raise e,
     <["_Ky" := VArr Ky]> (<["_K" := VArr Kc]>
       (<["hypers" := VHypers (zip (hypers_fields true vs kern) hypers)]>
          self))).
Proof.
  intros Hr Hk Hv Hlen HKs HL.
  unfold _set_hypers, mbind_, reading, lift, setattr.
  unfold get_bool, getattr at 1. rewrite Hr. cbn [bind attr as_bool].
  rewrite (_set_hypers_fields self true vs kern) by done.
  unfold namedtuple_make. rewrite <- Hlen, Nat.eqb_refl.
  rewrite _make_Ks_frame by done. rewrite HKs. cbn [fst snd].
  by rewrite HL.
Qed.

End SetHypers.

Lemma X5_set_hypers_wrong_length_witness :
  _set_hypers (HK := hamming_kernel) (HM := zero_mean) (NP := numpy_ref)
    (SP := scipy_stub) [1; 1; 1] one_point_model
  = (Raise TypeError, one_point_model).
Proof.
  apply (X5_set_hypers_wrong_length (HK := hamming_kernel) (HM := zero_mean)
           (NP := numpy_ref) (SP := scipy_stub) one_point_model [1; 1; 1]
           true VNone one_kernel); [reflexivity..|].
  simpl. lia.
Defined.

(** The reference [cholesky] rejects a one-by-one array that is not
    positive. *)
Lemma cholesky_ref_1_neg a : a <= 0 -> cholesky_ref [[a]] = Raise LinAlgError.
Proof.
  intros Ha. unfold cholesky_ref.
  change (chol_rows [[a]] (nrows [[a]]) (nrows [[a]]))
    with [[sqrt (a - 0)]].
  rewrite sqrt_neg_0 by lra.
  change (forall_lt (nrows [[a]]) (fun i => Rlt_b 0 (get [[0]] i i)))
    with (Rlt_b 0 0 && true).
  unfold Rlt_b. destruct (Rlt_dec 0 0) as [H|H]; [lra|].
  by rewrite !andb_false_r.
Qed.

Lemma X6_set_hypers_not_factored_witness :
  exists Ky,
    _set_hypers (HK := hamming_kernel) (HM := zero_mean) (NP := numpy_ref)
      (SP := scipy_stub) [-3; 1] one_point_model
    = (Raise LinAlgError,
       <["_Ky" := VArr Ky]> (<["_K" := VArr [[hamming "R" "R" * 1]]]>
         (<["hypers" := VHypers [("var_n"%string, -3); ("var_p"%string, 1)]]>
            one_point_model))).
Proof.
  eexists.
  apply (X6_set_hypers_not_factored (HK := hamming_kernel) (HM := zero_mean)
           (NP := numpy_ref) (SP := scipy_stub) one_point_model [-3; 1]
           VNone one_kernel); [reflexivity..|].
  apply cholesky_ref_1_neg. unfold bget, get, hamming. simpl. lra.
Defined.

(* ================================================================== *)
(** * The noisy covariance *)

(** Two arrays of the same shape: nothing is stretched. *)
Lemma broadcast_same op n m A B :
  wf n m A -> wf n m B -> (0 < n)%nat ->
  broadcast op A B = Ok (mk n m (fun i j => op (get A i j) (get B i j))).
Proof.
  intros HA HB Hn. unfold broadcast.
  rewrite (wf_nrows n m A), (wf_nrows n m B), (wf_ncols n m A),
    (wf_ncols n m B) by done.
  rewrite !bdim_same. f_equal. apply mk_ext. intros i j Hi Hj.
  by rewrite !(bget_wf n m) by done.
Qed.

Lemma wf_eye n : wf n n (eye n).
Proof. apply wf_mk. Qed.

Lemma wf_diag_of v : wf (length v) (length v) (diag_of v).
Proof. apply wf_mk. Qed.

Section NoisyCovariance.

Context {K Mf : Type} {HK : GPKernel K} {HM : GPMean Mf}
        {HD : GPMeanDefault Mf} {NP : NumPyLinalg} {SP : SciPy}
        {SK : SkLearn}.
Local Abbreviation obj := (gmap string (value K Mf)).

(** X7.  With one hyperparameter more than the kernel has, [_make_Ks]
    hands the kernel the hyperparameters after the first, and the noisy
    covariance is the covariance with the first hyperparameter added on
    the diagonal and nowhere else. *)
Theorem X7_make_Ks_noise (self : obj) hypers kern n Kc :
  self !! "kern" = Some (VKern kern) ->
  length hypers = S (length (kern_hypers kern)) ->
  make_K kern (tl hypers) = Ok Kc ->
  wf n n Kc -> (0 < n)%nat ->
  exists Ky,
    _make_Ks self hypers = Ok (Kc, Ky) /\ wf n n Ky /\
    forall i j, (i < n)%nat -> (j < n)%nat ->
      get Ky i j = get Kc i j + (if Nat.eqb i j then hd 0 hypers else 0).
Proof.
  intros Hk Hlen HK' Hw Hn.
  unfold _make_Ks, get_kern, getattr. rewrite Hk. cbn [bind attr as_kern].
  destruct (Nat.eqb_spec (length hypers) (length (kern_hypers kern)));
    [lia|].
  destruct (Nat.eqb_spec (length hypers) (length (kern_hypers kern) + 1));
    [|lia].
  rewrite HK'. cbn [bind].
  assert (Hl : length Kc = n) by apply Hw. rewrite Hl.
  unfold madd.
  rewrite (broadcast_same Rplus n n)
    by (done || apply wf_mmap, wf_eye).
  cbn [bind]. eexists. split; [reflexivity|]. split; [apply wf_mk|].
  intros i j Hi Hj. rewrite get_mk by done.
  rewrite (get_mmap n n) by (done || apply wf_eye).
  unfold eye. rewrite get_mk by done.
  destruct (Nat.eqb i j); lra.
Qed.

(** X8.  With as many hyperparameters as the kernel has and measurement
    variances stored, all hyperparameters go to the kernel and the noisy
    covariance is the covariance with the variance of sample [i] added
    at the diagonal entry [i]; without stored variances [_make_Ks]
    raises [AttributeError]. *)
Theorem X8_make_Ks_variances (self : obj) hypers kern n Kc :
  self !! "kern" = Some (VKern kern) ->
  length hypers = length (kern_hypers kern) ->
  make_K kern hypers = Ok Kc ->
  wf n n Kc -> (0 < n)%nat ->
  (self !! "variances" = Some VNone ->
   _make_Ks self hypers = Raise AttributeError) /\
  (forall vs, self !! "variances" = Some (VSeries vs) -> length vs = n ->
   exists Ky,
     _make_Ks self hypers = Ok (Kc, Ky) /\ wf n n Ky /\
     forall i j, (i < n)%nat -> (j < n)%nat ->
       get Ky i j
       = get Kc i j + (if Nat.eqb i j then nth i (values vs) 0 else 0)).
Proof.
  intros Hk Hlen HK' Hw Hn.
  unfold _make_Ks, get_kern, getattr. rewrite Hk. cbn [bind attr as_kern].
  rewrite Hlen, Nat.eqb_refl. split.
  - by intros ->.
  - intros vs -> Hvs. cbn [bind attr as_series]. rewrite HK'. cbn [bind].
    assert (Hlv : length (values vs) = n)
      by (unfold values; by rewrite length_map).
    unfold madd. pose proof (wf_diag_of (values vs)) as Hd.
    rewrite Hlv in Hd.
    rewrite (broadcast_same Rplus n n) by done.
    cbn [bind]. eexists. split; [reflexivity|]. split; [apply wf_mk|].
    intros i j Hi Hj. rewrite get_mk by done.
    unfold diag_of. rewrite Hlv, get_mk by done. reflexivity.
Qed.

End NoisyCovariance.

Lemma X7_make_Ks_noise_witness :
  exists Ky,
    _make_Ks (HK := hamming_kernel) one_point_model [1; 1]
      = Ok ([[hamming "R" "R" * 1]], Ky) /\ wf 1 1 Ky /\
    forall i j, (i < 1)%nat -> (j < 1)%nat ->
      get Ky i j = get [[hamming "R" "R" * 1]] i j
                   + (if Nat.eqb i j then hd 0 [1; 1] else 0).
Proof.
  apply (X7_make_Ks_noise (HK := hamming_kernel) one_point_model [1; 1]
           one_kernel 1 [[hamming "R" "R" * 1]]).
  - reflexivity.
  - reflexivity.
  - reflexivity.
  - by repeat constructor.
  - lia.
Defined.

(** A regression model with a measurement variance for its one training
    sequence. *)
Definition measured_model : obj HammingKernel vector :=
  <["variances" := VSeries [("a"%string, 1)]]> one_point_model.

Lemma X8_make_Ks_variances_witness :
  (measured_model !! "variances" = Some VNone ->
   _make_Ks (HK := hamming_kernel) measured_model [1]
   = Raise AttributeError) /\
  (forall vs, measured_model !! "variances" = Some (VSeries vs) ->
   length vs = 1%nat ->
   exists Ky,
     _make_Ks (HK := hamming_kernel) measured_model [1]
       = Ok ([[hamming "R" "R" * 1]], Ky) /\ wf 1 1 Ky /\
     forall i j, (i < 1)%nat -> (j < 1)%nat ->
       get Ky i j = get [[hamming "R" "R" * 1]] i j
                    + (if Nat.eqb i j then nth i (values vs) 0 else 0)).
Proof.
  apply (X8_make_Ks_variances (HK := hamming_kernel) measured_model [1]
           one_kernel 1 [[hamming "R" "R" * 1]]).
  - reflexivity.
  - reflexivity.
  - reflexivity.
  - by repeat constructor.
  - lia.
Defined.

(* ================================================================== *)
(** * The artifacts of accepted hyperparameters *)

Lemma namedtuple_make_ok names vals h :
  namedtuple_make names vals = Ok h ->
  length names = length vals /\ h = zip names vals /\ values h = vals.
Proof.
  unfold namedtuple_make.
  destruct (Nat.eqb_spec (length names) (length vals)) as [Hl|]; [|done].
  intros [= <-]. split; [done|]. split; [done|]. by apply values_zip.
Qed.

Lemma item_ok A x : item A = Ok x -> A = [[x]].
Proof. destruct A as [|[|e []] []]; try done. by intros [= ->]. Qed.

Section Artifacts.

Context {K Mf : Type} {HK : GPKernel K} {HM : GPMean Mf}
        {HD : GPMeanDefault Mf} {NP : NumPyLinalg} {SP : SciPy}
        {SK : SkLearn}.
Local Abbreviation obj := (gmap string (value K Mf)).

(** X9.  The stored likelihood of a regression model is the likelihood of the
    stored artifacts: with [e] the product of the normalized outputs and
    the stored weights, [ML = e / 2 + sum (log (diag L)) + n / 2 log (2 pi)]
    for the stored factor [L] and the [n] rows of the stored [_K]. *)
Theorem X9_set_hypers_ML (self self' : obj) hypers nY :
  self !! "regr" = Some (VBool true) ->
  self !! "normed_Y" = Some (VSeries nY) ->
  _set_hypers hypers self = (Ok tt, self') ->
  exists Kc L alpha e,
    self' !! "_K" = Some (VArr Kc) /\
    self' !! "_L" = Some (VArr L) /\
    self' !! "_alpha" = Some (VArr alpha) /\
    mmul [values nY] alpha = [[e]] /\
    self' !! "ML"
    = Some (VFloat (0.5 * e + vsum (map ln (diagonal L))
                    + INR (length Kc) / 2 * ln (2 * PI))).
Proof.
  intros Hregr HnY Hrun. unfold _set_hypers in Hrun.
  run_read Hrun regr Hr.
  unfold get_bool, getattr in Hr. rewrite Hregr in Hr. simpl in Hr.
  injection Hr as <-.
  run_read Hrun names Hnames. run_lift Hrun h Hh. run_set Hrun.
  apply namedtuple_make_ok in Hh as (_ & _ & Hvals).
  run_read Hrun KKy HKKy.
  rewrite _make_Ks_frame in HKKy by done.
  destruct KKy as [Kc Ky]. cbn [fst snd] in Hrun.
  run_set Hrun. run_set Hrun. run_lift Hrun L HL. run_set Hrun.
  run_read Hrun alpha Halpha.
  unfold get_series, getattr in Halpha.
  rewrite !lookup_insert_ne in Halpha by done. rewrite HnY in Halpha.
  cbn [bind attr as_series] in Halpha.
  unfold solve_alpha in Halpha.
  apply bind_ok in Halpha as (y & Hy & Halpha).
  run_set Hrun. run_read Hrun ml Hml. run_set Hrun.
  run_read Hrun lp Hlp. apply setattr_ok in Hrun. subst self'.
  unfold _log_ML, get_bool, get_series, getattr in Hml.
  rewrite !lookup_insert_ne in Hml by done.
  rewrite Hregr, HnY in Hml. cbn [bind attr as_bool as_series] in Hml.
  rewrite !_make_Ks_frame in Hml by done.
  rewrite Hvals, HKKy in Hml. cbn [bind fst snd] in Hml.
  rewrite HL in Hml. cbn [bind] in Hml.
  change (transpose [values nY])
    with (transpose (np_matrix (values nY))) in Hml.
  rewrite Hy in Hml. cbn [bind] in Hml. rewrite Halpha in Hml.
  cbn [bind] in Hml.
  apply bind_ok in Hml as (Ya & HYa & Hml).
  unfold dot in HYa. destruct (Nat.eqb _ _); [|done].
  injection HYa as <-.
  apply item_ok in Hml.
  destruct (mmul [values nY] alpha) as [|[|e []] []] eqn:He; try done.
  injection Hml as <-.
  exists Kc, L, alpha, e. repeat split; try done; lookup_attr.
Qed.

(** X10.  For a regression model with measurement variances the field names
    are those of the kernel and all hyperparameters go into the
    covariance [_K], but the hyperparameters that [predicts] and
    [batch_UB_bandit] hand to the kernel are [hypers[1::]]: the first
    hyperparameter of the kernel is left out. *)
Theorem X10_kernel_hypers_measured (self self' : obj) hypers vs :
  self !! "regr" = Some (VBool true) ->
  self !! "variances" = Some (VSeries vs) ->
  _set_hypers hypers self = (Ok tt, self') ->
  exists kern Kc,
    self !! "kern" = Some (VKern kern) /\
    self' !! "hypers" = Some (VHypers (zip (kern_hypers kern) hypers)) /\
    length hypers = length (kern_hypers kern) /\
    make_K kern hypers = Ok Kc /\
    self' !! "_K" = Some (VArr Kc) /\
    kernel_hypers self' = Ok (tl hypers).
Proof.
  intros Hregr Hvs Hrun. unfold _set_hypers in Hrun.
  run_read Hrun regr Hr.
  unfold get_bool, getattr in Hr. rewrite Hregr in Hr. simpl in Hr.
  injection Hr as <-.
  run_read Hrun names Hnames.
  apply bind_ok in Hnames as (kern & Hk & Hnames).
  unfold getattr in Hnames. rewrite Hvs in Hnames.
  cbn [bind attr] in Hnames. injection Hnames as <-.
  run_lift Hrun h Hh. run_set Hrun.
  apply namedtuple_make_ok in Hh as (Hlen & -> & Hvals).
  run_read Hrun KKy HKKy.
  rewrite _make_Ks_frame in HKKy by done.
  destruct KKy as [Kc Ky]. cbn [fst snd] in Hrun.
  run_set Hrun. run_set Hrun. run_lift Hrun L HL. run_set Hrun.
  run_read Hrun alpha Halpha.
  run_set Hrun. run_read Hrun ml Hml. run_set Hrun.
  run_read Hrun lp Hlp. apply setattr_ok in Hrun. subst self'.
  assert (Hkern : self !! "kern" = Some (VKern kern)).
  { unfold get_kern, getattr in Hk.
    destruct (self !! "kern") as [[]|]; try done.
    simpl in Hk. by injection Hk as ->. }
  unfold _make_Ks in HKKy. rewrite Hk in HKKy. cbn [bind] in HKKy.
  rewrite <- Hlen, Nat.eqb_refl in HKKy.
  unfold getattr in HKKy. rewrite Hvs in HKKy. cbn [bind attr] in HKKy.
  apply bind_ok in HKKy as (Kc' & HKc & HKKy).
  cbn [as_series bind] in HKKy.
  apply bind_ok in HKKy as (Ky' & HKy & HKKy). injection HKKy as -> ->.
  exists kern, Kc. split; [done|]. split; [lookup_attr|].
  split; [done|]. split; [done|]. split; [lookup_attr|].
  unfold kernel_hypers, get_bool, get_hypers, getattr.
  rewrite !lookup_insert_ne by done. rewrite Hregr.
  cbn [bind attr as_bool]. rewrite lookup_insert_eq.
  cbn [bind attr as_hypers]. by rewrite Hvals.
Qed.

End Artifacts.

Lemma X9_set_hypers_ML_witness :
  exists self' Kc L alpha e,
    _set_hypers (HK := hamming_kernel) (HM := zero_mean) (NP := numpy_ref)
      (SP := scipy_stub) [1; 1] one_point_model = (Ok tt, self') /\
    self' !! "_K" = Some (VArr Kc) /\
    self' !! "_L" = Some (VArr L) /\
    self' !! "_alpha" = Some (VArr alpha) /\
    mmul [values [("a"%string, 1)]] alpha = [[e]] /\
    self' !! "ML"
    = Some (VFloat (0.5 * e + vsum (map ln (diagonal L))
                    + INR (length Kc) / 2 * ln (2 * PI))).
Proof.
  destruct one_point_Ks as (a & Ha & HKs).
  destruct (_set_hypers_regr_ok (HK := hamming_kernel) (HM := zero_mean)
              (NP := numpy_ref) (SP := scipy_stub)
              one_point_model [1; 1] [("a"%string, 1)] one_kernel VNone
              _ _ _ _ cholesky_ref_factors lstsq_ref_solves inv_ref_inverts
              eq_refl eq_refl eq_refl eq_refl eq_refl HKs eq_refl
              (Nat.lt_0_succ 0) (cholesky_ref_1 a Ha) (inv_ref_1 a Ha))
    as [self' Hrun].
  exists self'.
  destruct (X9_set_hypers_ML (HK := hamming_kernel) (HM := zero_mean)
              (NP := numpy_ref) (SP := scipy_stub)
              one_point_model self' [1; 1] [("a"%string, 1)]
              eq_refl eq_refl Hrun)
    as (Kc & L & alpha & e & H).
  exists Kc, L, alpha, e. split; [exact Hrun|exact H].
Defined.

Lemma measured_Ks :
  exists a, 0 < a /\
    _make_Ks (HK := hamming_kernel) measured_model [1]
    = Ok ([[hamming "R" "R" * 1]], [[a]]).
Proof.
  eexists. split; [|reflexivity]. unfold bget, get, hamming. simpl. lra.
Qed.

Lemma X10_kernel_hypers_measured_witness :
  exists self' kern Kc,
    _set_hypers (HK := hamming_kernel) (HM := zero_mean) (NP := numpy_ref)
      (SP := scipy_stub) [1] measured_model = (Ok tt, self') /\
    measured_model !! "kern" = Some (VKern kern) /\
    self' !! "hypers"
      = Some (VHypers (zip (kern_hypers (GPKernel := hamming_kernel) kern)
                           [1])) /\
    length [1] = length (kern_hypers (GPKernel := hamming_kernel) kern) /\
    make_K (GPKernel := hamming_kernel) kern [1] = Ok Kc /\
    self' !! "_K" = Some (VArr Kc) /\
    kernel_hypers self' = Ok (tl [1]).
Proof.
  destruct measured_Ks as (a & Ha & HKs).
  destruct (_set_hypers_regr_ok (HK := hamming_kernel) (HM := zero_mean)
              (NP := numpy_ref) (SP := scipy_stub)
              measured_model [1] [("a"%string, 1)] one_kernel
              (VSeries [("a"%string, 1)])
              _ _ _ _ cholesky_ref_factors lstsq_ref_solves inv_ref_inverts
              eq_refl eq_refl eq_refl eq_refl eq_refl HKs eq_refl
              (Nat.lt_0_succ 0) (cholesky_ref_1 a Ha) (inv_ref_1 a Ha))
    as [self' Hrun].
  exists self'.
  destruct (X10_kernel_hypers_measured (HK := hamming_kernel) (HM := zero_mean)
              (NP := numpy_ref) (SP := scipy_stub)
              measured_model self' [1] [("a"%string, 1)]
              eq_refl eq_refl Hrun)
    as (kern & Kc & H).
  exists kern, Kc. split; [exact Hrun|exact H].
Defined.

(* ================================================================== *)
(** * The logistic likelihood, its gradient and its Hessian *)

Lemma vzip_same op (u v : vector) :
  length u = length v -> vzip op u v = Ok (zip_with op u v).
Proof. intros Hl. unfold vzip. by rewrite Hl, Nat.eqb_refl. Qed.

Lemma nth_zip_with (op : R -> R -> R) (u v : vector) i :
  length u = length v -> (i < length u)%nat ->
  nth i (zip_with op u v) 0 = op (nth i u 0) (nth i v 0).
Proof.
  revert v i. induction u as [|a u IH]; intros [|b v] i Hl Hi;
    simpl in *; try lia.
  destruct i as [|i]; [done|]. apply IH; lia.
Qed.

Lemma nth_map_lt (f : R -> R) (l : vector) i :
  (i < length l)%nat -> nth i (map f l) 0 = f (nth i l 0).
Proof.
  revert i. induction l as [|a l IH]; intros i Hi; simpl in *; [lia|].
  destruct i as [|i]; [done|]. apply IH. lia.
Qed.

Lemma length_zip_with_same (op : R -> R -> R) (u v : vector) :
  length u = length v -> length (zip_with op u v) = length u.
Proof. intros Hl. rewrite length_zip_with. lia. Qed.

(** The likelihood [1 / (1 + exp (- y f))] of the label [y]. *)
Definition lik (y f : R) : R := 1 / (1 + exp (- y * f)).

Lemma lik_bounds y f : 0 < lik y f < 1.
Proof.
  unfold lik. pose proof (exp_pos (- y * f)) as He.
  split.
  - apply Rdiv_lt_0_compat; lra.
  - apply (Rmult_lt_reg_r (1 + exp (- y * f))); [lra|].
    unfold Rdiv. rewrite Rmult_assoc, Rinv_l by lra. lra.
Qed.

Lemma lik_flip y f : lik y f + lik (- y) f = 1.
Proof.
  unfold lik. replace (- - y * f) with (- (- y * f)) by ring.
  rewrite exp_Ropp. pose proof (exp_pos (- y * f)) as He.
  field. split; lra.
Qed.

Lemma logistic_lik f : logistic f = lik 1 f.
Proof. unfold logistic, lik. by replace (- (1) * f) with (- f) by ring. Qed.

Lemma logistic_bounds f : 0 < logistic f < 1.
Proof. rewrite logistic_lik. apply lik_bounds. Qed.

Lemma is_pm1_opp y : is_pm1 (- y) = is_pm1 y.
Proof.
  unfold is_pm1.
  destruct (Req_dec_T (- y) (-1)), (Req_dec_T y (-1)), (Req_dec_T (- y) 1),
    (Req_dec_T y 1); try done; lra.
Qed.

Lemma is_pm1_spec y : is_pm1 y = true <-> y = -1 \/ y = 1.
Proof.
  split; [|apply is_pm1_true]. unfold is_pm1.
  destruct (Req_dec_T y (-1)); [by left|].
  destruct (Req_dec_T y 1); [by right|done].
Qed.

(** The derivatives of the likelihood in the latent value. *)
Lemma derivable_denominator y x :
  derivable_pt_lim (fun z => 1 + exp (- y * z)) x (- y * exp (- y * x)).
Proof.
  apply (derivable_pt_lim_ext
           (plus_fct (fct_cte 1) (comp exp (mult_real_fct (- y) id))));
    [by intros|].
  replace (- y * exp (- y * x)) with (0 + exp (- y * x) * (- y * 1))
    by ring.
  apply derivable_pt_lim_plus; [apply derivable_pt_lim_const|].
  apply derivable_pt_lim_comp;
    [apply derivable_pt_lim_scal, derivable_pt_lim_id|].
  apply derivable_pt_lim_exp.
Qed.

Lemma derivable_lik y x :
  derivable_pt_lim (lik y) x
    (y * exp (- y * x) / (1 + exp (- y * x)) ^ 2).
Proof.
  pose proof (exp_pos (- y * x)) as He.
  apply (derivable_pt_lim_ext
           (div_fct (fct_cte 1) (fun z => 1 + exp (- y * z))));
    [by intros|].
  replace (y * exp (- y * x) / (1 + exp (- y * x)) ^ 2)
    with ((0 * (1 + exp (- y * x)) - - y * exp (- y * x) * fct_cte 1 x)
          / (1 + exp (- y * x))²).
  2:{ unfold fct_cte, Rsqr. field. lra. }
  apply (derivable_pt_lim_div (fct_cte 1) (fun z => 1 + exp (- y * z)));
    [apply derivable_pt_lim_const|apply derivable_denominator|lra].
Qed.

Lemma derivable_log_lik y x :
  derivable_pt_lim (fun z => ln (lik y z)) x
    (y * exp (- y * x) / (1 + exp (- y * x))).
Proof.
  pose proof (exp_pos (- y * x)) as He.
  apply (derivable_pt_lim_ext (comp ln (lik y))); [by intros|].
  replace (y * exp (- y * x) / (1 + exp (- y * x)))
    with (/ lik y x * (y * exp (- y * x) / (1 + exp (- y * x)) ^ 2)).
  2:{ unfold lik. field. lra. }
  apply derivable_pt_lim_comp; [apply derivable_lik|].
  apply derivable_pt_lim_ln, lik_bounds.
Qed.

(** For a label [1] or [-1] the derivative is [(y + 1) / 2 - logistic]. *)
Lemma derivable_log_lik_pm1 y x :
  y = -1 \/ y = 1 ->
  derivable_pt_lim (fun z => ln (lik y z)) x ((y + 1) / 2 - logistic x).
Proof.
  intros Hy. pose proof (exp_pos x) as He. pose proof (exp_pos (- x)) as He'.
  replace ((y + 1) / 2 - logistic x)
    with (y * exp (- y * x) / (1 + exp (- y * x)));
    [apply derivable_log_lik|].
  unfold logistic. destruct Hy as [-> | ->].
  - replace (- -1 * x) with x by ring.
    rewrite exp_Ropp. field. split; lra.
  - replace (- (1) * x) with (- x) by ring. field. lra.
Qed.

Lemma derivable_logistic x :
  derivable_pt_lim logistic x (logistic x * (1 - logistic x)).
Proof.
  pose proof (exp_pos (- x)) as He.
  apply (derivable_pt_lim_ext (lik 1));
    [intros z; symmetry; apply logistic_lik|].
  replace (logistic x * (1 - logistic x))
    with (1 * exp (- (1) * x) / (1 + exp (- (1) * x)) ^ 2);
    [apply derivable_lik|].
  unfold logistic. replace (- (1) * x) with (- x) by ring. field. lra.
Qed.

Section Likelihood.

Context {K Mf : Type} {HK : GPKernel K} {HM : GPMean Mf}
        {HD : GPMeanDefault Mf} {NP : NumPyLinalg} {SP : SciPy}
        {SK : SkLearn}.

(** X11.  For labels [1] and [-1], [_logistic_likelihood] returns
    probabilities, and the probabilities of the opposite labels are
    their complements; any other label raises [RuntimeError]. *)
Theorem X11_logistic_likelihood_complement (Ys F : vector) :
  length Ys = length F ->
  (Forall (fun y => y = -1 \/ y = 1) Ys ->
   exists ps qs,
     _logistic_likelihood Ys F = Ok ps /\
     _logistic_likelihood (map Ropp Ys) F = Ok qs /\
     length ps = length F /\ length qs = length F /\
     forall i, (i < length F)%nat ->
       0 < nth i ps 0 < 1 /\ nth i ps 0 + nth i qs 0 = 1) /\
  (~ Forall (fun y => y = -1 \/ y = 1) Ys ->
   _logistic_likelihood Ys F = Raise RuntimeError).
Proof.
  intros Hlen. split.
  - intros HY. unfold _logistic_likelihood.
    rewrite (forallb_is_pm1 Ys HY).
    assert (HY' : forallb is_pm1 (map Ropp Ys) = true).
    { apply forallb_is_pm1, List.Forall_map.
      eapply Forall_impl; [exact HY|].
      intros y [-> | ->]; [right|left]; lra. }
    rewrite HY'.
    rewrite !vzip_same by (by rewrite ?length_map).
    eexists _, _. split; [reflexivity|]. split; [reflexivity|].
    split; [rewrite length_zip_with_same; done|].
    split.
    { rewrite length_zip_with_same by (by rewrite length_map).
      by rewrite length_map. }
    intros i Hi.
    rewrite !nth_zip_with by (rewrite ?length_map; lia).
    replace (nth i (map Ropp Ys) 0) with (- nth i Ys 0).
    2:{ rewrite <- Ropp_0 at 2. by rewrite map_nth. }
    split; [apply (lik_bounds (nth i Ys 0))|].
    apply (lik_flip (nth i Ys 0)).
  - intros HY. unfold _logistic_likelihood.
    destruct (forallb is_pm1 Ys) eqn:Hb; [|done].
    exfalso. apply HY. apply Forall_forall. intros y Hy.
    apply is_pm1_spec. rewrite forallb_forall in Hb.
    by apply Hb, list_elem_of_In.
Qed.

Lemma vsum_map_ln_nonpos (ps : vector) :
  Forall (fun p => 0 < p < 1) ps -> vsum (map ln ps) <= 0.
Proof.
  induction 1 as [|p ps Hp _ IH]; simpl; [lra|].
  assert (ln p < 0).
  { rewrite <- ln_1. apply ln_increasing; lra. }
  lra.
Qed.

Lemma Forall_zip_with_lik (u v : vector) :
  Forall (fun p => 0 < p < 1)
         (zip_with (fun y f => 1 / (1 + exp (- y * f))) u v).
Proof.
  revert v. induction u as [|y u IH]; intros [|f v]; simpl;
    try constructor; [apply (lik_bounds y f)|apply IH].
Qed.

(** X12.  The log likelihood of outcomes [1] and [-1] is the sum of the logs
    of their probabilities and never positive; series of different
    lengths raise [RuntimeError]. *)
Theorem X12_log_logistic_likelihood_nonpositive (Ys F : Series) :
  (length Ys <> length F ->
   _log_logistic_likelihood Ys F = Raise RuntimeError) /\
  (length Ys = length F ->
   Forall (fun y => y = -1 \/ y = 1) (values Ys) ->
   _log_logistic_likelihood Ys F
   = Ok (vsum (map ln (zip_with lik (values Ys) (values F)))) /\
   vsum (map ln (zip_with lik (values Ys) (values F))) <= 0).
Proof.
  split.
  - intros Hne. unfold _log_logistic_likelihood.
    by destruct (Nat.eqb_spec (length Ys) (length F)).
  - intros Hlen HY. unfold _log_logistic_likelihood.
    rewrite Hlen, Nat.eqb_refl. cbn [negb].
    unfold _logistic_likelihood. rewrite (forallb_is_pm1 _ HY).
    rewrite vzip_same by (unfold values; by rewrite !length_map).
    split; [reflexivity|].
    apply vsum_map_ln_nonpos, Forall_zip_with_lik.
Qed.

Lemma get_diag_of v i j :
  (i < length v)%nat -> (j < length v)%nat ->
  get (diag_of v) i j = if Nat.eqb i j then nth i v 0 else 0.
Proof. intros Hi Hj. unfold diag_of. by rewrite get_mk. Qed.

(** X13.  The diagonal of [_grad_log_logistic_likelihood] holds the
    derivatives of the log likelihood of each outcome in its latent
    value; the entries off the diagonal are zero. *)
Theorem X13_grad_is_derivative (Ys F : Series) n :
  length Ys = n -> length F = n ->
  Forall (fun y => y = -1 \/ y = 1) (values Ys) ->
  exists G,
    _grad_log_logistic_likelihood Ys F = Ok G /\ wf n n G /\
    forall i j, (i < n)%nat -> (j < n)%nat ->
      if Nat.eqb i j then
        derivable_pt_lim (fun x => ln (lik (nth i (values Ys) 0) x))
          (nth i (values F) 0) (get G i i)
      else get G i j = 0.
Proof.
  intros HlY HlF HY.
  assert (HvY : length (values Ys) = n)
    by (unfold values; by rewrite length_map).
  assert (HvF : length (values F) = n)
    by (unfold values; by rewrite length_map).
  unfold _grad_log_logistic_likelihood.
  rewrite vzip_same by (rewrite !length_map; lia).
  cbn [bind]. eexists. split; [reflexivity|].
  set (g := zip_with Rminus _ _).
  assert (Hg : length g = n).
  { unfold g. rewrite length_zip_with_same; rewrite !length_map; lia. }
  split; [rewrite <- Hg; apply wf_mk|].
  intros i j Hi Hj. rewrite !get_diag_of by lia.
  rewrite Nat.eqb_refl. destruct (Nat.eqb i j); [|done].
  unfold g. rewrite nth_zip_with by (rewrite !length_map; lia).
  rewrite !nth_map_lt by lia.
  apply derivable_log_lik_pm1.
  rewrite Forall_forall in HY. apply HY, list_elem_of_In, nth_In. lia.
Qed.

(** X14.  [_hess] is a diagonal matrix; its diagonal entries lie in
    [(0, 1/4]] and are the negated derivatives of the gradient
    [(y + 1) / 2 - logistic], whatever the label [y]. *)
Theorem X14_hess_is_curvature (F : Series) n y :
  length F = n ->
  wf n n (_hess F) /\
  forall i j, (i < n)%nat -> (j < n)%nat ->
    if Nat.eqb i j then
      0 < get (_hess F) i i <= 1 / 4 /\
      derivable_pt_lim (fun x => (y + 1) / 2 - logistic x)
        (nth i (values F) 0) (- get (_hess F) i i)
    else get (_hess F) i j = 0.
Proof.
  intros HlF.
  assert (HvF : length (values F) = n)
    by (unfold values; by rewrite length_map).
  unfold _hess.
  set (w := map (fun f => logistic f * (1 - logistic f)) (values F)).
  assert (Hw : length w = n) by (unfold w; by rewrite length_map).
  split; [rewrite <- Hw; apply wf_mk|].
  intros i j Hi Hj. rewrite !get_diag_of by lia.
  rewrite Nat.eqb_refl. destruct (Nat.eqb i j); [|done].
  unfold w. rewrite nth_map_lt by lia.
  set (p := logistic (nth i (values F) 0)).
  pose proof (logistic_bounds (nth i (values F) 0)) as Hp. fold p in Hp.
  split.
  { split; [apply Rmult_lt_0_compat; lra|].
    pose proof (pow2_ge_0 (p - 1 / 2)) as Hsq. simpl in Hsq. lra. }
  apply (derivable_pt_lim_ext
           (minus_fct (fct_cte ((y + 1) / 2)) logistic)); [by intros|].
  replace (- (p * (1 - p))) with (0 - p * (1 - p)) by ring.
  apply derivable_pt_lim_minus; [apply derivable_pt_lim_const|].
  apply derivable_logistic.
Qed.

End Likelihood.

Lemma X11_logistic_likelihood_complement_witness :
  (Forall (fun y => y = -1 \/ y = 1) [1] ->
   exists ps qs,
     _logistic_likelihood [1] [0] = Ok ps /\
     _logistic_likelihood (map Ropp [1]) [0] = Ok qs /\
     length ps = length [0] /\ length qs = length [0] /\
     forall i, (i < length [0])%nat ->
       0 < nth i ps 0 < 1 /\ nth i ps 0 + nth i qs 0 = 1) /\
  (~ Forall (fun y => y = -1 \/ y = 1) [1] ->
   _logistic_likelihood [1] [0] = Raise RuntimeError).
Proof. exact (X11_logistic_likelihood_complement [1] [0] eq_refl). Defined.

Lemma X12_log_logistic_likelihood_nonpositive_witness :
  _log_logistic_likelihood [("a"%string, 1)] [("a"%string, 0)]
  = Ok (vsum (map ln (zip_with lik [1] [0]))) /\
  vsum (map ln (zip_with lik [1] [0])) <= 0.
Proof.
  apply (proj2 (X12_log_logistic_likelihood_nonpositive
                  [("a"%string, 1)] [("a"%string, 0)])).
  - reflexivity.
  - constructor; [by right|constructor].
Defined.

Lemma X13_grad_is_derivative_witness :
  exists G,
    _grad_log_logistic_likelihood [("a"%string, 1)] [("a"%string, 0)]
      = Ok G /\ wf 1 1 G /\
    forall i j, (i < 1)%nat -> (j < 1)%nat ->
      if Nat.eqb i j then
        derivable_pt_lim (fun x => ln (lik (nth i [1] 0) x))
          (nth i [0] 0) (get G i i)
      else get G i j = 0.
Proof.
  apply (X13_grad_is_derivative [("a"%string, 1)] [("a"%string, 0)] 1).
  - reflexivity.
  - reflexivity.
  - constructor; [by right|constructor].
Defined.

Lemma X14_hess_is_curvature_witness :
  wf 1 1 (_hess [("a"%string, 0)]) /\
  forall i j, (i < 1)%nat -> (j < 1)%nat ->
    if Nat.eqb i j then
      0 < get (_hess [("a"%string, 0)]) i i <= 1 / 4 /\
      derivable_pt_lim (fun x => (1 + 1) / 2 - logistic x)
        (nth i [0] 0) (- get (_hess [("a"%string, 0)]) i i)
    else get (_hess [("a"%string, 0)]) i j = 0.
Proof. exact (X14_hess_is_curvature [("a"%string, 0)] 1 1 eq_refl). Defined.

(* ================================================================== *)
(** * Prediction for a classification model *)

Section PredictionClass.

Context {K Mf : Type} {HK : GPKernel K} {HM : GPMean Mf}
        {HD : GPMeanDefault Mf} {NP : NumPyLinalg} {SP : SciPy}
        {SK : SkLearn}.
Local Abbreviation obj := (gmap string (value K Mf)).

(** X15.  For a classification model with [n] training points,
    [_predict] returns the latent mean [f_bar = k . grad], the latent
    variance [var = k_star - v^T v] where [v] is what [lstsq] returns
    for [L v = W_root k^T], and the integral of [_p_integral] from
    [f_bar - 10 var] to [f_bar + 10 var], when that variance is positive
    (the integrand divides by it); the arguments [alpha], [L] and
    [unnorm] have no effect. *)
Theorem X15_predict_classification (self : obj) n k k_star oalpha oL unnorm
    grad L W_root v :
  lstsq_solves ->
  self !! "regr" = Some (VBool false) ->
  self !! "_grad" = Some (VArr grad) ->
  self !! "_L" = Some (VArr L) ->
  self !! "_W_root" = Some (VArr W_root) ->
  (0 < n)%nat -> wf 1 n k -> wf 1 n grad -> wf n n W_root ->
  wf n n L -> lower_triangular L -> nonzero_diag n L ->
  lstsq L (mmul W_root (transpose k)) = Ok v ->
  0 < post_var n k_star v ->
  mmul L v = mmul W_root (transpose k) /\
  let f_bar := Rsum n (fun j => get k 0 j * get grad 0 j) in
  let var := post_var n k_star v in
  _predict self k k_star oalpha oL unnorm
  = Ok [quad (fun z => _p_integral z f_bar var)
             (- 10 * var + f_bar) (f_bar + 10 * var);
        f_bar; var].
Proof.
  intros Hls Hregr Hg HL HW Hn Hk Hgr HwW HwL Hlow Hd Hv Hpos.
  pose proof (wf_transpose 1 n k Hk ltac:(lia)) as Hkt.
  pose proof (wf_transpose 1 n grad Hgr ltac:(lia)) as Hgt.
  pose proof (wf_mmul n n 1 W_root _ HwW Hkt Hn) as Hrhs.
  destruct (Hls n L (mmul W_root (transpose k))) as (v' & Hv' & Hwv & Hsol);
    [done|done|by left|done|].
  rewrite Hv in Hv'. injection Hv' as <-.
  split; [done|]. intros f_bar var.
  unfold _predict, get_bool, get_arr, getattr.
  rewrite Hregr, Hg, HL, HW. cbn [bind attr as_bool as_arr].
  rewrite (dot_ok 1 n 1) by (done || lia). cbn [bind].
  rewrite (dot_ok n n 1) by done. cbn [bind]. rewrite Hv. cbn [bind].
  rewrite (dot_ok 1 n 1) by (done || lia || by apply wf_transpose).
  cbn [bind].
  pose proof (item_mmul_row_col n k (transpose grad) Hk Hgt Hn) as HE.
  pose proof (item_vtv n v Hwv Hn) as HV.
  assert (Hfb : post_mean n k (transpose grad) = f_bar).
  { unfold post_mean, f_bar. apply Rsum_ext. intros j Hj.
    by rewrite (get_transpose 1 n) by (done || lia). }
  rewrite Hfb in HE.
  destruct (mmul k (transpose grad)) as [|[|e []] []]; try discriminate.
  destruct (mmul (transpose v) v) as [|[|w []] []]; try discriminate.
  simpl in HE, HV. injection HE as ->. injection HV as ->.
  reflexivity.
Qed.

End PredictionClass.

Lemma X15_predict_classification_witness :
  let v := [[(0 + 1 * 4 - 0) / 1]] in
  mmul [[1]] v = mmul [[1]] (transpose [[4]]) /\
  let f_bar := Rsum 1 (fun j => get [[4]] 0 j * get [[1]] 0 j) in
  let var := post_var 1 20 v in
  _predict (NP := numpy_ref) (SP := scipy_stub) class_model [[4]] 20
    None None true
  = Ok [quad (SciPy := scipy_stub) (fun z => _p_integral z f_bar var)
             (- 10 * var + f_bar) (f_bar + 10 * var);
        f_bar; var].
Proof.
  apply (X15_predict_classification (NP := numpy_ref) (SP := scipy_stub)
           class_model 1 [[4]] 20 None None true [[1]] [[1]] [[1]]
           [[(0 + 1 * 4 - 0) / 1]]).
  - apply lstsq_ref_solves.
  - reflexivity.
  - reflexivity.
  - reflexivity.
  - reflexivity.
  - lia.
  - by repeat constructor.
  - by repeat constructor.
  - by repeat constructor.
  - by repeat constructor.
  - apply lower_triangular_1.
  - intros i Hi. replace i with 0%nat by lia. unfold get. simpl. lra.
  - reflexivity.
  - unfold post_var, get. simpl. lra.
Defined.

(* ================================================================== *)
(** * The kernel after [predicts] *)

Lemma loc1_elem {A} (d : list (ident * A)) i r :
  r ∈ loc1 d i <-> r ∈ d /\ fst r = i.
Proof.
  unfold loc1. rewrite list_elem_of_filter.
  rewrite Is_true_true, String.eqb_eq. tauto.
Qed.

(** The rows of [d.loc[ids]] are the rows of [d] labelled by [ids]. *)
Lemma loc_elem {A} (d : list (ident * A)) ids rows r :
  loc d ids = Ok rows -> r ∈ rows <-> r ∈ d /\ fst r ∈ ids.
Proof.
  revert rows. induction ids as [|i ids IH]; intros rows Hloc;
    simpl in Hloc.
  - injection Hloc as <-. split.
    + by intros H%elem_of_nil.
    + by intros [_ H%elem_of_nil].
  - destruct (loc1 d i) as [|r0 l] eqn:Hl; [done|].
    apply bind_ok in Hloc as (rest & Hrest & Hloc). injection Hloc as <-.
    change (r ∈ (r0 :: l) ++ rest <-> r ∈ d /\ fst r ∈ i :: ids).
    rewrite elem_of_app, (IH rest Hrest), <- Hl, loc1_elem, elem_of_cons.
    split.
    + intros [[Hd Hi]|[Hd Hi]]; (split; [done|]); [by left|by right].
    + intros [Hd [Hi|Hi]]; [left|right]; done.
Qed.

Section PredictsKernel.

Context {K Mf : Type} {HK : GPKernel K} {HM : GPMean Mf}
        {HD : GPMeanDefault Mf} {NP : NumPyLinalg} {SP : SciPy}
        {SK : SkLearn}.
Local Abbreviation obj := (gmap string (value K Mf)).

(** X16.  When [predicts] returns, the kernel has been trained on the
    new sequences; with [delete] it then had deleted from it the rows of
    the new sequences whose label is not a label of the training set, and
    only those: no training sequence is deleted from the kernel. *)
Theorem X16_predicts_kernel (self self' : obj) new_seqs del preds kern X :
  self !! "kern" = Some (VKern kern) ->
  self !! "X_seqs" = Some (VFrame X) ->
  predicts new_seqs del self = (Ok preds, self') ->
  if del then
    exists rows,
      self' !! "kern" = Some (VKern (delete (train kern new_seqs) rows)) /\
      forall r, r ∈ rows <-> r ∈ new_seqs /\ fst r ∉ index X
  else self' !! "kern" = Some (VKern (train kern new_seqs)).
Proof.
  intros Hk HX Hrun. unfold predicts in Hrun.
  run_read Hrun kern0 Hk0.
  unfold get_kern, getattr in Hk0. rewrite Hk in Hk0.
  cbn [bind attr as_kern] in Hk0. injection Hk0 as <-.
  run_set Hrun. run_read Hrun h Hh. run_read Hrun predictions Hp.
  apply mbind_ok in Hrun as (ud & s1 & Hdel & Hrun).
  assert (Hs1 : self' !! "kern" = s1 !! "kern").
  { run_read Hrun regr Hr. destruct regr.
    - run_read Hrun mf Hmf. by apply lift_ok in Hrun as [_ ->].
    - by apply ret_ok in Hrun as [_ ->]. }
  rewrite Hs1. clear Hrun Hs1. destruct del.
  - run_read Hdel X0 HX0.
    unfold get_frame, getattr in HX0. rewrite lookup_insert_ne in HX0 by done.
    rewrite HX in HX0. cbn [bind attr as_frame] in HX0. injection HX0 as <-.
    run_lift Hdel rows Hrows. run_read Hdel k2 Hk2.
    unfold get_kern, getattr in Hk2. rewrite lookup_insert_eq in Hk2.
    cbn [bind attr as_kern] in Hk2. injection Hk2 as <-.
    apply setattr_ok in Hdel. subst s1.
    exists rows. split; [by rewrite lookup_insert_eq|].
    intros r. rewrite (loc_elem _ _ _ r Hrows).
    rewrite elem_of_remove_dups, list_elem_of_difference.
    split.
    + by intros [Hr [_ Hn]].
    + intros [Hr Hn]. split; [done|]. split; [|done].
      unfold index. apply list_elem_of_In, in_map.
      by apply list_elem_of_In.
  - apply ret_ok in Hdel as [_ ->]. by rewrite lookup_insert_eq.
Qed.

End PredictsKernel.

Lemma class_model_predicts :
  exists preds s',
    predicts (HK := hamming_kernel) (HM := zero_mean) (NP := numpy_ref)
      (SP := scipy_stub) [("b", "K")]%string true class_model
    = (Ok preds, s').
Proof. eexists _, _. reflexivity. Qed.

Lemma X16_predicts_kernel_witness :
  exists s' rows,
    (predicts (HK := hamming_kernel) (HM := zero_mean) (NP := numpy_ref)
       (SP := scipy_stub) [("b", "K")]%string true class_model).2 = s' /\
    s' !! "kern"
    = Some (VKern (delete (GPKernel := hamming_kernel)
                     (train (GPKernel := hamming_kernel) fitted_kernel
                        [("b", "K")]%string) rows)) /\
    forall r, r ∈ rows <->
              r ∈ [("b", "K")]%string /\ fst r ∉ index [("a", "R")]%string.
Proof.
  destruct class_model_predicts as (preds & s' & Hrun).
  destruct (X16_predicts_kernel (HK := hamming_kernel) (HM := zero_mean)
              (NP := numpy_ref) (SP := scipy_stub) class_model s'
              [("b", "K")]%string true preds fitted_kernel
              [("a", "R")]%string eq_refl eq_refl Hrun)
    as (rows & H1 & H2).
  exists s', rows. split; [by rewrite Hrun|]. by split.
Defined.

(* ================================================================== *)
(** * Scoring *)

Section ScoreChecks.

Context {K Mf : Type} {HK : GPKernel K} {HM : GPMean Mf}
        {HD : GPMeanDefault Mf} {NP : NumPyLinalg} {SP : SciPy}
        {SK : SkLearn}.
Local Abbreviation obj := (gmap string (value K Mf)).

(** X17.  [score] raises [ValueError] before it predicts anything,
    leaving the model and its kernel as they were, unless [X] and [Y]
    have the same number of rows and the same set of labels. *)
Theorem X17_score_index_mismatch (self : obj) X (Ys : Series) args :
  ~ ((forall i, i ∈ index X <-> i ∈ index Ys) /\ length X = length Ys) ->
  score X Ys args self = (Raise ValueError, self).
Proof.
  intros Hne. unfold score.
  destruct (bool_decide _) eqn:Hset; [|done].
  destruct (Nat.eqb_spec (length X) (length Ys)) as [Hlen|Hlen]; [|done].
  exfalso. apply Hne. split; [|done].
  apply bool_decide_eq_true in Hset. intros i.
  rewrite <- !(elem_of_list_to_set (C := gset string)). by rewrite Hset.
Qed.

(** The value [score] computes for the metric named [t]. *)
Definition metric (Ys pred_Y : vector) (t : string) : R :=
  if String.eqb t "kendalltau" then kendalltau (rankdata Ys) (rankdata pred_Y)
  else if String.eqb t "R2" then r2_score Ys pred_Y
  else corrcoef Ys pred_Y.

Definition valid_metric (t : string) : Prop :=
  t = "kendalltau"%string \/ t = "R2"%string \/ t = "R"%string.

(** The dictionary [scores] after the loop over [args]. *)
Definition scored (Ys pred_Y : vector) (scores : gmap string R)
    (args : list string) : gmap string R :=
  foldl (fun m t => <[t := metric Ys pred_Y t]> m) scores args.

Lemma scored_cons Ys pred_Y scores t args :
  scored Ys pred_Y scores (t :: args)
  = scored Ys pred_Y (<[t := metric Ys pred_Y t]> scores) args.
Proof. reflexivity. Qed.

Lemma score_metrics_cons Ys pred_Y t args scores :
  score_metrics Ys pred_Y (t :: args) scores
  = if String.eqb t "kendalltau" || String.eqb t "R2" || String.eqb t "R"
    then score_metrics Ys pred_Y args (<[t := metric Ys pred_Y t]> scores)
    else Raise ValueError.
Proof.
  simpl. unfold metric.
  by destruct (String.eqb t "kendalltau"), (String.eqb t "R2"),
    (String.eqb t "R").
Qed.

Lemma score_metrics_spec Ys pred_Y args : forall scores d,
  score_metrics Ys pred_Y args scores = Ok d ->
  Forall valid_metric args /\ d = scored Ys pred_Y scores args.
Proof.
  induction args as [|t args IH]; intros scores d Hd.
  - injection Hd as <-. split; [constructor|done].
  - rewrite score_metrics_cons in Hd.
    destruct (_ || _) eqn:Hv in Hd; [|done].
    apply IH in Hd as [Hvalid ->]. split; [|done].
    constructor; [|done].
    apply orb_true_iff in Hv as [Hv|Hv];
      [apply orb_true_iff in Hv as [Hv|Hv]|];
      apply String.eqb_eq in Hv; unfold valid_metric; tauto.
Qed.

Lemma scored_lookup_other Ys pred_Y args : forall scores t,
  t ∉ args -> scored Ys pred_Y scores args !! t = scores !! t.
Proof.
  induction args as [|a args IH]; intros scores t Ht; [done|].
  rewrite scored_cons.
  rewrite not_elem_of_cons in Ht. destruct Ht as [Hne Ht].
  rewrite IH by done. by rewrite lookup_insert_ne.
Qed.

Lemma scored_lookup Ys pred_Y args : forall scores t,
  t ∈ args ->
  scored Ys pred_Y scores args !! t = Some (metric Ys pred_Y t).
Proof.
  induction args as [|a args IH]; intros scores t Ht.
  - by apply elem_of_nil in Ht.
  - rewrite scored_cons.
    destruct (decide (t ∈ args)) as [Hin|Hnin]; [by apply IH|].
    apply elem_of_cons in Ht as [->|Ht]; [|done].
    rewrite scored_lookup_other by done. by rewrite lookup_insert_eq.
Qed.

Lemma scored_repeat Ys pred_Y t args :
  args <> [] -> (forall u, u ∈ args -> u = t) ->
  scored Ys pred_Y ∅ args = {[t := metric Ys pred_Y t]}.
Proof.
  intros Hne Hall. apply map_eq. intros i.
  destruct (decide (i = t)) as [->|Hi].
  - rewrite lookup_singleton_eq. apply scored_lookup.
    destruct args as [|a args]; [done|].
    rewrite <- (Hall a) by apply list_elem_of_here.
    apply list_elem_of_here.
  - rewrite lookup_singleton_ne by done.
    rewrite scored_lookup_other; [done|].
    intros Hin. by apply Hi, Hall.
Qed.

Lemma predicted_means (predicted : list vector) pred_Y :
  mapM (fun yv => match yv with
                  | [y; v] => Ok y
                  | _ => Raise ValueError
                  end) predicted = Ok pred_Y ->
  Forall (fun p => length p = 2%nat) predicted /\
  pred_Y = map (fun p => nth 0 p 0) predicted.
Proof.
  revert pred_Y. induction predicted as [|p predicted IH]; intros pred_Y Hm.
  - injection Hm as <-. by split.
  - simpl in Hm. apply bind_ok in Hm as (y & Hy & Hm).
    apply bind_ok in Hm as (ys & Hys & Hm). injection Hm as <-.
    destruct p as [|y0 [|v0 [|]]]; try done. injection Hy as <-.
    apply IH in Hys as [Hall ->]. split; [by constructor|done].
Qed.

(** X18.  A regression model scored with named metrics: every name must
    be one of ['kendalltau'], ['R2'] and ['R']; the metrics are computed
    on the values of [Y] and the means of the predictions for [X]; when
    all the names given are the same name, the result is the one float of
    that metric, otherwise it is the dictionary that holds each name
    given with its metric. *)
Theorem X18_score_metrics_result (self self' : obj) X (Ys : Series) args res :
  self !! "regr" = Some (VBool true) ->
  args <> [] ->
  score X Ys args self = (Ok res, self') ->
  exists predicted s1 pred_Y,
    predicts X true self = (Ok predicted, s1) /\
    Forall (fun p => length p = 2%nat) predicted /\
    pred_Y = map (fun p => nth 0 p 0) predicted /\
    (length pred_Y <= length X)%nat /\
    Forall valid_metric args /\
    ((exists t, (forall u, u ∈ args -> u = t) /\
                res = Score (metric (values Ys) pred_Y t)) \/
     (exists d t u, t ∈ args /\ u ∈ args /\ t <> u /\ res = Scores d /\
        forall v, d !! v = if decide (v ∈ args)
                           then Some (metric (values Ys) pred_Y v)
                           else None)).
Proof.
  intros Hregr Hargs Hrun. unfold score in Hrun.
  destruct (negb _); [done|].
  apply mbind_ok in Hrun as (predicted & s1 & Hp & Hrun).
  assert (Hr1 : s1 !! "regr" = Some (VBool true)).
  { rewrite <- Hregr.
    apply (predicts_assigns X true self (Ok predicted) s1 "regr" Hp).
    by intros H%list_elem_of_singleton. }
  run_read Hrun regr Hr.
  unfold get_bool, getattr in Hr. rewrite Hr1 in Hr.
  cbn [bind attr as_bool] in Hr. injection Hr as <-. cbn [negb] in Hrun.
  run_lift Hrun pred_Y HpY.
  exists predicted, s1, pred_Y. split; [done|].
  destruct (predicted_means _ _ HpY) as [Hshape Hmeans].
  split; [done|]. split; [done|]. split.
  { apply mapM_length in HpY.
    unfold predicts in Hp.
    run_read Hp kern Hk. run_set Hp. run_read Hp h Hh.
    run_read Hp predictions Hpr.
    apply bind_ok in Hpr as (k1 & _ & Hpr). apply mapM_length in Hpr.
    unfold index in Hpr. rewrite length_map in Hpr.
    apply mbind_ok in Hp as (ud & s2 & _ & Hp).
    run_read Hp regr Hr. destruct regr.
    - run_read Hp mf Hmf. apply lift_ok in Hp as [Hp _].
      apply mapM_length in Hp. rewrite length_zip_with in Hp.
      unfold vector, matrix in *. lia.
    - apply ret_ok in Hp as [-> _]. unfold vector, matrix in *. lia. }
  destruct args as [|a args]; [done|].
  run_lift Hrun scores Hsc.
  apply score_metrics_spec in Hsc as [Hvalid ->]. split; [done|].
  set (l := a :: args) in *.
  destruct (decide (Forall (eq a) l)) as [Hall|Hsome].
  - left. exists a.
    assert (Hall' : forall u, u ∈ l -> u = a).
    { intros u Hu. rewrite Forall_forall in Hall. symmetry. by apply Hall. }
    split; [done|].
    rewrite (scored_repeat _ _ a l Hargs Hall') in Hrun.
    rewrite map_to_list_singleton in Hrun.
    by apply ret_ok in Hrun as [-> _].
  - right.
    apply not_Forall_Exists in Hsome; [|apply _].
    apply Exists_exists in Hsome as (u & Hu & Hne).
    set (d := scored (values Ys) pred_Y ∅ l) in *.
    assert (Ha : d !! a = Some (metric (values Ys) pred_Y a))
      by (apply scored_lookup, list_elem_of_here).
    assert (Hdu : d !! u = Some (metric (values Ys) pred_Y u))
      by (by apply scored_lookup).
    exists d, a, u. split; [apply list_elem_of_here|]. split; [done|].
    split; [done|]. split.
    + destruct (map_to_list d) as [|[k r] [|p rest]] eqn:Hl.
      * by apply ret_ok in Hrun as [-> _].
      * exfalso.
        apply elem_of_map_to_list in Ha, Hdu. rewrite Hl in Ha, Hdu.
        apply list_elem_of_singleton in Ha, Hdu. congruence.
      * by apply ret_ok in Hrun as [-> _].
    + intros v. destruct (decide (v ∈ l)) as [Hv|Hv].
      * by apply scored_lookup.
      * unfold d. rewrite scored_lookup_other by done. apply lookup_empty.
Qed.

End ScoreChecks.

Lemma X17_score_index_mismatch_witness :
  score (HK := hamming_kernel) (HM := zero_mean) (NP := numpy_ref)
    (SP := scipy_stub) (SK := sklearn_stub) [("b", "K")]%string [] []
    fitted_model
  = (Raise ValueError, fitted_model).
Proof.
  apply (X17_score_index_mismatch (HK := hamming_kernel) (HM := zero_mean)
           (NP := numpy_ref) (SP := scipy_stub) (SK := sklearn_stub)).
  intros [_ Hlen]. discriminate Hlen.
Defined.

(** A fitted regression model with its normalization constants and its
    mean function. *)
Definition regression_model : obj HammingKernel vector :=
  <["mean_func" := VMean []]> (<["std" := VFloat 1]>
  (<["mean" := VFloat 0]> fitted_model)).

Lemma regression_model_score :
  exists res s',
    score (HK := hamming_kernel) (HM := zero_mean) (NP := numpy_ref)
      (SP := scipy_stub) (SK := sklearn_stub) [("b", "K")]%string
      [("b"%string, 1)] ["R2"; "R2"]%string regression_model
    = (Ok res, s').
Proof. eexists _, _. reflexivity. Qed.

Lemma X18_score_metrics_result_witness :
  exists res predicted s1 pred_Y,
    (score (HK := hamming_kernel) (HM := zero_mean) (NP := numpy_ref)
       (SP := scipy_stub) (SK := sklearn_stub) [("b", "K")]%string
       [("b"%string, 1)] ["R2"; "R2"]%string regression_model).1
    = Ok res /\
    predicts (HK := hamming_kernel) (HM := zero_mean) (NP := numpy_ref)
      (SP := scipy_stub) [("b", "K")]%string true regression_model
    = (Ok predicted, s1) /\
    Forall (fun p => length p = 2%nat) predicted /\
    pred_Y = map (fun p => nth 0 p 0) predicted /\
    (length pred_Y <= length [("b", "K")]%string)%nat /\
    Forall valid_metric ["R2"; "R2"]%string /\
    ((exists t, (forall u, u ∈ ["R2"; "R2"]%string -> u = t) /\
                res = Score (metric (NP := numpy_ref) (SP := scipy_stub)
                               (SK := sklearn_stub)
                               (values [("b"%string, 1)]) pred_Y t)) \/
     (exists d t u, t ∈ ["R2"; "R2"]%string /\ u ∈ ["R2"; "R2"]%string /\
        t <> u /\ res = Scores d /\
        forall v, d !! v = if decide (v ∈ ["R2"; "R2"]%string)
                           then Some (metric (NP := numpy_ref)
                                        (SP := scipy_stub)
                                        (SK := sklearn_stub)
                                        (values [("b"%string, 1)]) pred_Y v)
                           else None)).
Proof.
  destruct regression_model_score as (res & s' & Hrun).
  destruct (X18_score_metrics_result (HK := hamming_kernel) (HM := zero_mean)
              (NP := numpy_ref) (SP := scipy_stub) (SK := sklearn_stub)
              regression_model s' [("b", "K")]%string [("b"%string, 1)]
              ["R2"; "R2"]%string res eq_refl ltac:(discriminate) Hrun)
    as (predicted & s1 & pred_Y & H).
  exists res, predicted, s1, pred_Y. split; [by rewrite Hrun|exact H].
Defined.

(* ================================================================== *)
(** * The selections of the batch are distinct *)

Lemma loc1_unique {A} (d : list (ident * A)) i :
  NoDup (index d) -> (length (loc1 d i) <= 1)%nat.
Proof.
  unfold loc1, index, ident in *.
  induction d as [|r d IH]; intros Hnd; [simpl; lia|].
  simpl in Hnd. apply NoDup_cons in Hnd as [Hr Hnd].
  rewrite filter_cons. destruct (decide _) as [Hi|Hi]; [|by apply IH].
  apply Is_true_true, String.eqb_eq in Hi.
  match goal with
  | |- context [filter ?P d] => destruct (filter P d) as [|r' l] eqn:Hf
  end; [simpl; lia|].
  exfalso. apply Hr.
  assert (Hr' : r' ∈ r' :: l) by apply list_elem_of_here.
  rewrite <- Hf in Hr'.
  apply list_elem_of_filter in Hr' as [Hi' Hr'].
  apply Is_true_true, String.eqb_eq in Hi'.
  rewrite Hi, <- Hi'. apply list_elem_of_In, in_map.
  by apply list_elem_of_In.
Qed.

(** With distinct labels, [d.loc[ids]] has one row per label asked for,
    in the order asked. *)
Lemma loc_index {A} (d : list (ident * A)) ids rows :
  NoDup (index d) -> loc d ids = Ok rows -> index rows = ids.
Proof.
  intros Hnd. revert rows.
  induction ids as [|i ids IH]; intros rows Hloc; simpl in Hloc.
  - by injection Hloc as <-.
  - pose proof (loc1_unique d i Hnd) as Hlen.
    destruct (loc1 d i) as [|r [|r' l]] eqn:Hl; [done| |simpl in Hlen; lia].
    apply bind_ok in Hloc as (rest & Hrest & Hloc). injection Hloc as <-.
    assert (Hr : r ∈ loc1 d i) by (rewrite Hl; apply list_elem_of_here).
    apply loc1_elem in Hr as [_ Hr].
    unfold index in *. simpl. by rewrite Hr, (IH rest).
Qed.

Lemma drop_ids (l : list row) (i x : ident) :
  x ∈ map r_id (drop l i) -> x <> i /\ x ∈ map r_id l.
Proof.
  intros Hx. apply list_elem_of_In, in_map_iff in Hx as (r & <- & Hr).
  apply list_elem_of_In in Hr. unfold drop in Hr.
  apply list_elem_of_filter in Hr as [Hne Hr]. split.
  - intros Heq. rewrite Heq, String.eqb_refl in Hne. by simpl in Hne.
  - apply list_elem_of_In, in_map. by apply list_elem_of_In.
Qed.

Section Distinct.

Context {K Mf : Type} {HK : GPKernel K} {HM : GPMean Mf}
        {HD : GPMeanDefault Mf} {NP : NumPyLinalg} {SP : SciPy}
        {SK : SkLearn}.
Local Abbreviation obj := (gmap string (value K Mf)).

(** The labels selected in the rounds [i .. n - 1] are distinct labels
    of the frame the rounds start from. *)
Lemma bandit_loop_distinct (self : obj) sequences h n k : forall i st st',
  (i + k = n)%nat ->
  bandit_loop self sequences h n (seq i k) st = Ok st' ->
  exists ids,
    selected st' = selected st ++ ids /\ NoDup ids /\
    forall x, x ∈ ids -> x ∈ map r_id (df st).
Proof.
  induction k as [|k IH]; intros i st st' Hik Hloop; simpl in Hloop.
  - injection Hloop as <-. exists []. split; [by rewrite app_nil_r|].
    split; [constructor|]. by intros x Hx%elem_of_nil.
  - apply bind_ok in Hloop as (id_max & Hmax & Hloop).
    apply bind_ok in Hloop as (st1 & Hst1 & Hloop).
    apply idxmax_first_max in Hmax as (r & Hr & <-).
    assert (Hin : r_id r ∈ map r_id (df st)).
    { apply list_elem_of_In, in_map, list_elem_of_In.
      by apply first_max_in. }
    destruct (Nat.eqb_spec i (n - 1)) as [Hi|Hi]; simpl in Hst1.
    + injection Hst1 as <-. assert (k = 0)%nat as -> by lia.
      simpl in Hloop. injection Hloop as <-.
      exists [r_id r]. split; [done|]. split; [apply NoDup_singleton|].
      by intros x ->%list_elem_of_singleton.
    + apply IH in Hloop as (ids & Hids & Hnd & Hsub); [|lia].
      exists (r_id r :: ids).
      destruct (bandit_update_spec _ _ _ _ _ _ Hst1)
        as (ks & P & _ & _ & _ & Hdf & Hs).
      cbn [pick df selected] in Hdf, Hs.
      assert (Hsub' : forall x, x ∈ ids ->
                x <> r_id r /\ x ∈ map r_id (df st)).
      { intros x Hx. apply Hsub in Hx. rewrite Hdf, updated_ids in Hx.
        by apply drop_ids in Hx. }
      split; [rewrite Hids, Hs; simpl; by rewrite <- app_assoc|].
      split.
      * apply NoDup_cons. split; [|done].
        intros Hx. by apply Hsub' in Hx as [Hx _].
      * intros x [->|Hx]%elem_of_cons; [done|]. by apply Hsub'.
Qed.

(** X19.  [batch_UB_bandit] never selects a candidate twice: the labels
    it returns are pairwise distinct labels of the pool, and the frame it
    returns holds the rows of the pool with these labels and no other
    row; when the labels of the pool are distinct, it holds exactly one
    row for each selection, in the order of selection. *)
Theorem X19_batch_UB_bandit_distinct (self self' : obj) sequences n predictions
    picked ids :
  batch_UB_bandit sequences n predictions self = (Ok (picked, ids), self') ->
  NoDup ids /\
  (forall i, i ∈ ids -> i ∈ index sequences) /\
  (forall r, r ∈ picked <-> r ∈ sequences /\ fst r ∈ ids) /\
  (NoDup (index sequences) -> index picked = ids).
Proof.
  intros Hrun. unfold batch_UB_bandit in Hrun.
  run_read Hrun X HX. run_read Hrun nY HY. run_read Hrun cov HKy.
  run_read Hrun kern0 Hk0. run_set Hrun.
  run_read Hrun h Hh. run_read Hrun df0 Hdf. run_read Hrun st Hst.
  run_lift Hrun pk Hp. apply ret_ok in Hrun as [[= -> ->] ->].
  apply (bandit_loop_distinct _ _ _ n n 0%nat) in Hst
    as (ids & Hids & Hnd & Hsub); [|lia].
  cbn [selected df app] in Hids, Hsub. rewrite Hids in Hp |- *.
  destruct (bandit_init_rows _ _ _ _ _ Hdf) as (k_stars & ks & P & ->).
  replace (length sequences) with (length (index sequences)) in Hsub
    by (unfold index; apply length_map).
  rewrite init_ids in Hsub.
  split; [done|]. split; [done|]. split.
  - intros r. by apply loc_elem.
  - intros Hpool. by apply (loc_index sequences).
Qed.

End Distinct.

Lemma X19_batch_UB_bandit_distinct_witness :
  NoDup ["b"; "d"]%string /\
  (forall i, i ∈ ["b"; "d"]%string -> i ∈ index pool) /\
  (forall r, r ∈ [("b", "KB"); ("d", "RD")]%string <->
             r ∈ pool /\ fst r ∈ ["b"; "d"]%string) /\
  (NoDup (index pool) ->
   index [("b", "KB"); ("d", "RD")]%string = ["b"; "d"]%string).
Proof.
  exact (X19_batch_UB_bandit_distinct (HK := hamming_kernel) (NP := numpy_ref)
           (SP := scipy_stub) pool_model _ pool 2 None _ _ pool_two_rounds).
Defined.

(* ================================================================== *)
(** * Batched prediction for a regression model *)

Section PredictsRegression.

Context {K Mf : Type} {HK : GPKernel K} {HM : GPMean Mf}
        {HD : GPMeanDefault Mf} {NP : NumPyLinalg} {SP : SciPy}
        {SK : SkLearn}.
Local Abbreviation obj := (gmap string (value K Mf)).

(** X20.  For a fitted regression model with [n] training sequences,
    [predicts] returns one pair per new sequence [ns]: with [k] the
    covariances of [ns] against the training sequences and [k_star] its
    prior variance, both computed by the kernel trained on the new
    sequences from the hyperparameters after the first, and [v] a
    solution of [L v = k^T], the pair is [(k . alpha) * std + mean] plus
    the value of the mean function at [ns], and
    [(k_star - v^T v) * std^2]. *)
Theorem X20_predicts_regression (self self' : obj) new_seqs del preds kern X
    alpha L s m mf hy :
  lstsq_solves ->
  self !! "regr" = Some (VBool true) ->
  self !! "kern" = Some (VKern kern) ->
  self !! "X_seqs" = Some (VFrame X) ->
  self !! "_alpha" = Some (VArr alpha) ->
  self !! "_L" = Some (VArr L) ->
  self !! "std" = Some (VFloat s) ->
  self !! "mean" = Some (VFloat m) ->
  self !! "mean_func" = Some (VMean mf) ->
  self !! "hypers" = Some (VHypers hy) ->
  (0 < length X)%nat -> wf (length X) (length X) L ->
  lower_triangular L -> nonzero_diag (length X) L ->
  wf (length X) 1 alpha ->
  length (mean_mean mf new_seqs) = length new_seqs ->
  predicts new_seqs del self = (Ok preds, self') ->
  length preds = length new_seqs /\
  forall i, (i < length new_seqs)%nat ->
    let ns := nth i (index new_seqs) EmptyString in
    let trained := train kern new_seqs in
    let h := tl (values hy) in
    exists k k_star v,
      mapM (fun seq1 => calc_kernel trained ns seq1 h) (index X) = Ok k /\
      calc_kernel trained ns ns h = Ok k_star /\
      mmul L v = transpose [k] /\
      nth i preds []
      = [post_mean (length X) [k] alpha * s + m
         + nth i (mean_mean mf new_seqs) 0;
         post_var (length X) k_star v * s ^ 2].
Proof.
  intros Hls Hregr Hk HX Ha HL Hs Hm Hmf Hhy Hn HwL Hlow Hd Hwa Hmeans Hrun.
  unfold predicts in Hrun.
  run_read Hrun kern0 Hk0.
  unfold get_kern, getattr in Hk0. rewrite Hk in Hk0.
  cbn [bind attr as_kern] in Hk0. injection Hk0 as <-.
  run_set Hrun. run_read Hrun h Hh.
  unfold kernel_hypers, get_bool, get_hypers, getattr in Hh.
  rewrite !lookup_insert_ne in Hh by done. rewrite Hregr, Hhy in Hh.
  cbn [bind attr as_bool as_hypers] in Hh. injection Hh as <-.
  run_read Hrun predictions Hp.
  unfold get_kern, getattr in Hp. rewrite lookup_insert_eq in Hp.
  cbn [bind attr as_kern] in Hp.
  apply mbind_ok in Hrun as (ud & s1 & Hdel & Hrun).
  assert (Hs1 : s1 !! "regr" = Some (VBool true) /\
                s1 !! "mean_func" = Some (VMean mf)).
  { destruct del.
    - run_read Hdel X0 HX0. run_lift Hdel rows Hrows. run_read Hdel k2 Hk2.
      apply setattr_ok in Hdel. subst s1.
      by rewrite !lookup_insert_ne by done.
    - apply ret_ok in Hdel as [_ ->]. by rewrite !lookup_insert_ne by done. }
  destruct Hs1 as [Hr1 Hmf1].
  run_read Hrun regr Hr.
  unfold get_bool, getattr in Hr. rewrite Hr1 in Hr.
  cbn [bind attr as_bool] in Hr. injection Hr as <-.
  run_read Hrun mf0 Hmf0.
  unfold get_mean_func, getattr in Hmf0. rewrite Hmf1 in Hmf0.
  cbn [bind attr as_mean] in Hmf0. injection Hmf0 as <-.
  apply lift_ok in Hrun as [Hz _].
  pose proof (mapM_length _ _ _ Hp) as Hlp.
  unfold index in Hlp. rewrite length_map in Hlp.
  pose proof (mapM_length _ _ _ Hz) as Hlz.
  rewrite length_zip_with in Hlz.
  split; [unfold vector, matrix in *; lia|].
  intros i Hi ns trained hh. subst trained hh.
  pose proof (mapM_nth _ _ _ i EmptyString [] Hp) as Hpi.
  unfold index in Hpi at 1. rewrite length_map in Hpi. specialize (Hpi Hi).
  change (nth i (index new_seqs) EmptyString) with ns in Hpi.
  set (s0 := <["kern" := VKern (train kern new_seqs)]> self) in *.
  apply bind_ok in Hpi as (kv & Hkv & Hpi).
  apply bind_ok in Hpi as (k_star & Hks & Hpi).
  unfold k_vector, get_frame, getattr in Hkv.
  unfold s0 in Hkv at 1. rewrite lookup_insert_ne in Hkv by done.
  rewrite HX in Hkv. cbn [bind attr as_frame] in Hkv.
  apply bind_ok in Hkv as (k & Hkk & Hkv). injection Hkv as <-.
  assert (Hwk : wf 1 (length X) [k]).
  { split; [done|]. constructor; [|constructor].
    apply mapM_length in Hkk. unfold index in Hkk.
    by rewrite length_map in Hkk. }
  destruct (Hls (length X) L (transpose [k])) as (v & Hv & Hwv & Hsol);
    [done|by apply wf_transpose; [|lia]|by left|done|].
  exists k, k_star, v. split; [done|]. split; [done|]. split; [done|].
  rewrite (_predict_regr s0 (length X) [k] k_star None None alpha L v true)
    in Hpi; try done; try (unfold s0; by rewrite lookup_insert_ne).
  unfold get_float, getattr, s0 in Hpi.
  rewrite !lookup_insert_ne in Hpi by done. rewrite Hs, Hm in Hpi.
  cbn [bind attr as_float] in Hpi.
  pose proof (mapM_nth _ _ _ i (0, []) [] Hz) as Hzi.
  rewrite length_zip_with in Hzi.
  specialize (Hzi ltac:(unfold vector, matrix in *; lia)).
  rewrite nth_zip in Hzi by (unfold vector, matrix in *; lia).
  injection Hpi as Hpi. rewrite <- Hpi in Hzi.
  injection Hzi as Hzi. symmetry. exact Hzi.
Qed.

End PredictsRegression.

Lemma regression_model_predicts :
  exists preds s',
    predicts (HK := hamming_kernel) (HM := zero_mean) (NP := numpy_ref)
      (SP := scipy_stub) [("b", "K")]%string true regression_model
    = (Ok preds, s').
Proof. eexists _, _. reflexivity. Qed.

Lemma X20_predicts_regression_witness :
  exists preds,
    (predicts (HK := hamming_kernel) (HM := zero_mean) (NP := numpy_ref)
       (SP := scipy_stub) [("b", "K")]%string true regression_model).1
    = Ok preds /\
    length preds = length [("b", "K")]%string /\
    forall i, (i < length [("b", "K")]%string)%nat ->
      let ns := nth i (index [("b", "K")]%string) EmptyString in
      let trained := train (GPKernel := hamming_kernel) fitted_kernel
                       [("b", "K")]%string in
      let h := tl (values [("var_n", 1); ("var_p", 1)]%string) in
      exists k k_star v,
        mapM (fun seq1 => calc_kernel (GPKernel := hamming_kernel)
                            trained ns seq1 h)
             (index [("a", "R")]%string) = Ok k /\
        calc_kernel (GPKernel := hamming_kernel) trained ns ns h
          = Ok k_star /\
        mmul [[1]] v = transpose [k] /\
        nth i preds []
        = [post_mean (length [("a", "R")]%string) [k] [[1]] * 1 + 0
           + nth i (mean_mean (GPMean := zero_mean) []
                      [("b", "K")]%string) 0;
           post_var (length [("a", "R")]%string) k_star v * 1 ^ 2].
Proof.
  destruct regression_model_predicts as (preds & s' & Hrun).
  exists preds. split; [by rewrite Hrun|].
  apply (X20_predicts_regression (HK := hamming_kernel) (HM := zero_mean)
           (NP := numpy_ref) (SP := scipy_stub) regression_model s'
           [("b", "K")]%string true preds fitted_kernel
           [("a", "R")]%string [[1]] [[1]] 1 0 []
           [("var_n", 1); ("var_p", 1)]%string); try reflexivity.
  - apply lstsq_ref_solves.
  - simpl. lia.
  - by repeat constructor.
  - apply lower_triangular_1.
  - intros i Hi. simpl in Hi. replace i with 0%nat by lia.
    unfold get. simpl. lra.
  - by repeat constructor.
  - exact Hrun.
Defined.

(* ================================================================== *)
(** * What [fit] stores and what it optimizes *)

Ltac outside Hi :=
  repeat (rewrite lookup_insert_ne; [|intros <-; apply Hi; in_names]);
  done.

(** Outputs that [_normalize] can normalize: pandas' standard deviation
    of fewer than two values is [nan], and a standard deviation of zero
    makes every normalized output [nan] or [inf]. *)
Definition normalizable (d : vector) : Prop :=
  (2 <= length d)%nat /\ series_std d <> 0.

Section FitReturns.

Context {K Mf : Type} {HK : GPKernel K} {HM : GPMean Mf}
        {HD : GPMeanDefault Mf} {NP : NumPyLinalg} {SP : SciPy}
        {SK : SkLearn}.
Local Abbreviation obj := (gmap string (value K Mf)).

Lemma _set_hypers_artifacts hypers :
  assigns hypers_artifacts (_set_hypers (K := K) (Mf := Mf) hypers).
Proof. unfold _set_hypers. repeat assigns_step. Qed.

(** The attributes of a regression model after the training data were
    stored: [Y] holds the residuals of the mean function, [mean], [std]
    and [normed_Y] their normalization, and the measurement variances are
    in units of the normalized outputs. *)
Definition regression_data (s : obj) (mf : Mf) (X : DataFrame)
    (Ys : Series) (variances : option Series) : Prop :=
  let mf' := mean_fit mf X Ys in
  exists resid,
    vzip Rminus (values Ys) (mean_means mf') = Ok resid /\
    let Yr := zip (index Ys) resid in
    s !! "mean_func" = Some (VMean mf') /\
    s !! "Y" = Some (VSeries Yr) /\
    s !! "mean" = Some (VFloat (_normalize Yr).1.1) /\
    s !! "std" = Some (VFloat (_normalize Yr).1.2) /\
    s !! "normed_Y" = Some (VSeries (_normalize Yr).2) /\
    match variances with
    | Some vs =>
        index vs = index Ys /\
        s !! "variances"
        = Some (VSeries (map (fun '(i, x) =>
                                (i, x / (_normalize Yr).1.2 ^ 2)) vs))
    | None => s !! "variances" = Some VNone
    end.

(** The number of hyperparameters [fit] asks the optimizer for. *)
Definition n_hypers (kern : K) (regr : bool) (variances : option Series)
  : nat :=
  match regr, variances with
  | true, None => 1 + length (kern_hypers kern)
  | _, _ => length (kern_hypers kern)
  end.

(** A returning [fit], step by step: [s] is the model when the optimizer
    is called. *)
Lemma fit_returns (self self' : obj) X Ys variances :
  fit X Ys variances self = (Ok tt, self') ->
  let regr := negb (forallb is_pm1 (values Ys)) in
  exists kern s gs guesses o x,
    self !! "kern" = Some (VKern kern) /\
    s !! "X_seqs" = Some (VFrame X) /\
    s !! "_ell" = Some (VInt (length Ys)) /\
    s !! "kern" = Some (VKern (set_X kern X)) /\
    s !! "regr" = Some (VBool regr) /\
    (forall i, i ∉ training_attributes -> s !! i = self !! i) /\
    (if regr then
       exists mf, self !! "mean_func" = Some (VMean mf) /\
                  regression_data s mf X Ys variances
     else s !! "Y" = Some (VSeries Ys) /\
          forall i, i ∈ ["mean_func"; "mean"; "std"; "normed_Y";
                          "variances"]%string -> s !! i = self !! i) /\
    s !! "guesses" = Some gs /\
    match gs with
    | VNone => guesses = repeat 0.9 (n_hypers (set_X kern X) regr variances)
    | VList g =>
        guesses = g /\
        length g = n_hypers (set_X kern X) regr variances
    | _ => False
    end /\
    s !! "objective" = Some (VMethod o) /\
    minimize (call_objective s o) guesses
      (map (fun _ => (1 / 100000, @None R)) guesses) = Ok x /\
    _set_hypers x s = (Ok tt, self').
Proof.
  intros Hrun regr. unfold fit in Hrun.
  run_set Hrun. run_set Hrun. run_set Hrun.
  run_read Hrun kern Hk. run_set Hrun.
  run_read Hrun cls Hcls. run_set Hrun.
  run_read Hrun regr0 Hregr.
  run_bind Hrun n s Hblock.
  run_read Hrun gs Hgs.
  run_bind Hrun guesses s2 Hguess.
  run_read Hrun o Ho. run_read Hrun x Hx.
  unfold get_kern, getattr in Hk. rewrite !lookup_insert_ne in Hk by done.
  assert (Hkern : self !! "kern" = Some (VKern kern)).
  { destruct (self !! "kern") as [[]|]; try done.
    simpl in Hk. by injection Hk as ->. }
  clear Hk.
  unfold is_class, get_series, getattr in Hcls.
  rewrite !lookup_insert_ne in Hcls by done.
  rewrite lookup_insert_eq in Hcls. cbn [bind attr as_series] in Hcls.
  injection Hcls as <-.
  unfold get_bool, getattr in Hregr. rewrite lookup_insert_eq in Hregr.
  cbn [bind attr as_bool] in Hregr. injection Hregr as <-.
  fold regr in Hblock, Hrun, Hguess |- *.
  unfold getattr in Hgs, Ho.
  destruct (s !! "guesses") as [gs0|] eqn:Hgs0; [|done].
  simpl in Hgs. injection Hgs as ->.
  assert (Hg : s2 = s /\
               match gs with
               | VNone => guesses = repeat 0.9 n
               | VList g => guesses = g /\ length g = n
               | _ => False
               end).
  { destruct gs; try done.
    - by apply ret_ok in Hguess as [-> ->].
    - destruct (Nat.eqb_spec (length l) n); [|done].
      by apply ret_ok in Hguess as [-> ->]. }
  destruct Hg as [-> Hg]. clear Hguess.
  destruct (s !! "objective") as [[]|] eqn:Ho0; try done.
  simpl in Ho. injection Ho as ->.
  exists kern, s, gs, guesses, o, x.
  assert (Hn : n = n_hypers (set_X kern X) regr variances /\
               s !! "X_seqs" = Some (VFrame X) /\
               s !! "_ell" = Some (VInt (length Ys)) /\
               s !! "kern" = Some (VKern (set_X kern X)) /\
               s !! "regr" = Some (VBool regr) /\
               (forall i, i ∉ training_attributes -> s !! i = self !! i) /\
               (if regr then
                  exists mf, self !! "mean_func" = Some (VMean mf) /\
                             regression_data s mf X Ys variances
                else s !! "Y" = Some (VSeries Ys) /\
                     forall i, i ∈ ["mean_func"; "mean"; "std"; "normed_Y";
                                     "variances"]%string ->
                               s !! i = self !! i)).
  { clear Hrun Hx Hg Hgs0 Ho0. clearbody regr. destruct regr.
    - run_read Hblock mf Hmf. run_set Hblock. run_lift Hblock resid Hres.
      run_set Hblock.
      destruct (_normalize (zip (index Ys) resid)) as [[m sd] nY] eqn:Hnorm.
      run_set Hblock. run_set Hblock. run_set Hblock.
      run_read Hblock kern1 Hk1.
      unfold get_mean_func, getattr in Hmf.
      rewrite !lookup_insert_ne in Hmf by done.
      assert (Hmean : self !! "mean_func" = Some (VMean mf)).
      { destruct (self !! "mean_func") as [[]|]; try done.
        simpl in Hmf. by injection Hmf as ->. }
      clear Hmf.
      unfold get_kern, getattr in Hk1.
      rewrite !lookup_insert_ne in Hk1 by done.
      rewrite lookup_insert_eq in Hk1. cbn [bind attr as_kern] in Hk1.
      injection Hk1 as <-.
      destruct variances as [vs|].
      + destruct (series_equal_index vs Ys) eqn:Hidx; [|done].
        cbn [negb] in Hblock.
        run_read Hblock sd0 Hsd. run_set Hblock.
        apply ret_ok in Hblock as [-> ->].
        unfold get_float, getattr in Hsd.
        rewrite !lookup_insert_ne in Hsd by done.
        rewrite lookup_insert_eq in Hsd. cbn [bind attr as_float] in Hsd.
        injection Hsd as <-.
        apply bool_decide_eq_true in Hidx.
        split; [done|]. repeat (split; [by lookup_attr|]).
        split; [intros i Hi; outside Hi|].
        exists mf. split; [done|]. exists resid. split; [done|].
        cbv zeta. rewrite Hnorm. cbn [fst snd].
        repeat (split; [by lookup_attr|]). by lookup_attr.
      + run_set Hblock. apply ret_ok in Hblock as [-> ->].
        split; [done|]. repeat (split; [by lookup_attr|]).
        split; [intros i Hi; outside Hi|].
        exists mf. split; [done|]. exists resid. split; [done|].
        cbv zeta. rewrite Hnorm. cbn [fst snd].
        repeat (split; [by lookup_attr|]). by lookup_attr.
    - run_read Hblock kern1 Hk1. run_read Hblock ob Hob.
      unfold get_kern, getattr in Hk1.
      rewrite !lookup_insert_ne in Hk1 by done.
      rewrite lookup_insert_eq in Hk1. cbn [bind attr as_kern] in Hk1.
      injection Hk1 as <-.
      assert (Hret : n = length (kern_hypers (set_X kern X)) /\
                s = <["regr" := VBool false]>
                      (<["kern" := VKern (set_X kern X)]>
                      (<["_ell" := VInt (length Ys)]>
                      (<["Y" := VSeries Ys]>
                      (<["X_seqs" := VFrame X]> self))))).
      { destruct ob as [| | | | | | | | | | |[]| |]; try done;
          by apply ret_ok in Hblock as [-> ->]. }
      destruct Hret as [-> ->].
      split; [by destruct variances|]. repeat (split; [by lookup_attr|]).
      split; [intros i Hi; outside Hi|].
      split; [by lookup_attr|].
      intros i Hi. apply list_elem_of_In in Hi. simpl in Hi.
      repeat (destruct Hi as [<-|Hi]; [by lookup_attr|]). done. }
  destruct Hn as (-> & HX & Hell & Hk & Hr & Hframe & Hdata).
  repeat (split; [done|]). done.
Qed.

Lemma not_class (Ys : vector) :
  Exists (fun y => y <> -1 /\ y <> 1) Ys -> forallb is_pm1 Ys = false.
Proof.
  intros HY. destruct (forallb is_pm1 Ys) eqn:Hall; [|done].
  exfalso. apply Exists_exists in HY as (y & Hy & Hne).
  rewrite forallb_forall in Hall.
  apply list_elem_of_In, Hall, is_pm1_spec in Hy. tauto.
Qed.

(** X21.  When [fit] returns for outputs that are not all [-1] or [1]
    and whose residuals can be normalized (at least two of them, with a
    standard deviation that is not zero),
    the model is a regression model that holds consistent training data:
    [X_seqs] is [X], [_ell] the number of outputs, the kernel was handed
    [X], the mean function is the fitted one, [Y] holds the residuals of
    the mean function, [mean], [std] and [normed_Y] are the normalization
    of these residuals, and [variances] holds the measurement variances
    divided by [std^2], which were given with the index of [Y], or
    [None]. *)
Theorem X21_fit_regression_data (self self' : obj) X Ys variances mf
    resid0 :
  self !! "mean_func" = Some (VMean mf) ->
  Exists (fun y => y <> -1 /\ y <> 1) (values Ys) ->
  vzip Rminus (values Ys) (mean_means (mean_fit mf X Ys)) = Ok resid0 ->
  normalizable resid0 ->
  fit X Ys variances self = (Ok tt, self') ->
  exists kern,
    self !! "kern" = Some (VKern kern) /\
    self' !! "X_seqs" = Some (VFrame X) /\
    self' !! "_ell" = Some (VInt (length Ys)) /\
    self' !! "kern" = Some (VKern (set_X kern X)) /\
    self' !! "regr" = Some (VBool true) /\
    regression_data self' mf X Ys variances.
Proof.
  intros Hmf HY _ _ Hrun. apply not_class in HY.
  destruct (fit_returns _ _ _ _ _ Hrun)
    as (kern & s & gs & guesses & o & x & Hk & HX & Hell & Hk' & Hr & _ &
        Hdata & _ & _ & _ & _ & Hset).
  rewrite HY in Hr, Hdata. cbn [negb] in Hr, Hdata.
  destruct Hdata as (mf0 & Hmf0 & resid & Hres & Hdata).
  rewrite Hmf in Hmf0. injection Hmf0 as <-.
  assert (Hkeep : forall i, i ∉ hypers_artifacts -> self' !! i = s !! i)
    by (intros i; apply (_set_hypers_artifacts x s (Ok tt) self' i Hset)).
  assert (Hout : forall i : string,
            i ∈ ["X_seqs"; "_ell"; "kern"; "regr"; "mean_func"; "Y"; "mean";
                 "std"; "normed_Y"; "variances"]%string ->
            i ∉ hypers_artifacts).
  { intros i Hi Hi'. apply list_elem_of_In in Hi, Hi'. simpl in Hi, Hi'.
    repeat (destruct Hi as [<-|Hi];
            [repeat (destruct Hi' as [Hi'|Hi']; [discriminate Hi'|]); done|]).
    done. }
  exists kern. split; [done|].
  rewrite !Hkeep by (apply Hout; in_names).
  repeat (split; [done|]).
  exists resid. split; [done|]. cbv zeta in Hdata |- *.
  rewrite !Hkeep by (apply Hout; in_names).
  destruct Hdata as (? & ? & ? & ? & ? & Hv). repeat (split; [done|]).
  by destruct variances.
Qed.

(** X22.  A returning [fit], of regression data whose residuals can be
    normalized or of classification data, has called the optimizer once, on the
    objective of the model [s] that holds the new training data and the
    artifacts of the hyperparameters as they were before; the optimizer
    starts from the guesses of the model, or from [0.9] for every
    hyperparameter when there are none, with the lower bound [1e-5] and no
    upper bound for each; the guesses and the result have one entry per
    hyperparameter of the kernel, and one more for a regression model
    fitted without measurement variances; the result is handed to
    [_set_hypers]. *)
Theorem X22_fit_optimizes (self self' : obj) X Ys variances :
  (forall mf resid,
     self !! "mean_func" = Some (VMean mf) ->
     forallb is_pm1 (values Ys) = false ->
     vzip Rminus (values Ys) (mean_means (mean_fit mf X Ys)) = Ok resid ->
     normalizable resid) ->
  fit X Ys variances self = (Ok tt, self') ->
  exists kern o s guesses x,
    self !! "kern" = Some (VKern kern) /\
    self !! "objective" = Some (VMethod o) /\
    (forall i, i ∉ hypers_artifacts -> s !! i = self' !! i) /\
    (forall i, i ∈ hypers_artifacts -> s !! i = self !! i) /\
    let n := n_hypers (set_X kern X) (negb (forallb is_pm1 (values Ys)))
               variances in
    match self !! "guesses" with
    | Some VNone => guesses = repeat 0.9 n
    | Some (VList g) => guesses = g /\ length g = n
    | _ => False
    end /\
    minimize (call_objective s o) guesses
      (map (fun _ => (1 / 100000, @None R)) guesses) = Ok x /\
    _set_hypers x s = (Ok tt, self') /\
    length x = n.
Proof.
  intros _ Hrun.
  destruct (fit_returns _ _ _ _ _ Hrun)
    as (kern & s & gs & guesses & o & x & Hk & HX & Hell & Hk' & Hr & Hframe &
        Hdata & Hgs & Hg & Ho & Hmin & Hset).
  assert (Hdisj : forall i : string,
            i ∈ hypers_artifacts -> i ∉ training_attributes).
  { intros i Hi Hi'. apply list_elem_of_In in Hi, Hi'. simpl in Hi, Hi'.
    repeat (destruct Hi as [<-|Hi];
            [repeat (destruct Hi' as [Hi'|Hi']; [discriminate Hi'|]); done|]).
    done. }
  exists kern, o, s, guesses, x. split; [done|].
  split.
  { rewrite <- Ho. symmetry. apply Hframe.
    intros Hi. apply list_elem_of_In in Hi. simpl in Hi.
    repeat (destruct Hi as [Hi|Hi]; [discriminate Hi|]). done. }
  split.
  { intros i Hi. symmetry.
    by apply (_set_hypers_artifacts x s (Ok tt) self' i Hset). }
  split; [intros i Hi; by apply Hframe, Hdisj|].
  cbv zeta. split.
  { rewrite <- (Hframe "guesses"%string), Hgs; [by destruct gs|].
    intros Hi. apply list_elem_of_In in Hi. simpl in Hi.
    repeat (destruct Hi as [Hi|Hi]; [discriminate Hi|]). done. }
  split; [done|]. split; [done|].
  unfold _set_hypers in Hset.
  run_read Hset regr Hregr.
  unfold get_bool, getattr in Hregr. rewrite Hr in Hregr.
  cbn [bind attr as_bool] in Hregr. injection Hregr as <-.
  run_read Hset names Hnames. run_lift Hset h Hh.
  apply namedtuple_make_ok in Hh as (Hlen & _ & _). rewrite <- Hlen.
  unfold get_kern, getattr in Hnames. rewrite Hk' in Hnames.
  cbn [bind attr as_kern] in Hnames.
  destruct (negb (forallb is_pm1 (values Ys))).
  - destruct Hdata as (mf & _ & resid & _ & Hdata). cbv zeta in Hdata.
    destruct Hdata as (_ & _ & _ & _ & _ & Hv).
    destruct variances as [vs|].
    + destruct Hv as [_ Hv]. rewrite Hv in Hnames.
      cbn [bind attr] in Hnames. by injection Hnames as <-.
    + rewrite Hv in Hnames. cbn [bind attr] in Hnames.
      by injection Hnames as <-.
  - injection Hnames as <-. by destruct variances.
Qed.

End FitReturns.

(** A model as [GPModel(kern)] builds it. *)
Definition new_model : obj HammingKernel vector :=
  fresh (HD := zero_mean_default) (VKern one_kernel).

(** Two training sequences without a common residue, observed at [2] and
    [4]. *)
Definition two_X : DataFrame := [("a", "R"); ("b", "K")]%string.
Definition two_Y : Series := [("a"%string, 2); ("b"%string, 4)].

Lemma new_model_fit :
  exists self',
    fit (HK := hamming_kernel) (HM := zero_mean) (NP := numpy_ref)
      (SP := scipy_stub) two_X two_Y None new_model
    = (Ok tt, self').
Proof.
  assert (Hcls : forallb is_pm1 [2; 4] = false).
  { apply not_class. constructor. lra. }
  unfold fit, mbind_, setattr, reading, lift, ret.
  unfold is_class, get_series, get_bool, get_kern, get_mean_func, getattr.
  unfold new_model, fresh.
  repeat (lookup_attr; cbn [bind attr as_kern as_series as_bool as_mean]).
  change (values two_Y) with [2; 4]. rewrite Hcls.
  cbn [negb]. cbv beta iota zeta.
  repeat (lookup_attr; cbn [bind attr as_kern as_series as_bool as_mean]).
  change (vzip Rminus [2; 4] _) with (Ok (A := vector) [2 - 0; 4 - 0]).
  unfold _normalize. cbv beta iota zeta.
  repeat (lookup_attr;
          cbn [bind attr as_kern as_series as_bool as_mean as_method]).
  match goal with |- context [_set_hypers _ ?s] => set (st := s) end.
  change (minimize _ _ _) with (Ok (A := vector) [0.9; 0.9]).
  cbv beta iota.
  assert (HKs : exists Kc a d x y,
            _make_Ks (HK := hamming_kernel) st [0.9; 0.9]
            = Ok (Kc, [[a; x]; [y; d]]) /\
            x = 0 /\ y = 0 /\ 0 < a /\ 0 < d).
  { do 5 eexists. split; [reflexivity|].
    unfold bget, get, hamming. simpl. repeat split; lra. }
  destruct HKs as (Kc & a & d & x & y & HKs & Hx & Hy & Ha & Hd).
  destruct (cholesky_ref_diag2 a d x y Hx Hy Ha Hd) as (L & HL & _).
  destruct (inv_ref_diag2 a d x y Hx Hy Ha Hd) as (B & HB).
  exact (_set_hypers_regr_ok (HK := hamming_kernel) (HM := zero_mean)
           (NP := numpy_ref) (SP := scipy_stub) st [0.9; 0.9] _ _ VNone
           _ _ _ _ cholesky_ref_factors lstsq_ref_solves inv_ref_inverts
           eq_refl eq_refl eq_refl eq_refl eq_refl HKs eq_refl
           (Nat.lt_0_succ 1) HL HB).
Qed.

Lemma two_Y_normalizable : normalizable [2 - 0; 4 - 0].
Proof.
  split; [simpl; lia|].
  unfold series_std, series_mean, vsum. simpl.
  apply Rgt_not_eq, Rlt_gt, sqrt_lt_R0.
  replace ((0 + (2 - 0) + (4 - 0)) / (1 + 1)) with 3 by lra.
  replace (1 + 1 - 1) with 1 by lra. lra.
Qed.

Lemma X21_fit_regression_data_witness :
  exists self' kern,
    fit (HK := hamming_kernel) (HM := zero_mean) (NP := numpy_ref)
      (SP := scipy_stub) two_X two_Y None new_model
    = (Ok tt, self') /\
    new_model !! "kern" = Some (VKern kern) /\
    self' !! "X_seqs" = Some (VFrame two_X) /\
    self' !! "_ell" = Some (VInt (length two_Y)) /\
    self' !! "kern"
    = Some (VKern (set_X (GPKernel := hamming_kernel) kern two_X)) /\
    self' !! "regr" = Some (VBool true) /\
    regression_data (HM := zero_mean) self' zero_mean_default
      two_X two_Y None.
Proof.
  destruct new_model_fit as [self' Hrun]. exists self'.
  destruct (X21_fit_regression_data (HK := hamming_kernel) (HM := zero_mean)
              (NP := numpy_ref) (SP := scipy_stub) new_model self'
              two_X two_Y None zero_mean_default [2 - 0; 4 - 0]
              eq_refl
              ltac:(constructor; simpl; lra) eq_refl two_Y_normalizable
              Hrun) as (kern & H).
  exists kern. split; [exact Hrun|exact H].
Defined.

Lemma X22_fit_optimizes_witness :
  exists self' kern o s guesses x,
    fit (HK := hamming_kernel) (HM := zero_mean) (NP := numpy_ref)
      (SP := scipy_stub) two_X two_Y None new_model
    = (Ok tt, self') /\
    new_model !! "kern" = Some (VKern kern) /\
    new_model !! "objective" = Some (VMethod o) /\
    (forall i, i ∉ hypers_artifacts -> s !! i = self' !! i) /\
    (forall i, i ∈ hypers_artifacts -> s !! i = new_model !! i) /\
    let n := n_hypers (HK := hamming_kernel)
               (set_X (GPKernel := hamming_kernel) kern two_X)
               (negb (forallb is_pm1 (values two_Y))) None in
    match new_model !! "guesses" with
    | Some VNone => guesses = repeat 0.9 n
    | Some (VList g) => guesses = g /\ length g = n
    | _ => False
    end /\
    minimize (SciPy := scipy_stub)
      (call_objective (HK := hamming_kernel) (HM := zero_mean)
         (NP := numpy_ref) (SP := scipy_stub) s o) guesses
      (map (fun _ => (1 / 100000, @None R)) guesses) = Ok x /\
    _set_hypers (HK := hamming_kernel) (HM := zero_mean) (NP := numpy_ref)
      (SP := scipy_stub) x s = (Ok tt, self') /\
    length x = n.
Proof.
  destruct new_model_fit as [self' Hrun]. exists self'.
  assert (Hnorm : forall (mf : vector) resid,
            new_model !! "mean_func" = Some (VMean mf) ->
            forallb is_pm1 (values two_Y) = false ->
            vzip Rminus (values two_Y)
              (mean_means (GPMean := zero_mean)
                 (mean_fit (GPMean := zero_mean) mf two_X two_Y))
            = Ok resid ->
            normalizable resid).
  { intros mf resid _ _ Hres.
    change (vzip Rminus _ _) with (Ok (A := vector) [2 - 0; 4 - 0]) in Hres.
    injection Hres as <-. exact two_Y_normalizable. }
  destruct (X22_fit_optimizes (HK := hamming_kernel) (HM := zero_mean)
              (NP := numpy_ref) (SP := scipy_stub) new_model self'
              two_X two_Y None Hnorm Hrun)
    as (kern & o & s & guesses & x & H).
  exists kern, o, s, guesses, x. split; [exact Hrun|exact H].
Defined.

(* ================================================================== *)
(** * A rejected [fit] *)

Section FitRejects.

Context {K Mf : Type} {HK : GPKernel K} {HM : GPMean Mf}
        {HD : GPMeanDefault Mf} {NP : NumPyLinalg} {SP : SciPy}
        {SK : SkLearn}.
Local Abbreviation obj := (gmap string (value K Mf)).

(** X23.  For regression data whose residuals can be normalized, [fit]
    raises [AttributeError] when the
    measurement variances do not have the index of [Y], and, without
    variances, when the guesses of the model are not one more than the
    hyperparameters of the kernel.  The optimizer is not called and the
    hyperparameters and their artifacts are as they were, but the
    training data of the model have already been replaced: [X_seqs], the
    kernel's [X], [Y], and [normed_Y] are those of the rejected call. *)
Theorem X23_fit_rejects (self : obj) X Ys variances kern mf resid :
  self !! "kern" = Some (VKern kern) ->
  self !! "mean_func" = Some (VMean mf) ->
  Exists (fun y => y <> -1 /\ y <> 1) (values Ys) ->
  vzip Rminus (values Ys) (mean_means (mean_fit mf X Ys)) = Ok resid ->
  normalizable resid ->
  match variances with
  | Some vs => index vs <> index Ys
  | None => exists g, self !! "guesses" = Some (VList g) /\
                      length g <> S (length (kern_hypers (set_X kern X)))
  end ->
  exists s',
    fit X Ys variances self = (Raise AttributeError, s') /\
    s' !! "X_seqs" = Some (VFrame X) /\
    s' !! "kern" = Some (VKern (set_X kern X)) /\
    s' !! "Y" = Some (VSeries (zip (index Ys) resid)) /\
    s' !! "normed_Y"
    = Some (VSeries (_normalize (zip (index Ys) resid)).2) /\
    forall i, i ∈ hypers_artifacts -> s' !! i = self !! i.
Proof.
  intros Hk Hmf HY Hres _ Hbad. apply not_class in HY.
  unfold fit, mbind_, setattr, reading, lift, ret, raise.
  unfold is_class, get_series, get_bool, get_kern, get_mean_func, getattr.
  repeat (lookup_attr; cbn [bind attr as_kern as_series as_bool as_mean]).
  rewrite Hk. cbn [bind attr as_kern]. lookup_attr.
  cbn [bind attr as_series]. rewrite HY. cbn [negb]. lookup_attr.
  cbn [bind attr as_bool]. lookup_attr. rewrite Hmf.
  cbn [bind attr as_mean]. rewrite Hres.
  unfold _normalize. cbv beta iota zeta.
  repeat (lookup_attr; cbn [bind attr as_kern as_series as_bool as_mean]).
  destruct variances as [vs|].
  - unfold series_equal_index. rewrite bool_decide_eq_false_2 by done.
    cbn [negb]. eexists. split; [reflexivity|].
    repeat (split; [by lookup_attr|]).
    intros i Hi. apply list_elem_of_In in Hi. simpl in Hi.
    repeat (destruct Hi as [<-|Hi]; [by lookup_attr|]). done.
  - destruct Hbad as (g & Hg & Hlen).
    lookup_attr. rewrite Hg. cbn [attr].
    destruct (Nat.eqb_spec (length g) (1 + length (kern_hypers (set_X kern X))))
      as [Heq|_]; [by simpl in Heq|].
    cbn [negb]. eexists. split; [reflexivity|].
    repeat (split; [by lookup_attr|]).
    intros i Hi. apply list_elem_of_In in Hi. simpl in Hi.
    repeat (destruct Hi as [<-|Hi]; [by lookup_attr|]). done.
Qed.

End FitRejects.

Lemma X23_fit_rejects_witness :
  exists s',
    fit (HK := hamming_kernel) (HM := zero_mean) (NP := numpy_ref)
      (SP := scipy_stub) two_X two_Y
      (Some [("y"%string, 1); ("z"%string, 1)])
      (fresh (HD := zero_mean_default) (VKern one_kernel))
    = (Raise AttributeError, s') /\
    s' !! "X_seqs" = Some (VFrame two_X) /\
    s' !! "kern"
    = Some (VKern (set_X (GPKernel := hamming_kernel) one_kernel two_X)) /\
    s' !! "Y" = Some (VSeries (zip (index two_Y) [2 - 0; 4 - 0])) /\
    s' !! "normed_Y"
    = Some (VSeries (_normalize (zip (index two_Y) [2 - 0; 4 - 0])).2) /\
    forall i, i ∈ hypers_artifacts ->
      s' !! i = fresh (HD := zero_mean_default) (VKern one_kernel) !! i.
Proof.
  apply (X23_fit_rejects (HK := hamming_kernel) (HM := zero_mean)
           (NP := numpy_ref) (SP := scipy_stub)
           (fresh (HD := zero_mean_default) (VKern one_kernel))
           two_X two_Y (Some [("y"%string, 1); ("z"%string, 1)])
           one_kernel zero_mean_default [2 - 0; 4 - 0]).
  - reflexivity.
  - reflexivity.
  - constructor. simpl. lra.
  - reflexivity.
  - exact two_Y_normalizable.
  - discriminate.
Defined.

(* ================================================================== *)
(** * Construction *)

Section Construction.

Context {K Mf : Type} {HK : GPKernel K} {HM : GPMean Mf}
        {HD : GPMeanDefault Mf} {NP : NumPyLinalg} {SP : SciPy}
        {SK : SkLearn}.
Local Abbreviation obj := (gmap string (value K Mf)).

(** X24.  [GPModel(kern, ...)] without hyperparameters, for an objective
    that is absent (then ['log_ML']) or one of the two names: the new
    model holds the kernel, the bound method of the objective, the
    keyword values as given, and for [guesses], [variances] and
    [mean_func] the defaults [None], [None] and [GPMean()] where no
    keyword gives them. *)
Theorem X24_init_defaults (kern : value K Mf) (kwargs : obj) o :
  (kwargs !! "objective" = None /\ o = log_ML_method) \/
  kwargs !! "objective" = Some (VStr (objective_name o)) ->
  kwargs !! "hypers" = None ->
  kwargs !! "kern" = None ->
  exists s,
    __init__ kern kwargs = (Ok tt, s) /\
    s !! "kern" = Some kern /\
    s !! "objective" = Some (VMethod o) /\
    s !! "guesses" = Some (default VNone (kwargs !! "guesses")) /\
    s !! "variances" = Some (default VNone (kwargs !! "variances")) /\
    s !! "mean_func"
    = Some (default (VMean default_mean) (kwargs !! "mean_func")) /\
    forall i, i ∉ ["kern"; "objective"; "guesses"; "variances";
                   "mean_func"]%string -> s !! i = kwargs !! i.
Proof.
  intros Hobj Hhy Hkern.
  set (kwargs' := match kwargs !! "objective" with
                  | None => <["objective" := VStr "log_ML"]> kwargs
                  | Some _ => kwargs
                  end).
  assert (Ho : kwargs' !! "objective" = Some (VStr (objective_name o))).
  { unfold kwargs'. destruct Hobj as [[Hn ->]|Hs].
    - rewrite Hn. by rewrite lookup_insert_eq.
    - by rewrite Hs. }
  assert (Hother : forall i, i <> "objective"%string ->
                             kwargs' !! i = kwargs !! i).
  { intros i Hi. unfold kwargs'. destruct (kwargs !! "objective"); [done|].
    by rewrite lookup_insert_ne. }
  unfold __init__. fold kwargs'.
  rewrite (Hother "mean_func"%string) by done.
  unfold _set_params. rewrite Ho, (Hother "hypers"%string), Hhy by done.
  assert (Hset : (if String.eqb (objective_name o) "log_ML"
                  then setattr "objective" (VMethod log_ML_method)
                  else if String.eqb (objective_name o) "LOO_log_p"
                       then setattr "objective" (VMethod LOO_log_p_method)
                       else raise AttributeError)
                 = setattr (K := K) (Mf := Mf) "objective" (VMethod o))
    by (by destruct o).
  rewrite Hset. clear Hset.
  unfold mbind_, setattr, ret.
  destruct (kwargs !! "mean_func") as [mf|] eqn:Hmf.
  - eexists. split; [reflexivity|].
    split; [rewrite lookup_insert_ne, lookup_union, Hother, Hkern by done;
            by lookup_attr|].
    split; [by rewrite lookup_insert_eq|].
    split; [rewrite lookup_insert_ne, lookup_union, Hother by done;
            lookup_attr; by destruct (kwargs !! "guesses")|].
    split; [rewrite lookup_insert_ne, lookup_union, Hother by done;
            lookup_attr; by destruct (kwargs !! "variances")|].
    split; [rewrite lookup_insert_ne, lookup_union, Hother, Hmf by done;
            by lookup_attr|].
    intros i Hi. rewrite lookup_insert_ne by (intros <-; apply Hi; in_names).
    rewrite lookup_union, Hother by (intros ->; apply Hi; in_names).
    rewrite !lookup_insert_ne by (intros <-; apply Hi; in_names).
    rewrite lookup_empty. by destruct (kwargs !! i).
  - eexists. split; [reflexivity|].
    split; [rewrite lookup_insert_ne, lookup_union, Hother, Hkern by done;
            by lookup_attr|].
    split; [by rewrite lookup_insert_eq|].
    split; [rewrite lookup_insert_ne, lookup_union, Hother by done;
            lookup_attr; by destruct (kwargs !! "guesses")|].
    split; [rewrite lookup_insert_ne, lookup_union, Hother by done;
            lookup_attr; by destruct (kwargs !! "variances")|].
    split; [rewrite lookup_insert_ne, lookup_union, Hother, Hmf by done;
            by lookup_attr|].
    intros i Hi. rewrite lookup_insert_ne by (intros <-; apply Hi; in_names).
    rewrite lookup_union, Hother by (intros ->; apply Hi; in_names).
    rewrite !lookup_insert_ne by (intros <-; apply Hi; in_names).
    rewrite lookup_empty. by destruct (kwargs !! i).
Qed.

(** X25.  [GPModel(kern, ...)] raises [AttributeError] for an objective
    name other than ['log_ML'] and ['LOO_log_p'], and also when the
    hyperparameters are given as a list while no keyword gives [regr],
    because the names of the hyperparameters depend on [self.regr].  The
    keyword values were assigned before the exception. *)
Theorem X25_init_rejects (kern : value K Mf) (kwargs : obj) :
  (exists o, kwargs !! "objective" = Some (VStr o) /\
             o <> "log_ML"%string /\ o <> "LOO_log_p"%string) \/
  (kwargs !! "objective" = None /\
   (exists l, kwargs !! "hypers" = Some (VList l)) /\
   kwargs !! "regr" = None) ->
  exists s,
    __init__ kern kwargs = (Raise AttributeError, s) /\
    forall i v, kwargs !! i = Some v -> s !! i = Some v.
Proof.
  intros [(o & Ho & Hn1 & Hn2)|(Ho & (l & Hl) & Hr)]; unfold __init__;
    rewrite Ho.
  - unfold _set_params. rewrite Ho.
    apply String.eqb_neq in Hn1, Hn2. rewrite Hn1, Hn2.
    unfold mbind_, setattr, ret, raise.
    destruct (kwargs !! "mean_func") as [mfv|];
      (eexists; split; [reflexivity|]);
      intros i v Hi; by apply lookup_union_Some_l.
  - unfold _set_params.
    rewrite lookup_insert_eq, !lookup_insert_ne, Hl by done.
    cbn [String.eqb Ascii.eqb Bool.eqb].
    unfold mbind_, setattr, ret, raise, reading, get_bool, getattr.
    assert (Hi : forall (m : obj) i v, kwargs !! i = Some v ->
              (<["objective" := VMethod log_ML_method]>
                 (<["objective" := VStr "log_ML"]> kwargs ∪ m)) !! i
              = Some v).
    { intros m i v Hi.
      assert (i <> "objective"%string) by (intros ->; congruence).
      rewrite lookup_insert_ne by done. apply lookup_union_Some_l.
      by rewrite lookup_insert_ne. }
    destruct (kwargs !! "mean_func") as [mfv|];
      rewrite lookup_insert_ne, lookup_union, lookup_insert_ne, Hr by done;
      lookup_attr; rewrite lookup_empty; cbn [union_with option_union_with];
      (eexists; split; [reflexivity|]); apply Hi.
Qed.

End Construction.

(** Keyword arguments that give the initial guesses. *)
Definition guesses_kwargs : obj HammingKernel vector :=
  <["guesses" := VList [1; 2]]> ∅.

(** Keyword arguments that give the hyperparameters as a list. *)
Definition hypers_kwargs : obj HammingKernel vector :=
  <["hypers" := VList [1; 2]]> ∅.

Lemma X24_init_defaults_witness :
  exists s,
    __init__ (HK := hamming_kernel) (HD := zero_mean_default)
      (VKern one_kernel) guesses_kwargs
    = (Ok tt, s) /\
    s !! "kern" = Some (VKern one_kernel) /\
    s !! "objective" = Some (VMethod log_ML_method) /\
    s !! "guesses" = Some (default VNone (guesses_kwargs !! "guesses")) /\
    s !! "variances"
    = Some (default VNone (guesses_kwargs !! "variances")) /\
    s !! "mean_func"
    = Some (default (@VMean HammingKernel vector zero_mean_default)
              (guesses_kwargs !! "mean_func")) /\
    forall i, i ∉ ["kern"; "objective"; "guesses"; "variances";
                   "mean_func"]%string -> s !! i = guesses_kwargs !! i.
Proof.
  apply (X24_init_defaults (HK := hamming_kernel) (HD := zero_mean_default)
           (VKern one_kernel) guesses_kwargs log_ML_method).
  - left. split; reflexivity.
  - reflexivity.
  - reflexivity.
Defined.

Lemma X25_init_rejects_witness :
  exists s,
    __init__ (HK := hamming_kernel) (HD := zero_mean_default)
      (VKern one_kernel) hypers_kwargs
    = (Raise AttributeError, s) /\
    forall i v, hypers_kwargs !! i = Some v -> s !! i = Some v.
Proof.
  apply (X25_init_rejects (HK := hamming_kernel) (HD := zero_mean_default)
           (VKern one_kernel) hypers_kwargs).
  right. split; [reflexivity|]. split; [by exists [1; 2]|reflexivity].
Defined.

(* ================================================================== *)
(** * The objective of a reloaded model *)

Section ReloadedObjective.

Context {K Mf : Type} {HK : GPKernel K} {HM : GPMean Mf}
        {HD : GPMeanDefault Mf} {NP : NumPyLinalg} {SP : SciPy}
        {SK : SkLearn}.
Local Abbreviation obj := (gmap string (value K Mf)).

(** X26.  [dump] stores the name ['LOO_log_p'] for every objective that
    is not the method [_log_ML]: a model whose objective is anything
    else, [None] included, is reloaded with the objective
    [_LOO_log_p]. *)
Theorem X26_dump_load_objective (self : obj) f fs kern ov g :
  self !! "kern" = Some kern ->
  self !! "objective" = Some ov ->
  ov <> VMethod log_ML_method ->
  self !! "guesses" = Some g ->
  plain_hypers self ->
  exists d m,
    dump self f fs = (Ok tt, <[f := d]> fs) /\
    load f (<[f := d]> fs) = Ok m /\
    m !! "objective" = Some (VMethod LOO_log_p_method).
Proof.
  intros Hk Ho Hov Hg Hh.
  unfold dump, save_me, getattr. rewrite Ho, Hg. cbn [bind attr].
  set (d0 := <["guesses" := g]>
               (match ov with
                | VMethod log_ML_method => <["objective" := VStr "log_ML"]> self
                | _ => <["objective" := VStr "LOO_log_p"]> self
                end)).
  assert (Hd0 : d0 = <["guesses" := g]>
                       (<["objective" := VStr "LOO_log_p"]> self)).
  { unfold d0. by destruct ov as [| | | | | | | | | | |[]| |]. }
  clearbody d0. subst d0.
  set (d0 := <["guesses" := g]> (<["objective" := VStr "LOO_log_p"]> self)).
  unfold plain_hypers in Hh.
  destruct (self !! "hypers") as [hv|] eqn:Hhy; [destruct hv; try done|].
  - exists d0. eexists. split; [done|].
    rewrite (load_blob d0 f fs kern LOO_log_p_method);
      unfold d0; lookup_attr; [|by rewrite Hhy].
    rewrite Hhy. split; [reflexivity|]. cbv beta zeta iota.
    by lookup_attr.
  - eexists (<["hypers" := VDict _]> d0), _. split; [done|].
    rewrite (load_blob _ f fs kern LOO_log_p_method); unfold d0; lookup_attr.
    split; [reflexivity|]. cbv beta zeta iota. by lookup_attr.
  - exists d0. eexists. split; [done|].
    rewrite (load_blob d0 f fs kern LOO_log_p_method);
      unfold d0; lookup_attr; [|by rewrite Hhy].
    rewrite Hhy. split; [reflexivity|]. cbv beta zeta iota.
    by lookup_attr.
Qed.

End ReloadedObjective.

(** A model built with [objective=None]. *)
Definition aimless_model : obj HammingKernel vector :=
  <["objective" := VNone]>
    (fresh (HD := zero_mean_default) (VKern one_kernel)).

Lemma X26_dump_load_objective_witness :
  exists d m,
    dump aimless_model "model.pkl" ∅
    = (Ok tt, <["model.pkl"%string := d]> ∅) /\
    load (HK := hamming_kernel) (HD := zero_mean_default) "model.pkl"
      (<["model.pkl"%string := d]> ∅) = Ok m /\
    m !! "objective" = Some (VMethod LOO_log_p_method).
Proof.
  apply (X26_dump_load_objective (HK := hamming_kernel)
           (HD := zero_mean_default) aimless_model "model.pkl" ∅
           (VKern one_kernel) VNone VNone); try reflexivity.
  discriminate.
Defined.

(* ================================================================== *)
(** * Un-normalized leave-one-out predictions *)


Section LeaveOneOutUnits.

Context {K Mf : Type} {HK : GPKernel K} {HM : GPMean Mf}
        {HD : GPMeanDefault Mf} {NP : NumPyLinalg} {SP : SciPy}
        {SK : SkLearn}.
Local Abbreviation obj := (gmap string (value K Mf)).


End LeaveOneOutUnits.




(* ================================================================== *)
(** * The artifacts of a classification model *)

Section ClassificationArtifacts.

Context {K Mf : Type} {HK : GPKernel K} {HM : GPMean Mf}
        {HD : GPMeanDefault Mf} {NP : NumPyLinalg} {SP : SciPy}
        {SK : SkLearn}.
Local Abbreviation obj := (gmap string (value K Mf)).

(** X28.  When [_set_hypers] accepts the hyperparameters of a
    classification model, the fields are named after the hyperparameters
    of the kernel; the stored mode [_f_hat] is what [_find_F] returns for
    these hyperparameters, reached at an iteration whose ten last
    iterations met the convergence criterion; [_W] is the negative
    Hessian at the mode and [_W_root] its square root, [_Ky] holds the
    covariance of the kernel with no noise added, [_L] is the lower
    triangular factor of [I + W_root . K . W_root], and [_grad] is the row
    of the gradient of the log likelihood at the mode.  [_K] and [_alpha]
    are not assigned. *)
Theorem X28_set_hypers_classification (self self' : obj) hypers kern ell :
  cholesky_factors ->
  self !! "regr" = Some (VBool false) ->
  self !! "kern" = Some (VKern kern) ->
  self !! "_ell" = Some (VInt ell) ->
  _set_hypers hypers self = (Ok tt, self') ->
  exists Ys f_hat Kc L g i,
    let s := <["hypers" := VHypers (zip (kern_hypers kern) hypers)]> self in
    self' !! "hypers" = Some (VHypers (zip (kern_hypers kern) hypers)) /\
    self !! "Y" = Some (VSeries Ys) /\
    make_K kern hypers = Ok Kc /\
    _find_F s hypers None default_threshold default_evals = Ok f_hat /\
    (9 <= i < 1000)%nat /\
    (forall j, (i - 9 <= j <= i)%nat ->
       converged_at s Kc (length Ys) default_threshold
         (new_series (repeat 0 (length Ys))) j) /\
    self' !! "_f_hat" = Some (VSeries f_hat) /\
    self' !! "_W" = Some (VArr (_hess f_hat)) /\
    self' !! "_W_root" = Some (VArr (sqrtm (_hess f_hat))) /\
    self' !! "_Ky" = Some (VArr Kc) /\
    self' !! "_L" = Some (VArr L) /\
    lower_triangular L /\
    madd (eye ell)
      (mmul (mmul (sqrtm (_hess f_hat)) Kc) (sqrtm (_hess f_hat)))
    = Ok (mmul L (transpose L)) /\
    _grad_log_logistic_likelihood Ys f_hat = Ok g /\
    self' !! "_grad" = Some (VArr (np_matrix (diagonal g))) /\
    self' !! "_K" = self !! "_K" /\
    self' !! "_alpha" = self !! "_alpha".
Proof.
  intros Hch Hregr Hk Hell Hrun. unfold _set_hypers in Hrun.
  run_read Hrun regr Hr.
  unfold get_bool, getattr in Hr. rewrite Hregr in Hr.
  cbn [bind attr as_bool] in Hr. injection Hr as <-.
  run_read Hrun names Hnames.
  unfold get_kern, getattr in Hnames. rewrite Hk in Hnames.
  cbn [bind attr as_kern] in Hnames. injection Hnames as <-.
  run_lift Hrun h Hh. run_set Hrun.
  apply namedtuple_make_ok in Hh as (Hlen & -> & Hvals).
  run_read Hrun f_hat Hf. run_set Hrun. run_set Hrun. run_set Hrun.
  run_read Hrun Kc HKc.
  unfold get_kern, getattr in HKc. rewrite !lookup_insert_ne in HKc by done.
  rewrite Hk, Hvals in HKc. cbn [bind attr as_kern] in HKc.
  run_set Hrun. run_read Hrun L HL.
  unfold getattr in HL. rewrite !lookup_insert_ne in HL by done.
  rewrite Hell in HL. cbn [bind attr] in HL.
  apply bind_ok in HL as (WK & HWK & HL).
  apply bind_ok in HL as (WKW & HWKW & HL).
  apply bind_ok in HL as (B & HB & HL).
  unfold dot in HWK, HWKW.
  destruct (Nat.eqb _ _) in HWK; [|done]. injection HWK as <-.
  destruct (Nat.eqb _ _) in HWKW; [|done]. injection HWKW as <-.
  destruct (Hch B L HL) as (_ & Hlow & _ & HLL).
  run_set Hrun. run_read Hrun g Hg. run_set Hrun.
  run_read Hrun ml Hml. apply setattr_ok in Hrun. subst self'.
  rewrite Hvals in Hf.
  set (s := <["hypers" := VHypers (zip (kern_hypers kern) hypers)]> self) in *.
  assert (HY : exists Ys, self !! "Y" = Some (VSeries Ys)).
  { unfold _find_F, get_series, getattr in Hf.
    unfold s in Hf. rewrite lookup_insert_ne in Hf by done.
    destruct (self !! "Y") as [[]|]; try done. eauto. }
  destruct HY as [Ys HY].
  assert (HsY : s !! "Y" = Some (VSeries Ys))
    by (unfold s; by rewrite lookup_insert_ne).
  assert (Hsk : s !! "kern" = Some (VKern kern))
    by (unfold s; by rewrite lookup_insert_ne).
  pose proof Hf as Hloop.
  rewrite (_find_F_unfold s hypers Ys kern Kc) in Hloop by done.
  apply loop_returns in Hloop
    as (i & f_new & X & Hi & Hnb & Hwin & Hp & HX & Hfr).
  unfold get_series, getattr in Hg. rewrite !lookup_insert_ne in Hg by done.
  fold s in Hg. rewrite HsY in Hg. cbn [bind attr as_series] in Hg.
  apply bind_ok in Hg as (g0 & Hg0 & Hg). injection Hg as <-.
  exists Ys, f_hat, Kc, L, g0, i. cbv zeta. fold s.
  split; [unfold s; by lookup_attr|]. split; [done|]. split; [done|].
  split; [done|]. split; [unfold default_evals in Hi; lia|].
  split; [intros j Hj; apply passes_converged, Hwin; lia|].
  split; [by lookup_attr|]. split; [by lookup_attr|].
  split; [by lookup_attr|]. split; [by lookup_attr|].
  split; [by lookup_attr|].
  split; [exact Hlow|]. split; [by rewrite HLL|].
  split; [done|]. split; [by lookup_attr|].
  split; unfold s; by lookup_attr.
Qed.

End ClassificationArtifacts.

(* ================================================================== *)
(** * Mode finding with one training point *)

(** The Newton step for one training point with output [y0], prior
    variance [c] and latent value [x]. *)
Definition newton_1 (y0 c x : R) : R :=
  let w := logistic x * (1 - logistic x) in
  c * (w * x + ((y0 + 1) / 2 - logistic x)) / (1 + w * c).

Lemma newton_1_negative c x : 0 < c -> x <= 0 -> newton_1 (-1) c x < 0.
Proof.
  intros Hc Hx. unfold newton_1.
  pose proof (logistic_bounds x) as [Hl0 Hl1].
  set (w := logistic x * (1 - logistic x)).
  assert (Hw : 0 <= w) by (unfold w; nra).
  assert (Hn : w * x + ((-1 + 1) / 2 - logistic x) < 0) by nra.
  assert (Hd : 0 < 1 + w * c) by nra.
  assert (Hi : 0 < / (1 + w * c)) by (by apply Rinv_0_lt_compat).
  assert (Hcn : c * (w * x + ((-1 + 1) / 2 - logistic x)) < 0) by nra.
  unfold Rdiv. nra.
Qed.

Lemma newton_1_zero y0 c x : c = 0 -> newton_1 y0 c x = 0.
Proof. intros ->. unfold newton_1, Rdiv. by rewrite !Rmult_0_l. Qed.

(** A negative successor meets the criterion whatever the iterate: the
    quotient is not positive. *)
Lemma criterion_negative x y : y < 0 -> criterion default_threshold [x] [y].
Proof.
  intros Hy. exists [x - y]. split; [reflexivity|].
  cbn [vsum map fold_right]. split; [lra|].
  unfold default_threshold.
  assert (Hq : ((x - y) ^ 2 + 0) / (y + 0) <= 0).
  { unfold Rdiv. replace (y + 0) with y by lra.
    pose proof (pow2_ge_0 (x - y)).
    assert (/ y < 0) by (by apply Rinv_lt_0_compat).
    nra. }
  lra.
Qed.

(** A successor that is zero does not meet it. *)
Lemma criterion_zero x y : y = 0 -> ~ criterion default_threshold [x] [y].
Proof.
  intros -> (d & _ & Hne & _). apply Hne. cbn [vsum fold_right]. lra.
Qed.

Section OnePoint.

Context (self : obj HammingKernel vector) (y0 c : R).
Hypothesis HY : self !! "Y" = Some (VSeries [("a"%string, y0)]).
Hypothesis HX : self !! "X_seqs" = Some (VFrame [("a", "R")]%string).
Hypothesis Hc : 0 <= c.

Lemma one_point_body x :
  exists y,
    _find_F_body (NP := numpy_ref) (SP := scipy_stub) self [[c]] 1
      [(EmptyString, x)]
    = Ok [y] /\
    y = newton_1 y0 c x.
Proof.
  unfold _find_F_body, _hess, get_series, getattr. rewrite HY.
  cbn [bind attr as_series].
  unfold dot, madd, broadcast, diag_of, eye, mmul, sqrtm, scipy_stub, mmap,
    values, matvec, transpose, bdim, ncols, nrows, mk, get, bget.
  simpl. unfold get, diag_of, mk. simpl.
  set (w := logistic x * (1 - logistic x)).
  set (b0 := 0 + w * x + ((y0 + 1) / 2 - logistic x)).
  assert (Hw : 0 <= w).
  { unfold w. pose proof (logistic_bounds x). nra. }
  pose proof (sqrt_pos w) as Hs.
  pose proof (sqrt_sqrt w Hw) as Hss.
  set (s := sqrt w) in *.
  set (B := 1 + (0 + (0 + s * c) * s)).
  assert (HB : B = 1 + w * c) by (unfold B; rewrite <- Hss; ring).
  assert (HB0 : 0 < B) by (rewrite HB; nra).
  rewrite cholesky_ref_1 by exact HB0. cbn [bind].
  rewrite lstsq_ref_1. cbn [bind]. simpl.
  unfold msub, broadcast, bdim, ncols, nrows, mk, bget, get. simpl.
  eexists. split; [reflexivity|].
  assert (Hl : sqrt (B - 0) * sqrt (B - 0) = B).
  { rewrite sqrt_sqrt by lra. lra. }
  assert (Hl0 : sqrt (B - 0) <> 0).
  { intros Hz. rewrite Hz in Hl. lra. }
  set (l := sqrt (B - 0)) in *.
  unfold newton_1. fold w.
  transitivity (c * (b0 - (s * s) * c * b0 / (l * l))).
  { cbn [hd]. field. exact Hl0. }
  rewrite Hss, Hl, HB. unfold b0. field. nra.
Qed.

(** The iterate at the start of iteration [j]. *)
Lemma one_point_iterate j : forall x,
  exists xj,
    iterate_F (NP := numpy_ref) (SP := scipy_stub) self [[c]] 1
      [(EmptyString, x)] j = Ok [(EmptyString, xj)] /\
    (x <= 0 -> y0 = -1 -> xj <= 0) /\
    (x = 0 -> c = 0 -> xj = 0).
Proof.
  induction j as [|j IH]; intros x.
  - exists x. by split.
  - cbn [iterate_F].
    destruct (one_point_body x) as (y & -> & Hy). cbn [bind].
    change (new_series [y]) with [(EmptyString, y)].
    destruct (IH y) as (xj & Hxj & Hneg & Hzero).
    exists xj. split; [done|]. split.
    + intros Hx Hy0. apply Hneg; [|done]. subst y0.
      destruct (Req_dec_T c 0) as [Hc0|Hc0].
      * rewrite Hy, newton_1_zero by done. lra.
      * apply Rlt_le. rewrite Hy. apply newton_1_negative; lra.
    + intros Hx Hc0. apply Hzero; [|done]. by rewrite Hy, newton_1_zero.
Qed.

Lemma one_point_runs j :
  runs (NP := numpy_ref) (SP := scipy_stub) self [[c]] 1
    [(EmptyString, 0)] j.
Proof.
  destruct (one_point_iterate j 0) as (xj & Hxj & _).
  destruct (one_point_body xj) as (y & Hy & _).
  by exists [(EmptyString, xj)], [y], [xj - y].
Qed.

(** Without covariance the iterates stay at zero, and no iteration meets
    the criterion. *)
Lemma flat_never j :
  c = 0 ->
  ~ converged_at (NP := numpy_ref) (SP := scipy_stub) self [[c]] 1
      default_threshold [(EmptyString, 0)] j.
Proof.
  intros Hc0 (fj & f_new & Hfj & Hbody & Hcrit).
  destruct (one_point_iterate j 0) as (xj & Hxj & _ & Hzero).
  rewrite Hxj in Hfj. injection Hfj as <-.
  destruct (one_point_body xj) as (y & Hy & Hy0).
  rewrite Hy in Hbody. injection Hbody as <-.
  apply (criterion_zero xj y); [|done].
  by rewrite Hy0, newton_1_zero.
Qed.

(** With a positive prior variance and the output [-1] every successor
    is negative: ten iterations in a row meet the criterion and the tenth
    successor is returned. *)
Lemma descending_loop k : forall nb x evals,
  0 < c -> y0 = -1 -> x <= 0 -> (nb + S k = 10)%nat ->
  exists y,
    _find_F_loop (NP := numpy_ref) (SP := scipy_stub) self [[c]] 1
      default_threshold (S k + evals) [(EmptyString, x)] nb
    = Ok [("a"%string, y)].
Proof.
  induction k as [|k IH]; intros nb x evals Hc0 Hy0 Hx Hnb;
    change (S ?a + evals)%nat with (S (a + evals));
    cbn [_find_F_loop];
    destruct (one_point_body x) as (y & -> & Hy); cbn [bind];
    change (values [(EmptyString, x)]) with [x];
    (assert (Hneg : y < 0)
       by (rewrite Hy; subst y0; by apply newton_1_negative));
    rewrite (criterion_below _ _ _ (criterion_negative x y Hneg));
    cbn [bind]; change (new_series [y]) with [(EmptyString, y)].
  - assert (nb = 9)%nat as -> by lia. cbn [Nat.ltb Nat.leb].
    unfold get_frame, getattr. rewrite HX. cbn [bind attr as_frame].
    by exists y.
  - destruct (Nat.ltb_spec 9 (S nb)) as [|_]; [lia|].
    apply IH; (done || lra || lia).
Qed.

End OnePoint.

(** A classification model with one training sequence, labelled [-1]. *)
Definition one_class_model : obj HammingKernel vector :=
  <["kern" := VKern one_kernel]> (<["regr" := VBool false]>
  (<["_ell" := VInt 1]> (<["Y" := VSeries [("a"%string, -1)]]>
  (<["X_seqs" := VFrame [("a", "R")]%string]> ∅)))).

Lemma one_kernel_K h :
  make_K (GPKernel := hamming_kernel) one_kernel [h]
  = Ok [[hamming "R" "R" * h]].
Proof. reflexivity. Qed.

Lemma one_class_find_F :
  exists y,
    _find_F (HK := hamming_kernel) (NP := numpy_ref) (SP := scipy_stub)
      one_class_model [1] None default_threshold default_evals
    = Ok [("a"%string, y)].
Proof.
  rewrite (_find_F_unfold (HK := hamming_kernel) one_class_model [1]
             [("a"%string, -1)] one_kernel [[hamming "R" "R" * 1]] _ _
             eq_refl eq_refl (one_kernel_K 1)).
  change default_evals with (S 9 + 990)%nat.
  assert (Hc : 0 < hamming "R" "R" * 1) by (unfold hamming; simpl; lra).
  apply (descending_loop one_class_model (-1) (hamming "R" "R" * 1));
    (done || lra || lia).
Qed.

Lemma C4_find_F_convergence_witness :
  let f0 := new_series (repeat 0 1) in
  (exists f_hat i fi f_new X,
     _find_F (HK := hamming_kernel) (NP := numpy_ref) (SP := scipy_stub)
       one_class_model [1] None default_threshold default_evals
     = Ok f_hat /\
     (9 <= i < 1000)%nat /\
     (forall j, (i - 9 <= j <= i)%nat ->
        converged_at (NP := numpy_ref) (SP := scipy_stub) one_class_model
          [[hamming "R" "R" * 1]] 1 default_threshold f0 j) /\
     iterate_F (NP := numpy_ref) (SP := scipy_stub) one_class_model
       [[hamming "R" "R" * 1]] 1 f0 i = Ok fi /\
     _find_F_body (NP := numpy_ref) (SP := scipy_stub) one_class_model
       [[hamming "R" "R" * 1]] 1 fi = Ok f_new /\
     one_class_model !! "X_seqs" = Some (VFrame X) /\
     set_index (new_series f_new) (index X) = Ok f_hat) /\
  _find_F (HK := hamming_kernel) (NP := numpy_ref) (SP := scipy_stub)
    one_class_model [0] None default_threshold default_evals
  = Raise RuntimeError.
Proof.
  intros f0. split.
  - destruct one_class_find_F as [y Hrun].
    destruct (proj1 (C4_find_F_convergence (HK := hamming_kernel)
                       (NP := numpy_ref) (SP := scipy_stub)
                       one_class_model [1] [("a"%string, -1)] one_kernel
                       [[hamming "R" "R" * 1]] eq_refl eq_refl
                       (one_kernel_K 1))
                _ Hrun)
      as (i & fi & f_new & X & H).
    exists [("a"%string, y)], i, fi, f_new, X. split; [exact Hrun|exact H].
  - assert (Hc : hamming "R" "R" * 0 = 0) by apply Rmult_0_r.
    apply (proj2 (C4_find_F_convergence (HK := hamming_kernel)
                    (NP := numpy_ref) (SP := scipy_stub)
                    one_class_model [0] [("a"%string, -1)] one_kernel
                    [[hamming "R" "R" * 0]] eq_refl eq_refl
                    (one_kernel_K 0))).
    + intros j _.
      apply (one_point_runs one_class_model (-1)); [done|lra].
    + intros i Hi. exists i. split; [lia|].
      apply (flat_never one_class_model (-1)); (done || lra).
Defined.

(** ** Hyperparameters of a classification model with one training point *)

Section OnePointArtifacts.

Context (self : obj HammingKernel vector).
Hypothesis HY : self !! "Y" = Some (VSeries [("a"%string, -1)]).
Hypothesis HX : self !! "X_seqs" = Some (VFrame [("a", "R")]%string).
Hypothesis Hk : self !! "kern" = Some (VKern one_kernel).
Hypothesis Hell : self !! "_ell" = Some (VInt 1).

Lemma one_point_find_F :
  exists y,
    _find_F (HK := hamming_kernel) (NP := numpy_ref) (SP := scipy_stub)
      self [1] None default_threshold default_evals
    = Ok [("a"%string, y)].
Proof.
  rewrite (_find_F_unfold (HK := hamming_kernel) self [1]
             [("a"%string, -1)] one_kernel [[hamming "R" "R" * 1]] _ _
             HY Hk (one_kernel_K 1)).
  change default_evals with (S 9 + 990)%nat.
  assert (Hc : 0 < hamming "R" "R" * 1) by (unfold hamming; simpl; lra).
  apply (descending_loop self (-1) (hamming "R" "R" * 1));
    (done || lra || lia).
Qed.

Lemma one_point_logq y :
  exists ml,
    _logq (HK := hamming_kernel) (NP := numpy_ref) (SP := scipy_stub)
      self [("a"%string, y)] [1] = Ok [[ml]].
Proof.
  unfold _logq, get_kern, get_series, getattr. rewrite Hell, Hk, HY.
  cbn [bind attr as_kern as_series]. rewrite one_kernel_K. cbn [bind].
  assert (Hc : 0 <= hamming "R" "R" * 1) by (unfold hamming; simpl; lra).
  set (c := hamming "R" "R" * 1) in *.
  unfold _hess, dot, madd, broadcast, diag_of, eye, mmul, sqrtm, scipy_stub,
    mmap, values, transpose, bdim, ncols, nrows, mk, get, bget.
  simpl. unfold get, diag_of, mk. simpl.
  pose proof (logistic_bounds y) as Hl.
  pose proof (sqrt_pos (logistic y * (1 - logistic y))) as Hs.
  rewrite cholesky_ref_1 by nra. cbn [bind].
  rewrite lstsq_ref_1. cbn [bind]. simpl.
  unfold _log_logistic_likelihood, _logistic_likelihood, values.
  cbn [length Nat.eqb negb map snd].
  rewrite (forallb_is_pm1 [-1]) by (constructor; [by left|constructor]).
  simpl. eexists. reflexivity.
Qed.

End OnePointArtifacts.

Lemma one_point_factor y :
  exists l,
    (WK <- dot (sqrtm (SciPy := scipy_stub) (_hess [("a"%string, y)]))
             [[hamming "R" "R" * 1]] ;;
     WKW <- dot WK (sqrtm (SciPy := scipy_stub) (_hess [("a"%string, y)])) ;;
     B <- madd (eye 1) WKW ;;
     cholesky (NumPyLinalg := numpy_ref) B) = Ok [[l]].
Proof.
  assert (Hc : 0 <= hamming "R" "R" * 1) by (unfold hamming; simpl; lra).
  set (c := hamming "R" "R" * 1) in *.
  unfold _hess, dot, madd, broadcast, diag_of, eye, mmul, sqrtm, scipy_stub,
    mmap, values, transpose, bdim, ncols, nrows, mk, get, bget.
  simpl. unfold get. simpl.
  pose proof (logistic_bounds y) as Hl.
  pose proof (sqrt_pos (logistic y * (1 - logistic y))) as Hs.
  rewrite cholesky_ref_1 by nra. by eexists.
Qed.

Lemma one_class_set_hypers :
  exists self',
    _set_hypers (HK := hamming_kernel) (HM := zero_mean) (NP := numpy_ref)
      (SP := scipy_stub) [1] one_class_model = (Ok tt, self').
Proof.
  unfold _set_hypers, mbind_, reading, lift, setattr.
  unfold get_bool, get_kern, getattr at 1 2.
  unfold one_class_model.
  lookup_attr. cbn [bind attr as_bool as_kern]. lookup_attr.
  cbn [bind attr as_bool as_kern namedtuple_make kern_hypers hamming_kernel
       length Nat.eqb].
  change (values (zip ["var_p"%string] [1])) with [1].
  match goal with
  | |- context [_find_F ?s _ _ _ _] =>
      destruct (one_point_find_F s eq_refl eq_refl eq_refl) as (y & ->)
  end.
  unfold get_kern, getattr at 1. lookup_attr.
  cbn [bind attr as_kern]. rewrite one_kernel_K.
  unfold getattr at 1. lookup_attr. cbn [bind attr].
  destruct (one_point_factor y) as [l ->].
  unfold get_series, getattr at 1. lookup_attr. cbn [bind attr as_series].
  unfold _grad_log_logistic_likelihood, vzip, values.
  cbn [map snd length Nat.eqb bind].
  unfold _log_ML, get_bool, getattr at 1. lookup_attr.
  cbn [bind attr as_bool].
  match goal with
  | |- context [_find_F ?s _ _ _ _] =>
      destruct (one_point_find_F s eq_refl eq_refl eq_refl) as (y' & ->)
  end.
  cbn [bind].
  match goal with
  | |- context [_logq ?s _ _] =>
      destruct (one_point_logq s eq_refl eq_refl eq_refl y') as [ml ->]
  end.
  cbn [bind item]. by eexists.
Qed.

Lemma X28_set_hypers_classification_witness :
  exists (self' : obj HammingKernel vector) Ys f_hat Kc L g i,
    _set_hypers (HK := hamming_kernel) (HM := zero_mean) (NP := numpy_ref)
      (SP := scipy_stub) [1] one_class_model = (Ok tt, self') /\
    let s : obj HammingKernel vector :=
      <["hypers" := (VHypers
                       (zip (kern_hypers (GPKernel := hamming_kernel)
                               one_kernel) [1])
                     : value HammingKernel vector)]> one_class_model in
    self' !! "hypers"
    = Some (VHypers (zip (kern_hypers (GPKernel := hamming_kernel)
                            one_kernel) [1])) /\
    one_class_model !! "Y" = Some (VSeries Ys) /\
    make_K (GPKernel := hamming_kernel) one_kernel [1] = Ok Kc /\
    _find_F (HK := hamming_kernel) (NP := numpy_ref) (SP := scipy_stub)
      s [1] None
      default_threshold default_evals = Ok f_hat /\
    (9 <= i < 1000)%nat /\
    (forall j, (i - 9 <= j <= i)%nat ->
       converged_at (NP := numpy_ref) (SP := scipy_stub) s Kc
         (length Ys) default_threshold
         (new_series (repeat 0 (length Ys))) j) /\
    self' !! "_f_hat" = Some (VSeries f_hat) /\
    self' !! "_W" = Some (VArr (_hess f_hat)) /\
    self' !! "_W_root"
    = Some (VArr (sqrtm (SciPy := scipy_stub) (_hess f_hat))) /\
    self' !! "_Ky" = Some (VArr Kc) /\
    self' !! "_L" = Some (VArr L) /\
    lower_triangular L /\
    madd (eye 1)
      (mmul (mmul (sqrtm (SciPy := scipy_stub) (_hess f_hat)) Kc)
         (sqrtm (SciPy := scipy_stub) (_hess f_hat)))
    = Ok (mmul L (transpose L)) /\
    _grad_log_logistic_likelihood Ys f_hat = Ok g /\
    self' !! "_grad" = Some (VArr (np_matrix (diagonal g))) /\
    self' !! "_K" = one_class_model !! "_K" /\
    self' !! "_alpha" = one_class_model !! "_alpha".
Proof.
  destruct one_class_set_hypers as [self' Hrun]. exists self'.
  destruct (X28_set_hypers_classification (HK := hamming_kernel)
              (HM := zero_mean) (NP := numpy_ref) (SP := scipy_stub)
              one_class_model self' [1] one_kernel 1%nat
              cholesky_ref_factors eq_refl eq_refl eq_refl Hrun)
    as (Ys & f_hat & Kc & L & g & i & H).
  exists Ys, f_hat, Kc, L, g, i. split; [exact Hrun|exact H].
Defined.
